(** * The compilation-unit assembler of template-compiler

    A shallow embedding of [compiler/compile.go]: the namespace manager
    ([addImport], [isCollidingIdent], [makeFuncName]), the literal table
    ([addBuiltintText]), the init/registry emitter, the output assembler and
    the resolver/loader pipeline, followed by the properties proved of them.

    Go strings are byte strings: [string].  A Go [map[string]V] is a
    [gmap string V]; the order in which [range] walks a map is not fixed by
    the language and is drawn from the run's [World].  A Go slice is a [list].
    A pointer that may be [nil] is an [option]. *)

From Stdlib Require Import String Ascii List Arith Lia Permutation.
From stdpp Require Import base gmap strings list pretty sorting.

Local Open Scope string_scope.
Local Open Scope list_scope.

(** ** Library functions of Go the code calls *)

Module Go.

(** The double quote character, byte 34. *)
Definition dquote : ascii := "034"%char.

Definition isPathSeparator (a : ascii) : bool := Ascii.eqb a "/".

Fixpoint dropWhile (p : ascii -> bool) (l : list ascii) : list ascii :=
  match l with
  | [] => []
  | a :: l' => if p a then dropWhile p l' else l
  end.

Fixpoint takeWhile (p : ascii -> bool) (l : list ascii) : list ascii :=
  match l with
  | [] => []
  | a :: l' => if p a then a :: takeWhile p l' else []
  end.

(** [filepath.Base] on a Unix path: the empty path gives ".", trailing
    slashes are stripped, the text after the last remaining slash is the
    result, and a path of slashes only gives "/". *)
Definition Base (path : string) : string :=
  match path with
  | EmptyString => "."
  | _ =>
    let stripped := dropWhile isPathSeparator (rev (list_ascii_of_string path)) in
    let elem := rev (takeWhile (fun a => negb (isPathSeparator a)) stripped) in
    match elem with
    | [] => "/"
    | _ => string_of_list_ascii elem
    end
  end.

(** [%v] of a non-negative [int]: its decimal digits. *)
Definition itoa (n : nat) : string := pretty n.

(** [s[n:]]. *)
Fixpoint sliceFrom (n : nat) (s : string) : string :=
  match n, s with
  | O, _ => s
  | S n', String _ s' => sliceFrom n' s'
  | S _, EmptyString => EmptyString
  end.

(** [strings.Replace(s, old, new, -1)] for a one-byte [old]. *)
Fixpoint replaceByte (old : ascii) (new : string) (s : string) : string :=
  match s with
  | EmptyString => EmptyString
  | String a s' =>
    if Ascii.eqb a old then new +:+ replaceByte old new s'
    else String a (replaceByte old new s')
  end.

End Go.

(** What the model takes as given of the code around compile.go: functions
    of Go's library and of package [snaker], and the two helpers of this
    package that turn source text into a declaration and back, which are not
    in compile.go. *)
Class GoLibrary := {
  (** [strconv.Quote], as the verbs [%q] and [%#v] apply it to a string. *)
  quote : string -> string;
  (** [filepath.Dir]. *)
  filepath_Dir : string -> string;
  (** [strings.ToLower]. *)
  strings_ToLower : string -> string;
  (** [snaker.SnakeToCamel]. *)
  snaker_SnakeToCamel : string -> string;
  (** [ast.FuncDecl]. *)
  FuncDecl : Type;
  (** The first declaration of [stringToAst(gocode)], for the source text
      [createFunc] builds from a function name. *)
  parseFuncDecl : string -> FuncDecl;
  (** [astNodeToString] on a function declaration. *)
  astNodeToString : FuncDecl -> string;
}.

Section Namespace.
Context `{GoLibrary}.

(** [ast.ImportSpec]: the alias [Name] (a [nil] pointer when the import has
    none) and the quoted path [Path.Value]. *)
Record ImportSpec := {
  ImportSpec_Name : option string;
  ImportSpec_Path : string;
}.

Record CompiledTemplatesProgram := {
  varName : string;
  imports : list ImportSpec;
  funcs : list FuncDecl;
  idents : list string;
  builtinTexts : gmap string string;
}.

Definition strEqb (a b : string) : bool := bool_decide (a = b).

Definition isCollidingIdent (c : CompiledTemplatesProgram) (ident : string) : bool :=
  existsb (fun i => match ImportSpec_Name i with
                    | Some n => strEqb n ident
                    | None => false
                    end) (imports c)
  || existsb (fun i => strEqb i ident) (idents c).

(** The first loop of [addImport]: the alias of the first import whose quoted
    path is [qpath]. *)
Fixpoint findImport (qpath bpath : string) (l : list ImportSpec) : option string :=
  match l with
  | [] => None
  | i :: l' =>
    if strEqb (ImportSpec_Path i) qpath then
      match ImportSpec_Name i with
      | None => Some bpath
      | Some n => Some n
      end
    else findImport qpath bpath l'
  end.

Definition addImport (c : CompiledTemplatesProgram) (pkgpath : string)
  : string * CompiledTemplatesProgram :=
  let qpath := quote pkgpath in
  let bpath := Go.Base pkgpath in
  match findImport qpath bpath (imports c) with
  | Some a => (a, c)
  | None =>
    (* the new import is appended before the collision check, without a name *)
    let c1 := {| varName := varName c;
                 imports := imports c ++ [{| ImportSpec_Name := None; ImportSpec_Path := qpath |}];
                 funcs := funcs c; idents := idents c;
                 builtinTexts := builtinTexts c |} in
    if isCollidingIdent c1 bpath then
      let bpath' := "alias" +:+ bpath in
      (bpath',
       {| varName := varName c;
          imports := imports c ++ [{| ImportSpec_Name := Some bpath'; ImportSpec_Path := qpath |}];
          funcs := funcs c; idents := idents c ++ [bpath'];
          builtinTexts := builtinTexts c |})
    else
      (bpath,
       {| varName := varName c; imports := imports c1;
          funcs := funcs c; idents := idents c ++ [bpath];
          builtinTexts := builtinTexts c |})
  end.

(** The candidate the loop of [makeFuncName] forms at counter [i]. *)
Definition fnCandidate (baseName : string) (i : nat) : string :=
  "fn" +:+ Go.itoa i +:+ baseName.

(** The loop of [makeFuncName], [for c.isCollidingIdent(x) { ... }], run for
    at most [fuel] iterations from the candidate [x] and the counter [i]. *)
Fixpoint makeFuncName_loop (fuel : nat) (c : CompiledTemplatesProgram)
    (baseName x : string) (i : nat) : string * nat :=
  match fuel with
  | O => (x, i)
  | S fuel' =>
    if isCollidingIdent c x
    then makeFuncName_loop fuel' c baseName (fnCandidate baseName i) (S i)
    else (x, i)
  end.

(** The loop leaves after at most one iteration per reserved identifier
    ([makeFuncName_loop_free] below), so this much fuel never runs out.  The
    counter stays below the length of two slices, so the [int] never wraps. *)
Definition makeFuncName_fuel (c : CompiledTemplatesProgram) : nat :=
  S (length (imports c) + length (idents c)).

Definition makeFuncName (c : CompiledTemplatesProgram) (baseName : string)
  : string * CompiledTemplatesProgram :=
  let x := fst (makeFuncName_loop (makeFuncName_fuel c) c baseName baseName 0) in
  (x, {| varName := varName c; imports := imports c; funcs := funcs c;
         idents := idents c ++ [x]; builtinTexts := builtinTexts c |}).

Definition createFunc (c : CompiledTemplatesProgram) (name : string)
  : FuncDecl * CompiledTemplatesProgram :=
  let fn := parseFuncDecl name in
  (fn, {| varName := varName c; imports := imports c; funcs := funcs c ++ [fn];
          idents := idents c; builtinTexts := builtinTexts c |}).

Definition addBuiltintText (c : CompiledTemplatesProgram) (text : string)
  : string * CompiledTemplatesProgram :=
  match builtinTexts c !! text with
  | Some x => (x, c)
  | None =>
    let x := "builtin" +:+ Go.itoa (size (builtinTexts c)) in
    (x, {| varName := varName c; imports := imports c; funcs := funcs c;
           idents := idents c;
           builtinTexts := <[text := x]> (builtinTexts c) |})
  end.

(** The identifiers [NewCompiledTemplatesProgram] reserves from the start. *)
Definition reservedIdents (varName : string) : list string :=
  ["t"; "w"; "data"; "indata"; varName].

(** The struct literal [NewCompiledTemplatesProgram] starts from. *)
Definition bareProgram (varName : string) : CompiledTemplatesProgram :=
  {| varName := varName; imports := []; funcs := [];
     idents := reservedIdents varName; builtinTexts := ∅ |}.

Definition parsePkgPath : string :=
  "github.com/mh-cbon/template-compiler/std/text/template/parse".

Definition NewCompiledTemplatesProgram (varName : string) : CompiledTemplatesProgram :=
  let ret := bareProgram varName in
  let ret := snd (addImport ret "io") in
  let ret := snd (addImport ret parsePkgPath) in
  ret.

(** [compiled.DataConfiguration], the fields [getDataQualifier] reads. *)
Record DataConfiguration := {
  PkgPath : string;
  DataTypeName : string;
  IsPtr : bool;
}.

Definition getDataQualifier (c : CompiledTemplatesProgram) (dataConf : DataConfiguration)
  : string * CompiledTemplatesProgram :=
  let '(dataAlias, c) := addImport c (PkgPath dataConf) in
  let dataQualifier := dataAlias +:+ "." +:+ DataTypeName dataConf in
  let dataQualifier :=
    if IsPtr dataConf then "*" +:+ dataAlias +:+ "." +:+ DataTypeName dataConf
    else dataQualifier in
  (dataQualifier, c).

(** *** Calls on the shared program

    The namespace and the literal table are one mutable object every
    template's conversion works on.  A [call] is one method call on it, and
    [run] performs a sequence of calls, keeping each call with its reply. *)
Inductive call :=
  | CallAddImport (pkgpath : string)
  | CallMakeFuncName (baseName : string)
  | CallCreateFunc (name : string)
  | CallAddBuiltintText (text : string)
  (** a write through the pointer [createFunc] returned, to the [i]-th
      declaration of [c.funcs] *)
  | CallEditFunc (i : nat) (g : FuncDecl -> FuncDecl).

Inductive reply :=
  | RString (s : string)
  | RFunc (fn : FuncDecl)
  | RUnit.

Definition exec (k : call) (c : CompiledTemplatesProgram) : reply * CompiledTemplatesProgram :=
  match k with
  | CallAddImport p => let '(a, c') := addImport c p in (RString a, c')
  | CallMakeFuncName b => let '(x, c') := makeFuncName c b in (RString x, c')
  | CallCreateFunc n => let '(fn, c') := createFunc c n in (RFunc fn, c')
  | CallAddBuiltintText t => let '(x, c') := addBuiltintText c t in (RString x, c')
  | CallEditFunc i g =>
    (RUnit, {| varName := varName c; imports := imports c;
               funcs := alter g i (funcs c); idents := idents c;
               builtinTexts := builtinTexts c |})
  end.

Fixpoint run (ks : list call) (c : CompiledTemplatesProgram)
  : list (call * reply) * CompiledTemplatesProgram :=
  match ks with
  | [] => ([], c)
  | k :: ks' =>
    let '(r, c1) := exec k c in
    let '(log, c2) := run ks' c1 in
    ((k, r) :: log, c2)
  end.

(** The calls [NewCompiledTemplatesProgram] makes on the bare program. *)
Definition initialCalls : list call :=
  [CallAddImport "io"; CallAddImport parsePkgPath].

(** One compile request seen from the shared program: the constructor's
    calls, then the calls [ks] of the request. *)
Definition session (varName : string) (ks : list call)
  : list (call * reply) * CompiledTemplatesProgram :=
  run (initialCalls ++ ks) (bareProgram varName).

(** The function identifiers [makeFuncName] handed out, oldest first. *)
Definition funcNamesOf (log : list (call * reply)) : list string :=
  omap (fun kr => match kr with
                  | (CallMakeFuncName _, RString x) => Some x
                  | _ => None
                  end) log.

(** The aliases [addImport] returned, oldest first. *)
Definition aliasesOf (log : list (call * reply)) : list string :=
  omap (fun kr => match kr with
                  | (CallAddImport _, RString a) => Some a
                  | _ => None
                  end) log.

(** The texts handed to [addBuiltintText] with the constant names returned. *)
Definition literalsOf (log : list (call * reply)) : list (string * string) :=
  omap (fun kr => match kr with
                  | (CallAddBuiltintText t, RString x) => Some (t, x)
                  | _ => None
                  end) log.

(** The base names of the compile request start with "fn": the loader builds
    every one as [cleanTplName("fn" + ...)]. *)
Definition fnBased (k : call) : bool :=
  match k with
  | CallMakeFuncName b => String.prefix "fn" b
  | _ => true
  end.

(** *** Names used to state the properties *)

(** The aliases written on import records. *)
Definition importNames (c : CompiledTemplatesProgram) : list string :=
  omap ImportSpec_Name (imports c).

(** Whether an import record already carries the quoted [pkgpath]: the test of
    the first loop of [addImport]. *)
Definition importedPath (c : CompiledTemplatesProgram) (pkgpath : string) : bool :=
  existsb (fun i => strEqb (ImportSpec_Path i) (quote pkgpath)) (imports c).

(** The constant name [addBuiltintText] forms for the [k]-th distinct text. *)
Definition builtinName (k : nat) : string := "builtin" +:+ Go.itoa k.

(** The number of distinct strings of a list. *)
Definition distinct (l : list string) : nat := size (list_to_set l : gset string).

End Namespace.

(** ** Errors, collaborators and the world of one run *)

(** An error of the packages [os], [io/ioutil] and [path/filepath]: its
    message, and whether [os.IsNotExist] holds of it. *)
Record fsError := {
  fsError_msg : string;
  fsError_notExist : bool;
}.

(** The [error] values the compiler meets, by where they are made. *)
Inductive error :=
  | Errorf (msg : string)       (* fmt.Errorf *)
  | ErrBadPattern               (* filepath.ErrBadPattern *)
  | ErrFS (e : fsError)
  | ErrParse (msg : string)     (* text/template and html/template *)
  | ErrConvert (msg : string).  (* convertTplTree *)

(** The verb [%v] on an error: its message. *)
Definition errorString (e : error) : string :=
  match e with
  | Errorf m => m
  | ErrBadPattern => "syntax error in pattern"
  | ErrFS e => fsError_msg e
  | ErrParse m => m
  | ErrConvert m => m
  end.

Definition os_IsNotExist (err : option error) : bool :=
  match err with
  | Some (ErrFS e) => fsError_notExist e
  | _ => false
  end.

(** A template package ([text/template] or [html/template]) as the loader
    uses it.  A [TemplateSet] is the state of the templates that share one
    name space; [Execute] on one of them may change the trees of the set. *)
Record Engine (FuncMap Tree : Type) := {
  TemplateSet : Type;
  TemplateRef : Type;
  (** [New(name).Funcs(funcsMap).Parse(content)]: the set, or the message
      of the parse error *)
  engine_Parse : string -> string -> FuncMap -> string + TemplateSet;
  (** [t.Templates()] *)
  engine_Templates : TemplateSet -> list TemplateRef;
  (** [tpl.Name()] *)
  engine_Name : TemplateRef -> string;
  (** the set after [tpl.Execute(ioutil.Discard, nil)], whose error is dropped *)
  engine_Execute : TemplateSet -> TemplateRef -> TemplateSet;
  (** [tpl.Tree] *)
  engine_Tree : TemplateSet -> TemplateRef -> option Tree;
}.

Arguments TemplateSet {_ _} _.
Arguments TemplateRef {_ _} _.
Arguments engine_Parse {_ _} _ _ _ _.
Arguments engine_Templates {_ _} _ _.
Arguments engine_Name {_ _} _ _.
Arguments engine_Execute {_ _} _ _ _.
Arguments engine_Tree {_ _} _ _ _.

(** What [convertTplTree] may ask of the shared program. *)
Inductive request `{GoLibrary} :=
  | ReqAddImport (pkgpath : string)
  | ReqCreateFunc (name : string)
  | ReqAddBuiltintText (text : string)
  | ReqEditFunc (i : nat) (g : FuncDecl -> FuncDecl).

Definition callOf `{GoLibrary} (r : request) : call :=
  match r with
  | ReqAddImport p => CallAddImport p
  | ReqCreateFunc n => CallCreateFunc n
  | ReqAddBuiltintText t => CallAddBuiltintText t
  | ReqEditFunc i g => CallEditFunc i g
  end.

(** The collaborators of the assembler: the template packages, the
    simplifier, the node converter, and the types of package [compiled] the
    assembler only passes on. *)
Class Collaborators `{GoLibrary} := {
  (** [parse.Tree] *)
  Tree : Type;
  (** [simplifier.State] *)
  State : Type;
  (** the data descriptor of a template configuration, an [interface{}] *)
  DataT : Type;
  (** [map[string]interface{}] *)
  FuncMap : Type;
  (** the types of the fields [PublicIdents] and [DataConfiguration] *)
  PublicIdentsT : Type;
  DataConfT : Type;
  text_template : Engine FuncMap Tree;
  html_template : Engine FuncMap Tree;
  (** [simplifier.TransformTree] *)
  simplifier_TransformTree : option Tree -> DataT -> FuncMap -> State;
  (** Modelled from the spec: [convertTplTree] is a function of this package
      that is not in compile.go.  Section 4.5 of the spec: it receives the
      function identifier, the tree, the export and public-identifier tables,
      the data descriptor and the type-checked state, and may request imports
      and literal constants (and, to hold its result, function declarations)
      of the shared program; it fails with a conversion error.  It is given
      as the requests it makes, in order, and the message of its error. *)
  convertTplTree :
    string -> option Tree -> FuncMap -> PublicIdentsT -> DataConfT ->
    option State -> CompiledTemplatesProgram -> list request * option string;
}.

Section Assembler.
Context `{Collaborators}.

(** [compiled.TemplateConfiguration] and [compiled.Configuration]: the fields
    the compiler reads.  ([DataConfiguration_] is the field
    [DataConfiguration]; the name without the underscore is the record that
    [getDataQualifier] takes.) *)
Record TemplateConfiguration := {
  TemplatesPath : string;
  Data : DataT;
  FuncsExport : FuncMap;
  PublicIdents : PublicIdentsT;
  HTML : bool;
  DataConfiguration_ : DataConfT;
}.

Record Configuration := {
  OutPath : string;
  OutPkg : string;
  Templates : list TemplateConfiguration;
}.

Record TemplateFileToCompile := {
  name : string;
  tplsTree : gmap string (option Tree);
  tplsFunc : gmap string string;
  tplsTypeCheck : gmap string State;
  definedTemplates : list string;
}.

(** [conf] is the embedded [*compiled.TemplateConfiguration]. *)
Record TemplateToCompile := {
  conf : TemplateConfiguration;
  files : list TemplateFileToCompile;
}.

(** *** The world of one run

    The file system as the run sees it, the order in which the runtime will
    walk the maps the run ranges over, and the files written so far. *)
Record World := {
  (** [filepath.Glob]: the matches; [None] is [ErrBadPattern], the only
      error it returns *)
  fs_Glob : string -> option (list string);
  (** [ioutil.ReadFile] *)
  fs_ReadFile : string -> fsError + string;
  (** the error of [os.Stat] *)
  fs_Stat : string -> option fsError;
  (** the error of [ioutil.WriteFile(path, data, os.ModePerm)] *)
  fs_WriteFile : string -> string -> option fsError;
  (** one choice per [range] over a map still to come *)
  mapOrder : list (list nat);
  (** the calls of [ioutil.WriteFile] made, oldest first *)
  written : list (string * string);
}.

(** A call either returns or panics. *)
Inductive outcome (A : Type) :=
  | Done (a : A)
  | Panicked (msg : string).
Arguments Done {A} a.
Arguments Panicked {A} msg.

Definition M (A : Type) : Type := World -> outcome A * World.

Definition ret {A : Type} (a : A) : M A := fun w => (Done a, w).

Definition bind {A B : Type} (m : M A) (k : A -> M B) : M B :=
  fun w =>
    match m w with
    | (Done a, w') => k a w'
    | (Panicked msg, w') => (Panicked msg, w')
    end.

Definition panic {A : Type} (msg : string) : M A := fun w => (Panicked msg, w).

Definition filepath_Glob (pattern : string) : M (list string * option error) :=
  fun w =>
    match fs_Glob w pattern with
    | Some matches => (Done (matches, None), w)
    | None => (Done ([], Some ErrBadPattern), w)
    end.

Definition ioutil_ReadFile (path : string) : M (string * option error) :=
  fun w =>
    match fs_ReadFile w path with
    | inr content => (Done (content, None), w)
    | inl e => (Done ("", Some (ErrFS e)), w)
    end.

Definition os_Stat (path : string) : M (option error) :=
  fun w => (Done (ErrFS <$> fs_Stat w path), w).

Definition ioutil_WriteFile (path data : string) : M (option error) :=
  fun w =>
    (Done (ErrFS <$> fs_WriteFile w path data),
     {| fs_Glob := fs_Glob w; fs_ReadFile := fs_ReadFile w; fs_Stat := fs_Stat w;
        fs_WriteFile := fs_WriteFile w; mapOrder := mapOrder w;
        written := written w ++ [(path, data)] |}).

Fixpoint insertAt {A : Type} (n : nat) (x : A) (l : list A) : list A :=
  match n, l with
  | O, _ => x :: l
  | S n', y :: l' => y :: insertAt n' x l'
  | S _, [] => [x]
  end.

(** The elements of [l] in the order the choice [ch] picks; every order of
    [l] is picked by some choice. *)
Fixpoint shuffle {A : Type} (ch : list nat) (l : list A) : list A :=
  match l with
  | [] => []
  | x :: l' =>
    match ch with
    | [] => x :: l'
    | n :: ch' => insertAt n x (shuffle ch' l')
    end
  end.

(** [for k, v := range m] over a map: the entries, in the order the runtime
    picks for this loop. *)
Definition rangeMap {V : Type} (m : gmap string V) : M (list (string * V)) :=
  fun w =>
    (Done (shuffle (default [] (head (mapOrder w))) (map_to_list m)),
     {| fs_Glob := fs_Glob w; fs_ReadFile := fs_ReadFile w; fs_Stat := fs_Stat w;
        fs_WriteFile := fs_WriteFile w; mapOrder := tail (mapOrder w);
        written := written w |}).

End Assembler.

Arguments Done {A} a.
Arguments Panicked {A} msg.

Notation "'let!' x ':=' m 'in' k" := (bind m (fun x => k))
  (at level 10, x name, m at level 100, k at level 200).
Notation "'let!' ' pat ':=' m 'in' k" := (bind m (fun x => match x with pat => k end))
  (at level 10, pat pattern, m at level 100, k at level 200).
(** ** The functions of compile.go *)

Section Compiler.
Context `{Collaborators}.

(** The newline and tab bytes of the format strings. *)
Definition nl : string := String "010"%char "".
Definition tab : string := String "009"%char "".

(** [a[k]] on a map of strings: the empty string when the key is absent. *)
Definition getString (m : gmap string string) (k : string) : string :=
  default "" (m !! k).

(** *** Small helpers at the end of the file *)

(** [replaceAll]; every removal the compiler passes is one byte long, and is
    given as that byte. *)
Definition replaceAll (old : string) (removals : list ascii) (replacement : string)
  : string :=
  foldl (fun old r => Go.replaceByte r replacement old) old removals.

Definition cleanTplName (name : string) : string :=
  replaceAll name ["."%char] "_".

Definition snakeToCamel (s : string) : string :=
  let s := snaker_SnakeToCamel s in
  if (0 <? String.length s)%nat
  then strings_ToLower (String.substring 0 1 s) +:+ Go.sliceFrom 1 s
  else s.

(** [strings.Split(s, sep)[1]] for a separator that is not empty: the text
    between the first and the second place of the separator; there is none
    when the separator does not occur. *)
Definition splitSecond (s sep : string) : option string :=
  match String.index 0 sep s with
  | None => None
  | Some i =>
    let rest := Go.sliceFrom (i + String.length sep) s in
    match String.index 0 sep rest with
    | None => Some rest
    | Some j => Some (String.substring 0 j rest)
    end
  end.

(** [LookupPackageNameFromStr]: the slices and the index panic when the text
    has no "package", no newline after it, or no "package " in that line. *)
Definition LookupPackageNameFromStr (gocode : string) : M string :=
  match String.index 0 "package" gocode with
  | None => panic "slice bounds out of range"
  | Some i =>
    let gocode := Go.sliceFrom i gocode in
    match String.index 0 nl gocode with
    | None => panic "slice bounds out of range"
    | Some j =>
      let gocode := String.substring 0 j gocode in
      match splitSecond gocode "package " with
      | None => panic "index out of range"
      | Some pkg => ret pkg
      end
    end
  end.

Definition LookupPackageName (someDir : string) : M (string * option error) :=
  let dir := filepath_Dir someDir in
  let! err := os_Stat dir in
  if os_IsNotExist err then ret ("", err)
  else
    let! '(files, err) := filepath_Glob (filepath_Dir someDir +:+ "/*.go") in
    match err with
    | Some e => ret ("", Some e)
    | None =>
      match files with
      | [] =>
        let dir := filepath_Dir someDir in
        ret (Go.Base dir, None)
      | f :: _ =>
        let! '(b, err) := ioutil_ReadFile f in
        match err with
        | Some e => ret ("", Some e)
        | None => let! pkg := LookupPackageNameFromStr b in ret (pkg, None)
        end
      end
    end.

Definition updateOutPkg (conf : Configuration) : M (Configuration * option error) :=
  if bool_decide (OutPkg conf = "") then
    let! '(pkgName, err) := LookupPackageName (OutPath conf) in
    match err with
    | Some e =>
      ret (conf, Some (Errorf ("Failed to lookup for the package name: " +:+ errorString e)))
    | None =>
      ret ({| OutPath := OutPath conf; OutPkg := pkgName; Templates := Templates conf |},
           None)
    end
  else ret (conf, None).

(** *** The template source loader *)

(** The body of the loop of [compileTextTemplate] and of
    [compileHTMLTemplate]: the template is executed once, its error dropped,
    and it is stored under its name when its tree is not [nil] afterwards. *)
Definition probeStep (E : Engine FuncMap Tree)
    (acc : TemplateSet E * gmap string (option Tree)) (tpl : TemplateRef E)
  : TemplateSet E * gmap string (option Tree) :=
  let '(st, ret) := acc in
  let st := engine_Execute E st tpl in
  match engine_Tree E st tpl with
  | Some tree => (st, <[engine_Name E tpl := Some tree]> ret)
  | None => (st, ret)
  end.

(** The loop itself, over [t.Templates()]. *)
Definition probeTemplates (E : Engine FuncMap Tree) (t : TemplateSet E)
  : gmap string (option Tree) :=
  snd (foldl (probeStep E) (t, ∅) (engine_Templates E t)).

Definition compileTextTemplate (tname content : string) (funcsMap : FuncMap)
  : gmap string (option Tree) * option error :=
  match engine_Parse text_template tname content funcsMap with
  | inl msg => (∅, Some (ErrParse msg))
  | inr t => (probeTemplates text_template t, None)
  end.

Definition compileHTMLTemplate (tname content : string) (funcsMap : FuncMap)
  : gmap string (option Tree) * option error :=
  match engine_Parse html_template tname content funcsMap with
  | inl msg => (∅, Some (ErrParse msg))
  | inr t => (probeTemplates html_template t, None)
  end.

(** The body of the loop over [fileTpl.tplsTree] that both constructors of a
    [TemplateFileToCompile] share. *)
Definition registerTree (mainName : string) (data : DataT) (funcs : FuncMap)
    (fileTpl : TemplateFileToCompile) (entry : string * option Tree)
  : TemplateFileToCompile :=
  let '(treeName, tree) := entry in
  let check := <[treeName := simplifier_TransformTree tree data funcs]>
                 (tplsTypeCheck fileTpl) in
  if bool_decide (treeName <> mainName) then
    {| name := name fileTpl; tplsTree := tplsTree fileTpl;
       tplsFunc := <[treeName := cleanTplName ("fn" +:+ mainName +:+ "_" +:+ treeName)]>
                     (tplsFunc fileTpl);
       tplsTypeCheck := check;
       definedTemplates := definedTemplates fileTpl ++ [treeName] |}
  else
    {| name := name fileTpl; tplsTree := tplsTree fileTpl;
       tplsFunc := <[treeName := cleanTplName ("fn" +:+ mainName)]> (tplsFunc fileTpl);
       tplsTypeCheck := check;
       definedTemplates := definedTemplates fileTpl |}.

Definition emptyFileTpl (tname : string) : TemplateFileToCompile :=
  {| name := tname; tplsTree := ∅; tplsFunc := ∅; tplsTypeCheck := ∅;
     definedTemplates := [] |}.

Definition makeTemplateFileToCompileFromFile (tplPath : string) (data : DataT)
    (funcs : FuncMap) (HTML : bool) : M (TemplateFileToCompile * option error) :=
  let fileTpl := emptyFileTpl (Go.Base tplPath) in
  let! '(content, err) := ioutil_ReadFile tplPath in
  match err with
  | Some e => ret (fileTpl, Some e)
  | None =>
    let mainName := name fileTpl in
    let '(treeNames, err) :=
      if HTML then compileHTMLTemplate mainName content funcs
      else compileTextTemplate mainName content funcs in
    match err with
    | Some e => ret (fileTpl, Some e)
    | None =>
      let fileTpl := {| name := name fileTpl; tplsTree := treeNames;
                        tplsFunc := tplsFunc fileTpl;
                        tplsTypeCheck := tplsTypeCheck fileTpl;
                        definedTemplates := definedTemplates fileTpl |} in
      let! entries := rangeMap (tplsTree fileTpl) in
      ret (foldl (registerTree mainName data funcs) fileTpl entries, None)
    end
  end.

Definition makeTemplateFileToCompileFromStr (tname tplContent : string) (data : DataT)
    (funcs : FuncMap) (HTML : bool) : M (TemplateFileToCompile * option error) :=
  let fileTpl := emptyFileTpl tname in
  let '(treeNames, err) :=
    if HTML then compileHTMLTemplate tname tplContent funcs
    else compileTextTemplate tname tplContent funcs in
  match err with
  | Some e => ret (fileTpl, Some e)
  | None =>
    let fileTpl := {| name := name fileTpl; tplsTree := treeNames;
                      tplsFunc := tplsFunc fileTpl;
                      tplsTypeCheck := tplsTypeCheck fileTpl;
                      definedTemplates := definedTemplates fileTpl |} in
    let mainName := name fileTpl in
    let! entries := rangeMap (tplsTree fileTpl) in
    ret (foldl (registerTree mainName data funcs) fileTpl entries, None)
  end.

(** [names]: the keys of [tplsTree], collected in the order the runtime walks
    the map and then sorted with [sort.Strings]; the sorted list is the same
    for every order ([names_any_order] below), so no order is drawn. *)
Definition names (t : TemplateFileToCompile) : list string :=
  merge_sort String.le (fst <$> map_to_list (tplsTree t)).

(** *** The resolver *)

Definition makeTemplateToCompileNew (templateConf : TemplateConfiguration)
  : TemplateToCompile :=
  {| conf := templateConf; files := [] |}.

Definition convertConfigToTemplatesToCompile (conf : Configuration)
  : list TemplateToCompile :=
  foldl (fun ret t => ret ++ [makeTemplateToCompileNew t]) [] (Templates conf).

(** The loop of [prepare] over the matched paths. *)
Fixpoint prepare_loop (t : TemplateToCompile) (tplsPath : list string)
  : M (TemplateToCompile * option error) :=
  match tplsPath with
  | [] => ret (t, None)
  | tplPath :: rest =>
    let! '(fileTpl, err) :=
      makeTemplateFileToCompileFromFile tplPath (Data (conf t)) (FuncsExport (conf t))
        (HTML (conf t)) in
    match err with
    | Some e => ret (t, Some e)
    | None => prepare_loop {| conf := conf t; files := files t ++ [fileTpl] |} rest
    end
  end.

Definition prepare (t : TemplateToCompile) : M (TemplateToCompile * option error) :=
  let! '(tplsPath, err) := filepath_Glob (TemplatesPath (conf t)) in
  match err with
  | Some e =>
    ret (t, Some (Errorf ("Failed to glob the templates: " +:+ TemplatesPath (conf t)
                          +:+ " " +:+ errorString e)))
  | None => prepare_loop t tplsPath
  end.

(** The loop of [getTemplatesToCompile]: the entries are pointers, so the
    list returned holds the entries prepared so far as [prepare] left them. *)
Fixpoint prepare_all (templatesToCompile : list TemplateToCompile)
  : M (list TemplateToCompile * option error) :=
  match templatesToCompile with
  | [] => ret ([], None)
  | t :: rest =>
    let! '(t', err) := prepare t in
    match err with
    | Some e => ret (t' :: rest, Some e)
    | None =>
      let! '(rest', err) := prepare_all rest in
      ret (t' :: rest', err)
    end
  end.

Definition getTemplatesToCompile (c : CompiledTemplatesProgram) (conf : Configuration)
  : M (list TemplateToCompile * option error) :=
  let templatesToCompile := convertConfigToTemplatesToCompile conf in
  prepare_all templatesToCompile.

(** *** The code generation driver *)

(** The body of the innermost loop of [convertTemplates], for one name. *)
Definition convertName (c : CompiledTemplatesProgram) (t : TemplateToCompile)
    (f : TemplateFileToCompile) (tname : string)
  : CompiledTemplatesProgram * TemplateFileToCompile * option error :=
  let '(x, c) := makeFuncName c (getString (tplsFunc f) tname) in
  let f := {| name := name f; tplsTree := tplsTree f;
              tplsFunc := <[tname := x]> (tplsFunc f);
              tplsTypeCheck := tplsTypeCheck f;
              definedTemplates := definedTemplates f |} in
  let f := {| name := name f; tplsTree := tplsTree f;
              tplsFunc := <[tname := snakeToCamel (getString (tplsFunc f) tname)]> (tplsFunc f);
              tplsTypeCheck := tplsTypeCheck f;
              definedTemplates := definedTemplates f |} in
  let '(requests, err) :=
    convertTplTree (getString (tplsFunc f) tname) (mjoin (tplsTree f !! tname))
      (FuncsExport (conf t)) (PublicIdents (conf t)) (DataConfiguration_ (conf t))
      (tplsTypeCheck f !! tname) c in
  let c := snd (run (callOf <$> requests) c) in
  (c, f, ErrConvert <$> err).

Fixpoint convertNames (c : CompiledTemplatesProgram) (t : TemplateToCompile)
    (f : TemplateFileToCompile) (ns : list string)
  : CompiledTemplatesProgram * TemplateFileToCompile * option error :=
  match ns with
  | [] => (c, f, None)
  | tname :: rest =>
    let '(c, f, err) := convertName c t f tname in
    match err with
    | Some e => (c, f, Some e)
    | None => convertNames c t f rest
    end
  end.

Fixpoint convertFiles (c : CompiledTemplatesProgram) (t : TemplateToCompile)
    (fs : list TemplateFileToCompile)
  : CompiledTemplatesProgram * list TemplateFileToCompile * option error :=
  match fs with
  | [] => (c, [], None)
  | f :: rest =>
    let '(c, f', err) := convertNames c t f (names f) in
    match err with
    | Some e => (c, f' :: rest, Some e)
    | None =>
      let '(c, rest', err) := convertFiles c t rest in
      (c, f' :: rest', err)
    end
  end.

(** [convertTemplates] works on the shared program and on the maps
    [tplsFunc] of the files, which the entries of [templatesToCompile] share
    with the caller: both are returned as the loop leaves them. *)
Fixpoint convertTemplates (c : CompiledTemplatesProgram)
    (templatesToCompile : list TemplateToCompile)
  : CompiledTemplatesProgram * list TemplateToCompile * option error :=
  match templatesToCompile with
  | [] => (c, [], None)
  | t :: rest =>
    let '(c, fs, err) := convertFiles c t (files t) in
    let t' := {| conf := conf t; files := fs |} in
    match err with
    | Some e => (c, t' :: rest, Some e)
    | None =>
      let '(c, rest', err) := convertTemplates c rest in
      (c, t' :: rest', err)
    end
  end.

(** *** The init emitter *)

Definition registrationLine (c : CompiledTemplatesProgram) (tname funcname : string)
  : string :=
  "  " +:+ varName c +:+ ".Add(" +:+ quote tname +:+ ", " +:+ funcname +:+ ")" +:+ nl.

(** The four lines [generateInitFunc] writes for the [e]-th defined template
    [name] of the [i]-th file [f] of a template configuration. *)
Definition attachmentLines (c : CompiledTemplatesProgram) (i : nat)
    (f : TemplateFileToCompile) (e : nat) (tname : string) : string :=
  let varX := "tpl" +:+ Go.itoa i +:+ "X" +:+ Go.itoa e in
  let varY := "tpl" +:+ Go.itoa i +:+ "Y" +:+ Go.itoa e in
  ("  " +:+ varX +:+ " := " +:+ varName c +:+ ".MustGet(" +:+ quote (name f) +:+ ")" +:+ nl)
  +:+ ("  " +:+ varY +:+ " := " +:+ varName c +:+ ".MustGet(" +:+ quote tname +:+ ")" +:+ nl)
  +:+ ("  " +:+ varX +:+ ", _ = " +:+ varX +:+ ".Compiled(" +:+ varY +:+ ")" +:+ nl)
  +:+ ("  " +:+ varName c +:+ ".Set(" +:+ quote (name f) +:+ ", " +:+ varX +:+ ")" +:+ nl).

Definition generateInitFunc (c : CompiledTemplatesProgram) (tpls : list TemplateToCompile)
  : string :=
  let initfunc := "" in
  let initfunc := initfunc +:+ "func init () {" +:+ nl in
  let initfunc :=
    foldl (fun initfunc t =>
      foldl (fun initfunc f =>
        foldl (fun initfunc tname =>
                 let funcname := getString (tplsFunc f) tname in
                 initfunc +:+ registrationLine c tname funcname)
              initfunc (names f))
        initfunc (files t))
      initfunc tpls in
  let initfunc :=
    foldl (fun initfunc t =>
      foldl (fun initfunc '(i, f) =>
        foldl (fun initfunc '(e, tname) =>
                 initfunc +:+ attachmentLines c i f e tname)
              initfunc (imap pair (definedTemplates f)))
        initfunc (imap pair (files t)))
      initfunc tpls in
  initfunc +:+ "}".

(** *** The output assembler *)

Definition generateImportStmt (c : CompiledTemplatesProgram) : string :=
  let importStmt := "" in
  let importStmt := importStmt +:+ "import (" +:+ nl in
  let importStmt :=
    foldl (fun importStmt i =>
             let importStmt := importStmt +:+ tab in
             let importStmt :=
               match ImportSpec_Name i with
               | Some n => importStmt +:+ n +:+ " "
               | None => importStmt
               end in
             importStmt +:+ ImportSpec_Path i +:+ nl)
          importStmt (imports c) in
  importStmt +:+ ")".

Definition builtinLine (entry : string * string) : string :=
  let '(text, name) := entry in
  "var " +:+ name +:+ " = []byte(" +:+ quote text +:+ ")" +:+ nl.

Definition generateBuiltins (c : CompiledTemplatesProgram) : M string :=
  let! entries := rangeMap (builtinTexts c) in
  ret (foldl (fun builtins entry => builtins +:+ builtinLine entry) "" entries).

Definition generateProgram (c : CompiledTemplatesProgram) (outpkg : string)
    (tpls : list TemplateToCompile) : M string :=
  let program := "package " +:+ outpkg +:+ nl +:+ nl in
  let program := program +:+ "//golint:ignore" +:+ nl +:+ nl in
  let program := program +:+ generateImportStmt c +:+ nl +:+ nl in
  let! builtins := generateBuiltins c in
  let program := program +:+ builtins +:+ nl +:+ nl in
  let program := program +:+ generateInitFunc c tpls +:+ nl +:+ nl in
  ret (foldl (fun program f => program +:+ astNodeToString f +:+ nl +:+ nl)
             program (funcs c)).

Definition compileTemplates (c : CompiledTemplatesProgram) (outpkg : string)
    (templatesToCompile : list TemplateToCompile)
  : M (string * option error * CompiledTemplatesProgram) :=
  let '(c, templatesToCompile, err) := convertTemplates c templatesToCompile in
  match err with
  | Some e => ret ("", Some e, c)
  | None =>
    let! program := generateProgram c outpkg templatesToCompile in
    ret (program, None, c)
  end.

Definition Compile (c : CompiledTemplatesProgram) (config : Configuration)
  : M (string * option error * CompiledTemplatesProgram * Configuration) :=
  let! '(config, err) := updateOutPkg config in
  match err with
  | Some e => ret ("", Some e, c, config)
  | None =>
    let! '(templatesToCompile, err) := getTemplatesToCompile c config in
    match err with
    | Some e => ret ("", Some e, c, config)
    | None =>
      let! '(program, err, c) := compileTemplates c (OutPkg config) templatesToCompile in
      ret (program, err, c, config)
    end
  end.

Definition CompileAndWrite (c : CompiledTemplatesProgram) (config : Configuration)
  : M (option error) :=
  let! '(program, err, c, config) := Compile c config in
  match err with
  | Some e => ret (Some e)
  | None =>
    let! err := ioutil_WriteFile (OutPath config) program in
    match err with
    | Some e =>
      ret (Some (Errorf ("Failed to write the compiled templates: " +:+ errorString e)))
    | None => ret None
    end
  end.

End Compiler.
(** ** The statements of the generated init routine

    [generateInitFunc] writes Go statements as text.  The same statements as
    data, their text, and what running them does to a registry. *)

Section InitModel.
Context `{Collaborators}.

Inductive stmt :=
  (** [reg.Add("tname", fn)] *)
  | SAdd (reg tname fn : string)
  (** [x := reg.MustGet("tname")] *)
  | SMustGet (x reg tname : string)
  (** [x, _ = x.Compiled(y)] *)
  | SCompiled (x y : string)
  (** [reg.Set("tname", x)] *)
  | SSet (reg tname x : string).

Definition renderStmt (s : stmt) : string :=
  match s with
  | SAdd reg tname fn =>
    "  " +:+ reg +:+ ".Add(" +:+ quote tname +:+ ", " +:+ fn +:+ ")" +:+ nl
  | SMustGet x reg tname =>
    "  " +:+ x +:+ " := " +:+ reg +:+ ".MustGet(" +:+ quote tname +:+ ")" +:+ nl
  | SCompiled x y =>
    "  " +:+ x +:+ ", _ = " +:+ x +:+ ".Compiled(" +:+ y +:+ ")" +:+ nl
  | SSet reg tname x =>
    "  " +:+ reg +:+ ".Set(" +:+ quote tname +:+ ", " +:+ x +:+ ")" +:+ nl
  end.

(** The texts of a list, one after the other. *)
Definition joinS (l : list string) : string := foldr String.append "" l.

Definition renderAll (l : list stmt) : string := joinS (renderStmt <$> l).

(** The registration of one template name of a file. *)
Definition registration (c : CompiledTemplatesProgram) (f : TemplateFileToCompile)
    (tname : string) : stmt :=
  SAdd (varName c) tname (getString (tplsFunc f) tname).

(** The rebinding for the [e]-th defined template [tname] of the [i]-th file
    [f]: fetch the main entry, fetch the nested entry, attach, store. *)
Definition attachment (c : CompiledTemplatesProgram) (i : nat)
    (f : TemplateFileToCompile) (e : nat) (tname : string) : list stmt :=
  let varX := "tpl" +:+ Go.itoa i +:+ "X" +:+ Go.itoa e in
  let varY := "tpl" +:+ Go.itoa i +:+ "Y" +:+ Go.itoa e in
  [SMustGet varX (varName c) (name f);
   SMustGet varY (varName c) tname;
   SCompiled varX varY;
   SSet (varName c) (name f) varX].

(** The statements of the first group of loops. *)
Definition registrations (c : CompiledTemplatesProgram) (tpls : list TemplateToCompile)
  : list stmt :=
  concat ((fun t =>
    concat ((fun f => registration c f <$> names f) <$> files t)) <$> tpls).

(** The rebindings of the second group of loops, one list of four statements
    per defined template. *)
Definition attachmentGroups (c : CompiledTemplatesProgram) (tpls : list TemplateToCompile)
  : list (list stmt) :=
  concat ((fun t =>
    concat ((fun '(i, f) =>
      (fun '(e, tname) => attachment c i f e tname) <$> imap pair (definedTemplates f))
      <$> imap pair (files t))) <$> tpls).

Definition initStmts (c : CompiledTemplatesProgram) (tpls : list TemplateToCompile)
  : list stmt :=
  registrations c tpls ++ concat (attachmentGroups c tpls).

Definition isRegistration (s : stmt) : bool :=
  match s with SAdd _ _ _ => true | _ => false end.

(** *** Running the statements

    The registry belongs to the consumer: its entries and its operations are
    taken as given.  [regNew fn] is the entry [Add] makes of the function
    [fn]; [regCompiled x y] is what [x.Compiled(y)] returns, an entry and
    whether the error is not [nil]. *)
Section Registry.
Variable Entry : Type.
Variable regNew : string -> Entry.
Variable regCompiled : Entry -> Entry -> Entry * bool.

(** The registry and the local variables of the init routine. *)
Record initState := {
  registry : gmap string Entry;
  locals : gmap string Entry;
}.

(** One statement; [None] is a panic ([MustGet] of a name that is not
    registered) or a routine the Go compiler rejects (a variable declared
    twice with [:=], or used before it is declared). *)
Definition execStmt (s : stmt) (st : initState) : option initState :=
  match s with
  | SAdd _ tname fn =>
    Some {| registry := <[tname := regNew fn]> (registry st); locals := locals st |}
  | SMustGet x _ tname =>
    match locals st !! x, registry st !! tname with
    | None, Some e => Some {| registry := registry st; locals := <[x := e]> (locals st) |}
    | _, _ => None
    end
  | SCompiled x y =>
    match locals st !! x, locals st !! y with
    | Some ex, Some ey =>
      Some {| registry := registry st;
              locals := <[x := fst (regCompiled ex ey)]> (locals st) |}
    | _, _ => None
    end
  | SSet _ tname x =>
    match locals st !! x with
    | Some ex => Some {| registry := <[tname := ex]> (registry st); locals := locals st |}
    | None => None
    end
  end.

Fixpoint execStmts (l : list stmt) (st : initState) : option initState :=
  match l with
  | [] => Some st
  | s :: l' =>
    match execStmt s st with
    | Some st' => execStmts l' st'
    | None => None
    end
  end.

End Registry.

End InitModel.

Arguments registry {Entry} _.
Arguments locals {Entry} _.
Arguments execStmt {Entry} _ _ _ _.
Arguments execStmts {Entry} _ _ _ _.
(** ** Definitions used to state the properties *)

Section Properties.
Context `{Collaborators}.

(** What holds of the shared program after any calls whose function base
    names start with "fn": [R] are the identifiers reserved from the start,
    [F] the function identifiers handed out, [A] the aliases returned. *)
Record nsInv (R F A : list string) (c : CompiledTemplatesProgram) : Prop := {
  inv_reserved : forall x, x ∈ R -> x ∈ idents c;
  inv_aliases : forall a, a ∈ A -> a ∈ idents c;
  inv_records : forall i, i ∈ imports c ->
    match ImportSpec_Name i with
    | Some n => n ∈ A
    | None => exists p, ImportSpec_Path i = quote p /\ Go.Base p ∈ A
    end;
  inv_funcs : forall x, x ∈ F -> x ∈ idents c /\ String.prefix "fn" x = true;
  inv_nodup : NoDup F;
  inv_disjoint : forall x, x ∈ F -> (x ∉ R) /\ (x ∉ A);
}.

(** What holds of the literal table after any calls, [L] being the texts
    interned so far with the names returned. *)
Record litInv (L : list (string * string)) (c : CompiledTemplatesProgram) : Prop := {
  lit_lookup : forall t n, (t, n) ∈ L -> builtinTexts c !! t = Some n;
  lit_dom : dom (builtinTexts c) = list_to_set L.*1;
  lit_names : forall t n, builtinTexts c !! t = Some n ->
    exists k, k < size (builtinTexts c) /\ n = builtinName k;
  lit_inj : forall t1 t2 n,
    builtinTexts c !! t1 = Some n -> builtinTexts c !! t2 = Some n -> t1 = t2;
  lit_fresh : forall i t n, L !! i = Some (t, n) -> t ∉ take i L.*1 ->
    n = builtinName (distinct (take i L.*1));
}.

(** The state of a template set when the loop of [probeTemplates] has
    executed the templates [done] before it. *)
Definition probedSet (E : Engine FuncMap Tree) (t : TemplateSet E)
    (done : list (TemplateRef E)) : TemplateSet E :=
  foldl (engine_Execute E) t done.

(** A template of the set is kept when its tree is not [nil] right after its
    own probe. *)
Definition keptBy (E : Engine FuncMap Tree) (t : TemplateSet E) (l : list (TemplateRef E))
    (n : string) : Prop :=
  exists l1 tpl l2,
    l = l1 ++ tpl :: l2 /\ engine_Name E tpl = n /\
    is_Some (engine_Tree E (engine_Execute E (probedSet E t l1) tpl) tpl).

(** What [probeTemplates] keeps: only trees that are not [nil], under the
    names of exactly the templates whose tree was not [nil] after their
    probe. *)
Definition keepsProbed (E : Engine FuncMap Tree) (t : TemplateSet E)
    (ret : gmap string (option Tree)) : Prop :=
  (forall n v, ret !! n = Some v -> is_Some v) /\
  (forall n, is_Some (ret !! n) <-> keptBy E t (engine_Templates E t) n).

(** The error [prepare] makes of a failed glob. *)
Definition isDiscoveryError (err : option error) : bool :=
  match err with
  | Some (Errorf msg) => String.prefix "Failed to glob the templates: " msg
  | _ => false
  end.

(** An error of the loader is the file system's or the parser's. *)
Definition isLoaderError (err : option error) : bool :=
  match err with
  | Some (ErrFS _) | Some (ErrParse _) | None => true
  | _ => false
  end.

(** The text of the registrations of one file, of one configuration entry,
    and of all of them, as the first group of loops appends it. *)
Definition regTextFile (c : CompiledTemplatesProgram) (f : TemplateFileToCompile)
  : string :=
  joinS ((fun tname => registrationLine c tname (getString (tplsFunc f) tname))
         <$> names f).

Definition regText (c : CompiledTemplatesProgram) (t : TemplateToCompile) : string :=
  joinS (regTextFile c <$> files t).

Definition attTextFile (c : CompiledTemplatesProgram)
    (p : nat * TemplateFileToCompile) : string :=
  let '(i, f) := p in
  joinS ((fun '(e, tname) => attachmentLines c i f e tname)
         <$> imap pair (definedTemplates f)).

Definition attText (c : CompiledTemplatesProgram) (t : TemplateToCompile) : string :=
  joinS (attTextFile c <$> imap pair (files t)).

(** The shape of one rebinding. *)
Definition isAttachment (reg : string) (g : list stmt) : Prop :=
  exists x y main nested,
    x <> y /\
    g = [SMustGet x reg main; SMustGet y reg nested; SCompiled x y; SSet reg main x].

(** The literals of a log in the order of their first call, each with the
    name it was given. *)
Fixpoint firstOccurrences (seen : list string) (L : list (string * string))
  : list (string * string) :=
  match L with
  | [] => []
  | (t, n) :: L' =>
    if bool_decide (t ∈ seen) then firstOccurrences seen L'
    else (t, n) :: firstOccurrences (t :: seen) L'
  end.

(** The text [generateBuiltins] returns for the order [order] of the walk. *)
Definition builtinsText (order : list (string * string)) : string :=
  joinS (builtinLine <$> order).

(** The text [generateProgram] returns, given the text of the literals. *)
Definition programText (c : CompiledTemplatesProgram) (outpkg : string)
    (tpls : list TemplateToCompile) (builtins : string) : string :=
  ((((("package " +:+ outpkg +:+ nl +:+ nl)
      +:+ "//golint:ignore" +:+ nl +:+ nl)
     +:+ generateImportStmt c +:+ nl +:+ nl)
    +:+ builtins +:+ nl +:+ nl)
   +:+ generateInitFunc c tpls +:+ nl +:+ nl)
  +:+ joinS ((fun f => astNodeToString f +:+ nl +:+ nl) <$> funcs c).

(** The order the runtime picks for the next [range]. *)
Definition nextOrder {V : Type} (w : World) (m : gmap string V) : list (string * V) :=
  shuffle (default [] (head (mapOrder w))) (map_to_list m).

(** A computation that writes no file. *)
Definition keepsFiles {A : Type} (m : M A) : Prop :=
  forall w, written (snd (m w)) = written w.

(** Every value the computation returns satisfies [P]. *)
Definition returns {A : Type} (m : M A) (P : A -> Prop) : Prop :=
  forall w, match fst (m w) with Done a => P a | Panicked _ => True end.

(** The error [CompileAndWrite] makes of a failed write. *)
Definition writeError (err : option fsError) : option error :=
  match err with
  | Some e => Some (Errorf ("Failed to write the compiled templates: " +:+ fsError_msg e))
  | None => None
  end.

(** The base names a file hands to [makeFuncName] start with "fn". *)
Definition fnPrefixedFile (f : TemplateFileToCompile) : Prop :=
  forall n, n ∈ names f -> String.prefix "fn" (getString (tplsFunc f) n) = true.

Definition fnPrefixedTemplates (tpls : list TemplateToCompile) : Prop :=
  Forall (fun t => Forall fnPrefixedFile (files t)) tpls.

(** The program [c'] is reached from [c] by calls whose base names start
    with "fn". *)
Definition reachedFrom (c c' : CompiledTemplatesProgram) : Prop :=
  exists ks, forallb fnBased ks = true /\ c' = snd (run ks c).

(** Every function name the file holds starts with "fn", and the names of
    the entries walked so far are among its keys. *)
Definition fnValues (f : TemplateFileToCompile) : Prop :=
  forall n v, tplsFunc f !! n = Some v -> String.prefix "fn" v = true.

End Properties.

(** ** Definitions used to state the properties of the rest of the file *)

Section FurtherProperties.
Context `{Collaborators}.

(** What [cleanTplName] makes of one byte of a name. *)
Definition cleanByte (a : ascii) : ascii :=
  if Ascii.eqb a "." then "_"%char else a.

(** The line [generateImportStmt] writes for one import record. *)
Definition importLine (i : ImportSpec) : string :=
  match ImportSpec_Name i with
  | Some n => tab +:+ n +:+ " " +:+ ImportSpec_Path i +:+ nl
  | None => tab +:+ ImportSpec_Path i +:+ nl
  end.

(** The quoted paths of the import records, oldest first. *)
Definition importPaths (c : CompiledTemplatesProgram) : list string :=
  ImportSpec_Path <$> imports c.

(** The names handed to [createFunc], oldest first. *)
Definition createdOf (ks : list call) : list string :=
  omap (fun k => match k with CallCreateFunc n => Some n | _ => None end) ks.

(** A call that is not a write through a pointer [createFunc] returned. *)
Definition isMethod (k : call) : bool :=
  match k with CallEditFunc _ _ => false | _ => true end.

(** The base name the loader gives the function of the template [treeName]
    of the file whose main template is [mainName]. *)
Definition funcBaseName (mainName treeName : string) : string :=
  if bool_decide (treeName <> mainName)
  then cleanTplName ("fn" +:+ mainName +:+ "_" +:+ treeName)
  else cleanTplName ("fn" +:+ mainName).

(** A file as the loader returns it without an error: every tree it holds is
    not [nil], every name that has a tree has its function base name and its
    type-checked state and no other name has, and the defined templates are
    the names other than the main one, each once. *)
Record loadedFile (data : DataT) (funcs : FuncMap) (f : TemplateFileToCompile)
  : Prop := {
  loaded_trees : forall n v, tplsTree f !! n = Some v -> is_Some v;
  loaded_funcs : forall n,
    tplsFunc f !! n = (fun _ => funcBaseName (name f) n) <$> (tplsTree f !! n);
  loaded_checks : forall n,
    tplsTypeCheck f !! n
    = (fun tree => simplifier_TransformTree tree data funcs) <$> (tplsTree f !! n);
  loaded_defined :
    definedTemplates f ≡ₚ filter (fun n => n <> name f) (names f);
}.

(** Two worlds with the same file system and the same files written: they
    differ at most in the orders left for the walks over maps. *)
Definition sameFiles (w w' : World) : Prop :=
  fs_Glob w' = fs_Glob w /\ fs_ReadFile w' = fs_ReadFile w /\
  fs_Stat w' = fs_Stat w /\ fs_WriteFile w' = fs_WriteFile w /\
  written w' = written w.

(** What [convertTemplates] leaves of a file: everything but the function
    names of the templates that have a tree. *)
Definition sameTemplates (f f' : TemplateFileToCompile) : Prop :=
  name f' = name f /\ tplsTree f' = tplsTree f /\
  tplsTypeCheck f' = tplsTypeCheck f /\
  definedTemplates f' = definedTemplates f /\
  forall n, tplsTree f !! n = None -> tplsFunc f' !! n = tplsFunc f !! n.

(** Every template of the file is registered under the normalized form of a
    function identifier reserved in [c]. *)
Definition funcsReserved (c : CompiledTemplatesProgram) (f : TemplateFileToCompile)
  : Prop :=
  forall n, n ∈ names f ->
    exists x, x ∈ idents c /\ tplsFunc f !! n = Some (snakeToCamel x).

(** An error of the stages of [Compile] that come before the conversion. *)
Definition isConversionError (e : error) : bool :=
  match e with ErrConvert _ => true | _ => false end.

(** The parser the loader runs on the content of a file. *)
Definition compileTemplate (html : bool) (tname content : string) (funcs : FuncMap)
  : gmap string (option Tree) * option error :=
  if html then compileHTMLTemplate tname content funcs
  else compileTextTemplate tname content funcs.

(** The file [f] is what the loader makes of the path [p]: the file could be
    read, the parser accepted its content, and [f] carries the base name of
    the path and the trees the parser returned, as a loaded file does. *)
Definition loadsAs (w : World) (data : DataT) (funcs : FuncMap) (html : bool)
    (p : string) (f : TemplateFileToCompile) : Prop :=
  exists content,
    fs_ReadFile w p = inr content /\
    compileTemplate html (Go.Base p) content funcs = (tplsTree f, None) /\
    name f = Go.Base p /\ loadedFile data funcs f.

(** The loader fails on the path [p] with the error [e]: the file cannot be
    read and [e] is the error of the read, or the parser rejects its content
    and [e] is the parser's error. *)
Definition failsOn (w : World) (funcs : FuncMap) (html : bool) (p : string)
    (e : error) : Prop :=
  (exists e', fs_ReadFile w p = inl e' /\ e = ErrFS e') \/
  (exists content,
     fs_ReadFile w p = inr content /\
     snd (compileTemplate html (Go.Base p) content funcs) = Some e).

(** The error [prepare] makes of a malformed pattern. *)
Definition discoveryError (pattern : string) : error :=
  Errorf ("Failed to glob the templates: " +:+ pattern +:+ " "
          +:+ errorString ErrBadPattern).

(** An entry that [prepare] has gone through without an error: its files
    are those of the paths its pattern matches, in the order of the matches. *)
Definition preparedEntry (w : World) (t : TemplateToCompile) : Prop :=
  exists paths,
    fs_Glob w (TemplatesPath (conf t)) = Some paths /\
    Forall2 (loadsAs w (Data (conf t)) (FuncsExport (conf t)) (HTML (conf t)))
            paths (files t).

(** An entry on which [prepare] has failed with the error [e]: its pattern
    is malformed and it has no file, or it has the files of the matches
    before the first path the loader fails on, and [e] is the loader's error
    on that path. *)
Definition failedEntry (w : World) (t : TemplateToCompile) (e : error) : Prop :=
  (fs_Glob w (TemplatesPath (conf t)) = None /\ files t = [] /\
   e = discoveryError (TemplatesPath (conf t))) \/
  (exists paths p,
     fs_Glob w (TemplatesPath (conf t)) = Some paths /\
     Forall2 (loadsAs w (Data (conf t)) (FuncsExport (conf t)) (HTML (conf t)))
             (take (length (files t)) paths) (files t) /\
     paths !! length (files t) = Some p /\
     failsOn w (FuncsExport (conf t)) (HTML (conf t)) p e).


End FurtherProperties.

(** ** Facts about the namespace manager *)

Section NamespaceFacts.
Context `{GoLibrary}.


Lemma strEqb_true (a b : string) : strEqb a b = true <-> a = b.
Proof. unfold strEqb. apply bool_decide_eq_true. Qed.

Lemma isCollidingIdent_true (c : CompiledTemplatesProgram) (x : string) :
  isCollidingIdent c x = true <-> x ∈ importNames c \/ x ∈ idents c.
Proof.
  unfold isCollidingIdent, importNames.
  rewrite orb_true_iff, !existsb_exists. split.
  - intros [[i [Hi Hx]] | [i [Hi Hx]]].
    + left. destruct (ImportSpec_Name i) as [n|] eqn:E; [|done].
      apply strEqb_true in Hx as <-.
      apply list_elem_of_omap. exists i. split; [by apply list_elem_of_In|done].
    + right. apply strEqb_true in Hx as <-. by apply list_elem_of_In.
  - intros [Hx | Hx].
    + left. apply list_elem_of_omap in Hx as [i [Hi Hn]].
      exists i. split; [by apply list_elem_of_In|].
      rewrite Hn. by apply strEqb_true.
    + right. exists x. split; [by apply list_elem_of_In|by apply strEqb_true].
Qed.

Lemma isCollidingIdent_false (c : CompiledTemplatesProgram) (x : string) :
  isCollidingIdent c x = false <-> (x ∉ importNames c) /\ (x ∉ idents c).
Proof.
  rewrite <- not_true_iff_false, isCollidingIdent_true. tauto.
Qed.

Lemma importNames_length (c : CompiledTemplatesProgram) :
  length (importNames c) <= length (imports c).
Proof.
  unfold importNames. induction (imports c) as [|i l IH]; [done|].
  cbn. destruct (ImportSpec_Name i); cbn; lia.
Qed.

Lemma string_app_length (a b : string) :
  String.length (a +:+ b) = String.length a + String.length b.
Proof. induction a as [|x a IH]; simpl; [done|by rewrite IH]. Qed.

Lemma string_app_inv_tail (a b s : string) : a +:+ s = b +:+ s -> a = b.
Proof.
  revert b. induction a as [|x a IH]; intros [|y b] E.
  - done.
  - apply (f_equal String.length) in E.
    rewrite !string_app_length in E. cbn in E. lia.
  - apply (f_equal String.length) in E.
    rewrite !string_app_length in E. cbn in E. lia.
  - cbn in E. injection E as -> E. f_equal. by apply IH.
Qed.

Lemma fnCandidate_inj (baseName : string) (i j : nat) :
  fnCandidate baseName i = fnCandidate baseName j -> i = j.
Proof.
  unfold fnCandidate, Go.itoa. intros E.
  apply (inj (String.append "fn")) in E.
  apply string_app_inv_tail in E.
  by apply (inj pretty) in E.
Qed.

Lemma fnCandidate_NoDup (baseName : string) (n : nat) :
  NoDup (fnCandidate baseName <$> seq 0 n).
Proof.
  apply NoDup_fmap_2_strong; [|apply NoDup_seq].
  intros i j _ _. apply fnCandidate_inj.
Qed.

(** What the loop has done when it stops: it made [j - i] iterations, every
    candidate it left behind collides, and either the candidate it holds is
    free or the fuel is used up. *)
Lemma makeFuncName_loop_inv (fuel : nat) (c : CompiledTemplatesProgram)
    (baseName x : string) (i : nat) :
  let '(r, j) := makeFuncName_loop fuel c baseName x i in
  i <= j /\ j <= i + fuel /\
  (j = i -> r = x) /\
  (i < j -> isCollidingIdent c x = true /\ r = fnCandidate baseName (pred j)) /\
  (forall k, i <= k -> S k < j -> isCollidingIdent c (fnCandidate baseName k) = true) /\
  (isCollidingIdent c r = false \/ j = i + fuel).
Proof.
  revert x i. induction fuel as [|fuel IH]; intros x i; simpl.
  - split_and!; [lia|lia|done|intros; lia|intros; lia|right; lia].
  - destruct (isCollidingIdent c x) eqn:Ex.
    + specialize (IH (fnCandidate baseName i) (S i)).
      destruct (makeFuncName_loop fuel c baseName (fnCandidate baseName i) (S i))
        as [r j].
      destruct IH as (H1 & H2 & H3 & H4 & H5 & H6).
      split_and!; [lia|lia|intros; lia| | |].
      * intros _. split; [done|].
        destruct (decide (j = S i)) as [->|Hne]; [by rewrite H3|].
        apply H4. lia.
      * intros k Hk1 Hk2.
        destruct (decide (k = i)) as [->|Hne].
        -- assert (S i < j) as Hlt by lia.
           destruct (H4 Hlt) as [Hc _]. exact Hc.
        -- apply H5; lia.
      * destruct H6 as [H6|H6]; [by left|right; lia].
    + split_and!; [lia|lia|done|intros; lia|intros; lia|by left].
Qed.

(** The fuel [makeFuncName] gives its loop is never used up: the candidate
    returned is free. *)
Lemma makeFuncName_loop_free (c : CompiledTemplatesProgram) (baseName : string) :
  isCollidingIdent c
    (fst (makeFuncName_loop (makeFuncName_fuel c) c baseName baseName 0)) = false.
Proof.
  pose proof (makeFuncName_loop_inv (makeFuncName_fuel c) c baseName baseName 0) as L.
  destruct (makeFuncName_loop (makeFuncName_fuel c) c baseName baseName 0) as [r j].
  simpl. destruct L as (_ & _ & _ & H4 & H5 & [H6|H6]); [done|].
  exfalso. unfold makeFuncName_fuel in H6. simpl in H6.
  set (n := length (imports c) + length (idents c)) in *.
  (* the base name and the candidates 0 .. n-1 all collide, and they are
     n+1 distinct strings among at most n reserved ones *)
  assert (0 < j) as Hj by lia. destruct (H4 Hj) as [Hb _].
  assert (forall y, y ∈ baseName :: (fnCandidate baseName <$> seq 0 n) ->
                    y ∈ (importNames c ++ idents c)) as Hsub.
  { intros y Hy. apply elem_of_app, isCollidingIdent_true.
    apply elem_of_cons in Hy as [->|Hy]; [done|].
    apply list_elem_of_fmap in Hy as [k [-> Hk]].
    apply elem_of_seq in Hk. apply H5; lia. }
  assert (NoDup (baseName :: (fnCandidate baseName <$> seq 0 n))) as Hnd.
  { apply NoDup_cons. split; [|apply fnCandidate_NoDup].
    intros Hin. apply list_elem_of_fmap in Hin as [k [E _]].
    apply (f_equal String.length) in E. unfold fnCandidate in E.
    rewrite !string_app_length in E. simpl in E. lia. }
  pose proof (submseteq_length _ _ (NoDup_submseteq _ _ Hnd Hsub)) as Hlen.
  simpl in Hlen. rewrite length_fmap, length_seq, length_app in Hlen.
  pose proof (importNames_length c). lia.
Qed.

Lemma makeFuncName_loop_ext (fuel : nat) (c d : CompiledTemplatesProgram)
    (baseName x : string) (i : nat) :
  imports d = imports c -> idents d = idents c ->
  makeFuncName_loop fuel d baseName x i = makeFuncName_loop fuel c baseName x i.
Proof.
  intros Hi Hd. revert x i. induction fuel as [|fuel IH]; intros x i; simpl; [done|].
  unfold isCollidingIdent at 1. rewrite Hi, Hd. fold (isCollidingIdent c x).
  destruct (isCollidingIdent c x); [apply IH|done].
Qed.

(** The name [makeFuncName] returns is free. *)
Lemma makeFuncName_free (c : CompiledTemplatesProgram) (baseName : string) :
  isCollidingIdent c (fst (makeFuncName c baseName)) = false.
Proof. apply makeFuncName_loop_free. Qed.

Lemma makeFuncName_frame (c : CompiledTemplatesProgram) (baseName : string) :
  idents (snd (makeFuncName c baseName)) = idents c ++ [fst (makeFuncName c baseName)]
  /\ imports (snd (makeFuncName c baseName)) = imports c.
Proof. done. Qed.

(** C7: [makeFuncName] returns the base name when it collides with nothing
    reserved (reserved identifiers, import aliases, earlier function names),
    and otherwise the first free candidate of fn0base, fn1base, ...; the name
    returned is free, it is appended to the reserved identifiers and nothing
    else changes, and the result depends on the base name and the reserved
    identifiers only. *)
Theorem makeFuncName_spec (c : CompiledTemplatesProgram) (baseName : string) :
  let '(x, c') := makeFuncName c baseName in
  isCollidingIdent c x = false /\
  (if isCollidingIdent c baseName
   then (exists i, x = fnCandidate baseName i /\
          forall k, k < i -> isCollidingIdent c (fnCandidate baseName k) = true)
   else (x = baseName)) /\
  idents c' = idents c ++ [x] /\
  isCollidingIdent c' x = true /\
  imports c' = imports c /\ funcs c' = funcs c /\
  builtinTexts c' = builtinTexts c /\ varName c' = varName c /\
  (forall d, imports d = imports c -> idents d = idents c ->
             fst (makeFuncName d baseName) = x).
Proof.
  unfold makeFuncName.
  pose proof (makeFuncName_loop_free c baseName) as Hfree.
  pose proof (makeFuncName_loop_inv (makeFuncName_fuel c) c baseName baseName 0) as L.
  destruct (makeFuncName_loop (makeFuncName_fuel c) c baseName baseName 0) as [r j] eqn:E.
  cbn [fst snd] in *. destruct L as (_ & _ & H3 & H4 & H5 & _).
  split_and!; try done.
  - destruct (isCollidingIdent c baseName) eqn:Eb.
    + destruct j as [|j].
      * rewrite (H3 eq_refl) in Hfree. congruence.
      * destruct (H4 ltac:(lia)) as [_ Hr]. exists j. split; [done|].
        intros k Hk. apply H5; lia.
    + destruct j as [|j]; [by apply H3|].
      pose proof (H4 ltac:(lia)) as [Hc _]. congruence.
  - apply isCollidingIdent_true. right. simpl. apply elem_of_app. right. constructor.
  - intros d Hi Hd. unfold makeFuncName_fuel. rewrite Hi, Hd.
    fold (makeFuncName_fuel c). rewrite (makeFuncName_loop_ext _ c d); [|done..].
    by rewrite E.
Qed.

(** The counter of [makeFuncName] ends at most at the number of reserved
    names: it stays far inside the range of [int]. *)
Lemma makeFuncName_counter_bound (c : CompiledTemplatesProgram) (baseName : string) :
  snd (makeFuncName_loop (makeFuncName_fuel c) c baseName baseName 0)
  <= S (length (imports c) + length (idents c)).
Proof.
  pose proof (makeFuncName_loop_inv (makeFuncName_fuel c) c baseName baseName 0) as L.
  destruct (makeFuncName_loop (makeFuncName_fuel c) c baseName baseName 0) as [r j].
  simpl. unfold makeFuncName_fuel in L. lia.
Qed.

(** More fuel changes nothing once a free candidate is reached. *)
Lemma makeFuncName_loop_more_fuel (fuel extra : nat) (c : CompiledTemplatesProgram)
    (baseName x : string) (i : nat) :
  isCollidingIdent c (fst (makeFuncName_loop fuel c baseName x i)) = false ->
  makeFuncName_loop (fuel + extra) c baseName x i = makeFuncName_loop fuel c baseName x i.
Proof.
  revert x i. induction fuel as [|fuel IH]; intros x i; simpl.
  - intros Hx. destruct extra; simpl; [done|]. by rewrite Hx.
  - destruct (isCollidingIdent c x); [apply IH|done].
Qed.

(** *** [addImport] *)


Lemma findImport_None (q b : string) (l : list ImportSpec) :
  findImport q b l = None <-> existsb (fun i => strEqb (ImportSpec_Path i) q) l = false.
Proof.
  induction l as [|i l IH]; simpl; [done|].
  destruct (strEqb (ImportSpec_Path i) q); simpl; [|done].
  destruct (ImportSpec_Name i); split; discriminate.
Qed.

Lemma findImport_app (q b a : string) (l l' : list ImportSpec) :
  findImport q b l = Some a -> findImport q b (l ++ l') = Some a.
Proof.
  induction l as [|i l IH]; simpl; [done|].
  destruct (strEqb (ImportSpec_Path i) q); [done|apply IH].
Qed.

Lemma findImport_snoc_same (q b : string) (n : option string) (l : list ImportSpec) :
  findImport q b l = None ->
  findImport q b (l ++ [{| ImportSpec_Name := n; ImportSpec_Path := q |}])
  = Some (default b n).
Proof.
  induction l as [|i l IH]; simpl.
  - intros _. unfold strEqb. rewrite bool_decide_eq_true_2 by done. by destruct n.
  - destruct (strEqb (ImportSpec_Path i) q); [by destruct (ImportSpec_Name i)|apply IH].
Qed.

Lemma isCollidingIdent_unnamed_import (c : CompiledTemplatesProgram) (q x : string) :
  isCollidingIdent
    {| varName := varName c;
       imports := imports c ++ [{| ImportSpec_Name := None; ImportSpec_Path := q |}];
       funcs := funcs c; idents := idents c; builtinTexts := builtinTexts c |} x
  = isCollidingIdent c x.
Proof.
  unfold isCollidingIdent. simpl. rewrite existsb_app. simpl.
  by rewrite !orb_false_r.
Qed.

(** What one call of [addImport] does, by cases. *)
Lemma addImport_cases (c : CompiledTemplatesProgram) (p : string) :
  let '(a, c1) := addImport c p in
  (findImport (quote p) (Go.Base p) (imports c) = Some a /\ c1 = c) \/
  (findImport (quote p) (Go.Base p) (imports c) = None /\
   a = (if isCollidingIdent c (Go.Base p) then "alias" +:+ Go.Base p else Go.Base p) /\
   imports c1 = imports c ++
     [{| ImportSpec_Name := if isCollidingIdent c (Go.Base p) then Some a else None;
         ImportSpec_Path := quote p |}] /\
   idents c1 = idents c ++ [a] /\
   funcs c1 = funcs c /\ builtinTexts c1 = builtinTexts c /\ varName c1 = varName c).
Proof.
  unfold addImport.
  destruct (findImport (quote p) (Go.Base p) (imports c)) as [a|] eqn:E; [by left|].
  rewrite isCollidingIdent_unnamed_import.
  destruct (isCollidingIdent c (Go.Base p)); right; by split_and!.
Qed.

Lemma exec_imports (k : call) (c : CompiledTemplatesProgram) :
  exists l, imports (snd (exec k c)) = imports c ++ l.
Proof.
  destruct k as [p|b|n|t|i g]; simpl.
  - pose proof (addImport_cases c p) as L. destruct (addImport c p) as [a c1]. simpl.
    destruct L as [[_ ->]|(_ & _ & -> & _)]; [exists []; by rewrite app_nil_r|eauto].
  - exists []. by rewrite app_nil_r.
  - exists []. by rewrite app_nil_r.
  - unfold addBuiltintText. destruct (builtinTexts c !! t); exists []; by rewrite app_nil_r.
  - exists []. by rewrite app_nil_r.
Qed.

Lemma run_imports (ks : list call) (c : CompiledTemplatesProgram) :
  exists l, imports (snd (run ks c)) = imports c ++ l.
Proof.
  revert c. induction ks as [|k ks IH]; intros c; simpl.
  - exists []. by rewrite app_nil_r.
  - destruct (exec_imports k c) as [l1 E1].
    destruct (exec k c) as [r c1]. simpl in E1.
    destruct (IH c1) as [l2 E2].
    destruct (run ks c1) as [log c2]. simpl in *.
    exists (l1 ++ l2). by rewrite E2, E1, app_assoc.
Qed.

(** C6, as the code has it: [addImport] is idempotent, also across any calls
    made in between: a later call with the same path returns the alias of the
    first call and changes nothing.  A path that is new gets one new import
    record and one new reserved identifier; its alias is the last segment of
    the path when that collides with nothing, and otherwise the segment
    prefixed with "alias", which is taken as it is, without a second check. *)
Theorem addImport_spec (c : CompiledTemplatesProgram) (pkgpath : string)
    (between : list call) :
  let '(a, c1) := addImport c pkgpath in
  let c2 := snd (run between c1) in
  addImport c2 pkgpath = (a, c2) /\
  (if importedPath c pkgpath then c1 = c
   else
     a = (if isCollidingIdent c (Go.Base pkgpath)
          then "alias" +:+ Go.Base pkgpath else Go.Base pkgpath) /\
     imports c1 = imports c ++
       [{| ImportSpec_Name :=
             if isCollidingIdent c (Go.Base pkgpath) then Some a else None;
           ImportSpec_Path := quote pkgpath |}] /\
     idents c1 = idents c ++ [a] /\
     (isCollidingIdent c (Go.Base pkgpath) = false -> isCollidingIdent c a = false)).
Proof.
  pose proof (addImport_cases c pkgpath) as L.
  destruct (addImport c pkgpath) as [a c1]. intros c2.
  assert (findImport (quote pkgpath) (Go.Base pkgpath) (imports c1) = Some a) as Hfound.
  { destruct L as [[E ->]|(E & Ha & Hi & _)]; [done|].
    rewrite Hi, findImport_snoc_same by done.
    destruct (isCollidingIdent c (Go.Base pkgpath)); simpl; congruence. }
  split.
  - destruct (run_imports between c1) as [l El]. fold c2 in El.
    unfold addImport. rewrite El, (findImport_app _ _ a) by done. done.
  - unfold importedPath.
    destruct L as [[E ->]|(E & Ha & Hi & Hd & _)].
    + destruct (existsb _ (imports c)) eqn:Ex; [done|].
      apply (findImport_None _ (Go.Base pkgpath)) in Ex. congruence.
    + apply findImport_None in E. rewrite E. split_and!; try done.
      intros Hc. rewrite Ha, Hc. done.
Qed.

(** *** Sequences of calls *)

Lemma run_app (ks1 ks2 : list call) (c : CompiledTemplatesProgram) :
  run (ks1 ++ ks2) c =
  (fst (run ks1 c) ++ fst (run ks2 (snd (run ks1 c))),
   snd (run ks2 (snd (run ks1 c)))).
Proof.
  revert c. induction ks1 as [|k ks1 IH]; intros c; simpl.
  - by destruct (run ks2 c).
  - destruct (exec k c) as [r c1]. rewrite IH.
    destruct (run ks1 c1) as [l1 c2]. simpl. by destruct (run ks2 c2).
Qed.

Lemma session_run (varName : string) (ks : list call) :
  snd (session varName ks) = snd (run ks (NewCompiledTemplatesProgram varName)).
Proof.
  unfold session. rewrite run_app. simpl.
  unfold NewCompiledTemplatesProgram.
  destruct (addImport (bareProgram varName) "io") as [a1 c1]. simpl.
  by destruct (addImport c1 parsePkgPath) as [a2 c2].
Qed.

Lemma findImport_Some (q b a : string) (l : list ImportSpec) :
  findImport q b l = Some a ->
  exists i, i ∈ l /\ ImportSpec_Path i = q /\ a = default b (ImportSpec_Name i).
Proof.
  induction l as [|i l IH]; simpl; [done|].
  destruct (strEqb (ImportSpec_Path i) q) eqn:E.
  - apply strEqb_true in E. intros Ha. exists i. split_and!; [constructor|done|].
    destruct (ImportSpec_Name i); simpl; congruence.
  - intros Ha. destruct (IH Ha) as (j & Hj & Hp & Hd).
    exists j. split_and!; [by constructor|done..].
Qed.

Lemma prefix_app (a b : string) : String.prefix a (a +:+ b) = true.
Proof.
  induction a as [|x a IH].
  - by destruct b.
  - change (String x a +:+ b) with (String x (a +:+ b)). simpl.
    by destruct (ascii_dec x x).
Qed.

Lemma fnCandidate_prefix (baseName : string) (i : nat) :
  String.prefix "fn" (fnCandidate baseName i) = true.
Proof. apply prefix_app. Qed.

Lemma makeFuncName_fn_prefixed (c : CompiledTemplatesProgram) (baseName : string) :
  String.prefix "fn" baseName = true ->
  String.prefix "fn" (fst (makeFuncName c baseName)) = true.
Proof.
  intros Hb. unfold makeFuncName. cbn [fst].
  pose proof (makeFuncName_loop_inv (makeFuncName_fuel c) c baseName baseName 0) as L.
  destruct (makeFuncName_loop (makeFuncName_fuel c) c baseName baseName 0) as [r j].
  cbn [fst]. destruct L as (_ & _ & H3 & H4 & _).
  destruct j as [|j]; [by rewrite H3|].
  destruct (H4 ltac:(lia)) as [_ ->]. apply fnCandidate_prefix.
Qed.

Lemma alias_not_fn_prefixed (b : string) : String.prefix "fn" ("alias" +:+ b) = false.
Proof. reflexivity. Qed.

Lemma funcNamesOf_cons (kr : call * reply) (log : list (call * reply)) :
  funcNamesOf (kr :: log) = funcNamesOf [kr] ++ funcNamesOf log.
Proof. unfold funcNamesOf. by rewrite (omap_app _ [kr] log). Qed.

Lemma aliasesOf_cons (kr : call * reply) (log : list (call * reply)) :
  aliasesOf (kr :: log) = aliasesOf [kr] ++ aliasesOf log.
Proof. unfold aliasesOf. by rewrite (omap_app _ [kr] log). Qed.

Section Uniqueness.

(** [strconv.Quote] maps different strings to different literals. *)
Hypothesis quote_inj : forall a b : string, quote a = quote b -> a = b.

Lemma nsInv_bare (varName : string) :
  nsInv (reservedIdents varName) [] [] (bareProgram varName).
Proof.
  split; simpl; try done; try (by intros ? ?%elem_of_nil).
  constructor.
Qed.

Lemma nsInv_exec (R F A : list string) (c : CompiledTemplatesProgram) (k : call) :
  nsInv R F A c -> fnBased k = true ->
  nsInv R (F ++ funcNamesOf [(k, fst (exec k c))])
          (A ++ aliasesOf [(k, fst (exec k c))]) (snd (exec k c)).
Proof.
  intros [I1 I2 I3 I4 I5 I6] Hk.
  destruct k as [p|b|n|t|i g]; cbn [exec].
  - (* addImport *)
    pose proof (addImport_cases c p) as L.
    destruct (addImport c p) as [a c1]. cbn. rewrite app_nil_r.
    destruct L as [[E ->]|(E & Ha & Hi & Hd & _)].
    + (* the path is known: the alias was returned before *)
      assert (a ∈ A) as HaA.
      { apply findImport_Some in E as (i & Hi & Hp & ->).
        specialize (I3 i Hi). destruct (ImportSpec_Name i) as [n|]; [done|].
        destruct I3 as (p' & Hp' & Hb). simpl.
        rewrite Hp' in Hp. by apply quote_inj in Hp as ->. }
      split; try done.
      * intros x [Hx|Hx]%elem_of_app; [by apply I2|].
        apply list_elem_of_singleton in Hx as ->. by apply I2.
      * intros i Hi. specialize (I3 i Hi).
        destruct (ImportSpec_Name i) as [n|]; [apply elem_of_app; by left|].
        destruct I3 as (p' & ? & ?). exists p'. split; [done|].
        apply elem_of_app; by left.
      * intros x Hx. destruct (I6 x Hx) as [? Hn]. split; [done|].
        intros [?|Hx']%elem_of_app; [done|].
        apply list_elem_of_singleton in Hx' as ->. done.
    + (* a new path *)
      assert (forall x, x ∈ F -> x <> a) as Hfresh.
      { intros x Hx ->. destruct (I4 a Hx) as [Hin Hpre].
        destruct (isCollidingIdent c (Go.Base p)) eqn:Ec.
        - rewrite Ha, alias_not_fn_prefixed in Hpre. done.
        - apply isCollidingIdent_false in Ec as [_ Hni]. by rewrite Ha in Hin. }
      split.
      * intros x Hx. rewrite Hd. apply elem_of_app. left. by apply I1.
      * intros x [Hx|Hx]%elem_of_app; rewrite Hd; apply elem_of_app.
        -- left. by apply I2.
        -- by right.
      * intros i. rewrite Hi. intros [Hin|Hin]%elem_of_app.
        -- specialize (I3 i Hin).
           destruct (ImportSpec_Name i) as [n|]; [apply elem_of_app; by left|].
           destruct I3 as (p' & ? & ?). exists p'. split; [done|].
           apply elem_of_app; by left.
        -- apply list_elem_of_singleton in Hin as ->. simpl.
           destruct (isCollidingIdent c (Go.Base p)).
           ++ apply elem_of_app. right. constructor.
           ++ exists p. split; [done|]. rewrite <- Ha. apply elem_of_app. right. constructor.
      * intros x Hx. destruct (I4 x Hx) as [? ?]. split; [|done].
        rewrite Hd. apply elem_of_app. by left.
      * done.
      * intros x Hx. destruct (I6 x Hx) as [? Hn]. split; [done|].
        intros [?|Hx']%elem_of_app; [done|].
        apply list_elem_of_singleton in Hx'. by apply (Hfresh x).
  - (* makeFuncName *)
    pose proof (makeFuncName_free c b) as Hfree.
    pose proof (makeFuncName_fn_prefixed c b Hk) as Hpre.
    pose proof (makeFuncName_frame c b) as (Hd & Hi).
    destruct (makeFuncName c b) as [x c1]. cbn [fst snd] in *. cbn.
    rewrite app_nil_r.
    apply isCollidingIdent_false in Hfree as [_ Hni].
    split.
    * intros y Hy. rewrite Hd. apply elem_of_app. left. by apply I1.
    * intros y Hy. rewrite Hd. apply elem_of_app. left. by apply I2.
    * intros i. rewrite Hi. apply I3.
    * intros y [Hy|Hy]%elem_of_app.
      -- destruct (I4 y Hy). split; [|done]. rewrite Hd. apply elem_of_app. by left.
      -- apply list_elem_of_singleton in Hy as ->. split; [|done].
         rewrite Hd. apply elem_of_app. right. constructor.
    * apply NoDup_app. split_and!; [done| |apply NoDup_singleton].
      intros y Hy Hy'. apply list_elem_of_singleton in Hy' as ->.
      by destruct (I4 x Hy).
    * intros y [Hy|Hy]%elem_of_app; [by apply I6|].
      apply list_elem_of_singleton in Hy as ->. split.
      -- intros Hin. by apply Hni, I1.
      -- intros Hin. by apply Hni, I2.
  - (* createFunc *)
    cbn. rewrite !app_nil_r. by split.
  - (* addBuiltintText *)
    unfold addBuiltintText. destruct (builtinTexts c !! t); cbn; rewrite !app_nil_r; by split.
  - (* a write to a function declaration *)
    cbn. rewrite !app_nil_r. by split.
Qed.

Lemma nsInv_run (ks : list call) (R F A : list string) (c : CompiledTemplatesProgram) :
  nsInv R F A c -> forallb fnBased ks = true ->
  nsInv R (F ++ funcNamesOf (fst (run ks c)))
          (A ++ aliasesOf (fst (run ks c))) (snd (run ks c)).
Proof.
  revert F A c. induction ks as [|k ks IH]; intros F A c Hinv Hks; cbn [run].
  - cbn. by rewrite !app_nil_r.
  - cbn [forallb] in Hks. apply andb_true_iff in Hks as [Hk Hks].
    pose proof (nsInv_exec R F A c k Hinv Hk) as Hstep.
    destruct (exec k c) as [r c1]. cbn [fst snd] in Hstep.
    specialize (IH _ _ c1 Hstep Hks).
    destruct (run ks c1) as [log c2]. cbn [fst snd] in *.
    by rewrite funcNamesOf_cons, aliasesOf_cons, !app_assoc.
Qed.

(** C1, as the code has it: at every point of a compile request, the function
    identifiers [makeFuncName] has handed out are pairwise distinct, none of
    them is one of the identifiers reserved from the start ("t", "w", "data",
    "indata", the registry variable name), none is an alias returned for an
    import, and each is reserved.  (Aliases of imports may repeat, and what
    [snakeToCamel] makes of the identifiers afterwards is not covered.) *)
Theorem funcNames_unique (varName : string) (ks : list call) :
  forallb fnBased ks = true ->
  let '(log, c) := session varName ks in
  NoDup (funcNamesOf log) /\
  (forall x, x ∈ funcNamesOf log ->
     (x ∉ reservedIdents varName) /\ (x ∉ aliasesOf log) /\
     isCollidingIdent c x = true).
Proof.
  intros Hks.
  pose proof (nsInv_run (initialCalls ++ ks) (reservedIdents varName) [] []
                (bareProgram varName) (nsInv_bare varName)) as L.
  rewrite forallb_app in L. specialize (L Hks).
  unfold session. destruct (run (initialCalls ++ ks) (bareProgram varName)) as [log c].
  simpl in L. destruct L as [_ _ _ I4 I5 I6].
  split; [done|]. intros x Hx. destruct (I6 x Hx) as [? ?].
  split_and!; [done..|].
  apply isCollidingIdent_true. right. by apply I4.
Qed.

End Uniqueness.

(** *** The literal table *)

Lemma literalsOf_app (l1 l2 : list (call * reply)) :
  literalsOf (l1 ++ l2) = literalsOf l1 ++ literalsOf l2.
Proof. unfold literalsOf. apply omap_app. Qed.


Lemma builtinName_inj (j k : nat) : builtinName j = builtinName k -> j = k.
Proof.
  unfold builtinName, Go.itoa. intros E.
  apply (inj (String.append "builtin")) in E. by apply (inj pretty) in E.
Qed.


Lemma list_to_set_snoc (l : list string) (t : string) :
  list_to_set (l ++ [t]) =@{gset string} {[t]} ∪ list_to_set l.
Proof.
  rewrite list_to_set_app_L. apply set_eq. intros y.
  rewrite !elem_of_union, !elem_of_list_to_set, list_elem_of_singleton, elem_of_singleton.
  tauto.
Qed.

Lemma fst_snoc (L : list (string * string)) (t n : string) :
  (L ++ [(t, n)]).*1 = L.*1 ++ [t].
Proof. by rewrite fmap_app. Qed.

Lemma litInv_bare (varName : string) : litInv [] (bareProgram varName).
Proof.
  split; simpl.
  - by intros t n ?%elem_of_nil.
  - by rewrite dom_empty_L.
  - intros t n. by rewrite lookup_empty.
  - intros t1 t2 n. by rewrite lookup_empty.
  - done.
Qed.

Lemma exec_builtinTexts (k : call) (c : CompiledTemplatesProgram) :
  (forall t, k <> CallAddBuiltintText t) ->
  builtinTexts (snd (exec k c)) = builtinTexts c /\ literalsOf [(k, fst (exec k c))] = [].
Proof.
  intros Hk. destruct k as [p|b|n|t|i g]; cbn [exec].
  - pose proof (addImport_cases c p) as L. destruct (addImport c p) as [a c1].
    cbn [fst snd].
    destruct L as [[_ ->]|(_ & _ & _ & _ & _ & -> & _)]; done.
  - done.
  - done.
  - by destruct (Hk t).
  - done.
Qed.

Lemma litInv_intern (L : list (string * string)) (c : CompiledTemplatesProgram)
    (t : string) :
  litInv L c ->
  litInv (L ++ [(t, fst (addBuiltintText c t))]) (snd (addBuiltintText c t)).
Proof.
  intros [I1 I2 I3 I4 I5]. unfold addBuiltintText.
  destruct (builtinTexts c !! t) as [x|] eqn:E; cbn [fst snd].
  - (* the text is known *)
    assert (t ∈ L.*1) as Hin.
    { apply (elem_of_list_to_set (C := gset string)). rewrite <- I2.
      apply elem_of_dom. eauto. }
    split.
    + intros t' n' [Hx|Hx]%elem_of_app; [by apply I1|].
      apply list_elem_of_singleton in Hx. by injection Hx as -> ->.
    + rewrite fst_snoc, list_to_set_snoc, <- I2.
      symmetry. apply subseteq_union_1_L, singleton_subseteq_l, elem_of_dom. eauto.
    + done.
    + done.
    + intros i t' n' Hi Hni.
      destruct (decide (i < length L)) as [Hlt|Hge].
      * rewrite lookup_app_l in Hi by done.
        rewrite fst_snoc, take_app_le in Hni |- * by (rewrite length_fmap; lia).
        by apply (I5 i t').
      * rewrite lookup_app_r in Hi by lia.
        apply list_lookup_singleton_Some in Hi as [Hi Heq]. injection Heq as <- <-.
        exfalso. apply Hni.
        assert (i = length L) as -> by lia.
        rewrite fst_snoc, take_app_length' by (by rewrite length_fmap). done.
  - (* a text not seen before *)
    assert (t ∉ L.*1) as Hnew.
    { intros Hin. apply (elem_of_list_to_set (C := gset string)) in Hin.
      rewrite <- I2 in Hin. apply elem_of_dom in Hin as [? ?]. congruence. }
    assert (size (builtinTexts c) = distinct L.*1) as Hsize.
    { unfold distinct. rewrite <- I2. by rewrite size_dom. }
    split; cbn [builtinTexts].
    + intros t' n' [Hx|Hx]%elem_of_app.
      * rewrite lookup_insert_ne; [by apply I1|].
        intros <-. rewrite (I1 _ _ Hx) in E. done.
      * apply list_elem_of_singleton in Hx. injection Hx as -> ->.
        by rewrite lookup_insert_eq.
    + by rewrite dom_insert_L, fst_snoc, list_to_set_snoc, I2.
    + intros t' n'. rewrite map_size_insert_None by done.
      destruct (decide (t = t')) as [<-|Hne].
      * rewrite lookup_insert_eq. intros [= <-]. exists (size (builtinTexts c)).
        split; [lia|done].
      * rewrite lookup_insert_ne by done. intros Hl.
        destruct (I3 _ _ Hl) as (k & Hk & ->). exists k. split; [lia|done].
    + intros t1 t2 n'.
      destruct (decide (t = t1)) as [<-|Hne1]; destruct (decide (t = t2)) as [<-|Hne2];
        rewrite ?lookup_insert_eq, ?lookup_insert_ne by done; try done.
      * intros [= <-] Hl. destruct (I3 _ _ Hl) as (k & Hk & Hn).
        apply builtinName_inj in Hn. lia.
      * intros Hl [= <-]. destruct (I3 _ _ Hl) as (k & Hk & Hn).
        apply builtinName_inj in Hn. lia.
      * apply I4.
    + intros i t' n' Hi Hni.
      destruct (decide (i < length L)) as [Hlt|Hge].
      * rewrite lookup_app_l in Hi by done.
        rewrite fst_snoc, take_app_le in Hni |- * by (rewrite length_fmap; lia).
        by apply (I5 i t').
      * rewrite lookup_app_r in Hi by lia.
        apply list_lookup_singleton_Some in Hi as [Hi Heq]. injection Heq as <- <-.
        assert (i = length L) as -> by lia.
        rewrite fst_snoc, take_app_length' by (by rewrite length_fmap).
        by rewrite <- Hsize.
Qed.

Lemma litInv_exec (L : list (string * string)) (c : CompiledTemplatesProgram) (k : call) :
  litInv L c ->
  litInv (L ++ literalsOf [(k, fst (exec k c))]) (snd (exec k c)).
Proof.
  intros Hinv.
  assert ((exists t, k = CallAddBuiltintText t) \/ forall t, k <> CallAddBuiltintText t)
    as [[t ->]|Hk] by (destruct k; eauto).
  - cbn [exec]. pose proof (litInv_intern L c t Hinv) as Hstep.
    by destruct (addBuiltintText c t) as [x c1].
  - destruct (exec_builtinTexts k c) as [Hb ->]; [done|].
    rewrite app_nil_r. destruct Hinv as [I1 I2 I3 I4 I5].
    split; rewrite ?Hb; done.
Qed.

Lemma litInv_run (ks : list call) (L : list (string * string))
    (c : CompiledTemplatesProgram) :
  litInv L c -> litInv (L ++ literalsOf (fst (run ks c))) (snd (run ks c)).
Proof.
  revert L c. induction ks as [|k ks IH]; intros L c Hinv; cbn [run].
  - cbn. by rewrite app_nil_r.
  - pose proof (litInv_exec L c k Hinv) as Hstep.
    destruct (exec k c) as [r c1]. cbn [fst snd] in Hstep.
    specialize (IH _ c1 Hstep).
    destruct (run ks c1) as [log c2]. cbn [fst snd] in *.
    change ((k, r) :: log) with ([(k, r)] ++ log).
    by rewrite literalsOf_app, app_assoc.
Qed.

(** C3: in one compile request, a text handed to [addBuiltintText] for the
    first time gets the next sequential name, "builtin" followed by the number
    of distinct texts interned before it; two calls get the same name exactly
    when their texts are the same bytes; the table maps every interned text to
    its name, holds one entry per distinct text, and a further call with an
    interned text returns its name and leaves the program as it is. *)
Theorem addBuiltintText_spec (varName : string) (ks : list call) :
  let '(log, c) := session varName ks in
  let L := literalsOf log in
  (forall i t n, L !! i = Some (t, n) -> (t ∉ take i L.*1) ->
     n = builtinName (distinct (take i L.*1))) /\
  (forall i j ti ni tj nj, L !! i = Some (ti, ni) -> L !! j = Some (tj, nj) ->
     (ti = tj <-> ni = nj)) /\
  (forall t n, (t, n) ∈ L ->
     builtinTexts c !! t = Some n /\ addBuiltintText c t = (n, c)) /\
  size (builtinTexts c) = distinct L.*1.
Proof.
  pose proof (litInv_run (initialCalls ++ ks) [] (bareProgram varName)
                (litInv_bare varName)) as Hinv.
  unfold session. destruct (run (initialCalls ++ ks) (bareProgram varName)) as [log c].
  cbn [fst snd] in Hinv. rewrite app_nil_l in Hinv.
  destruct Hinv as [I1 I2 I3 I4 I5]. split_and!.
  - exact I5.
  - intros i j ti ni tj nj Hi Hj.
    apply list_elem_of_lookup_2, I1 in Hi. apply list_elem_of_lookup_2, I1 in Hj.
    split.
    + intros ->. congruence.
    + intros ->. by apply (I4 ti tj nj).
  - intros t n Hin. pose proof (I1 t n Hin) as Hl. split; [done|].
    unfold addBuiltintText. by rewrite Hl.
  - unfold distinct. rewrite <- I2. by rewrite size_dom.
Qed.

End NamespaceFacts.

(** ** Facts about the loader and the resolver *)

Section LoaderFacts.
Context `{Collaborators}.

Lemma probe_fold_spec (E : Engine FuncMap Tree) (l : list (TemplateRef E))
    (st : TemplateSet E) (ret0 : gmap string (option Tree)) :
  let ret := snd (foldl (probeStep E) (st, ret0) l) in
  (forall n v, ret !! n = Some v -> ret0 !! n = Some v \/ is_Some v) /\
  (forall n, is_Some (ret !! n) <-> is_Some (ret0 !! n) \/ keptBy E st l n).
Proof.
  revert st ret0. induction l as [|tpl l IH]; intros st ret0; simpl.
  - split; [by left|]. intros n. split; [by left|].
    intros [?|(l1 & x & l2 & E0 & _)]; [done|]. by destruct l1.
  - set (st1 := engine_Execute E st tpl).
    assert (forall n, keptBy E st (tpl :: l) n <->
              (engine_Name E tpl = n /\ is_Some (engine_Tree E st1 tpl))
              \/ keptBy E st1 l n) as Hkept.
    { intros n. split.
      - intros (l1 & x & l2 & E0 & Hn & Ht). destruct l1 as [|y l1]; simpl in E0.
        + injection E0 as <- <-. by left.
        + injection E0 as <- ->. right. by exists l1, x, l2.
      - intros [[Hn Ht]|(l1 & x & l2 & -> & Hn & Ht)].
        + by exists [], tpl, l.
        + by exists (tpl :: l1), x, l2. }
    destruct (engine_Tree E st1 tpl) as [tree|] eqn:Et.
    + destruct (IH st1 (<[engine_Name E tpl := Some tree]> ret0)) as [IH1 IH2].
      split.
      * intros n v Hv. destruct (IH1 n v Hv) as [Hl|?]; [|by right].
        destruct (decide (engine_Name E tpl = n)) as [<-|Hne].
        -- rewrite lookup_insert_eq in Hl. injection Hl as <-. right. eauto.
        -- rewrite lookup_insert_ne in Hl by done. by left.
      * intros n. rewrite IH2, Hkept.
        destruct (decide (engine_Name E tpl = n)) as [<-|Hne].
        -- rewrite lookup_insert_eq. split; [|intros _; left; eauto].
           intros _. right. left. split; [done|eauto].
        -- rewrite lookup_insert_ne by done. split.
           ++ intros [?|?]; [by left|by right; right].
           ++ intros [?|[[? _]|?]]; [by left|done|by right].
    + destruct (IH st1 ret0) as [IH1 IH2]. split; [done|].
      intros n. rewrite IH2, Hkept. split.
      * intros [?|?]; [by left|by right; right].
      * intros [?|[[_ [? ?]]|?]]; [by left|done|by right].
Qed.

Lemma probeTemplates_keeps (E : Engine FuncMap Tree) (t : TemplateSet E) :
  keepsProbed E t (probeTemplates E t).
Proof.
  unfold probeTemplates.
  destruct (probe_fold_spec E (engine_Templates E t) t ∅) as [H1 H2]. split.
  - intros n v Hv. destruct (H1 n v Hv) as [Hl|?]; [|done].
    by rewrite lookup_empty in Hl.
  - intros n. rewrite H2, lookup_empty. split; [|by right].
    intros [[? ?]|?]; done.
Qed.

(** C9, as the code has it: when the parser accepts the content,
    [compileTextTemplate] and [compileHTMLTemplate] return no error; a name
    whose tree is [nil] after the probe is left out of the map, a name whose
    tree is not [nil] is kept, and every tree in the map is not [nil].  The
    test is [tpl.Tree != nil]: a tree that is set is kept also when it holds
    no node.  They return an error exactly when the parser rejects the
    content, and then the parser's. *)
Theorem compileTemplate_keeps_non_nil (tname content : string) (funcsMap : FuncMap) :
  match engine_Parse text_template tname content funcsMap with
  | inl msg => compileTextTemplate tname content funcsMap = (∅, Some (ErrParse msg))
  | inr t =>
    snd (compileTextTemplate tname content funcsMap) = None /\
    keepsProbed text_template t (fst (compileTextTemplate tname content funcsMap))
  end /\
  match engine_Parse html_template tname content funcsMap with
  | inl msg => compileHTMLTemplate tname content funcsMap = (∅, Some (ErrParse msg))
  | inr t =>
    snd (compileHTMLTemplate tname content funcsMap) = None /\
    keepsProbed html_template t (fst (compileHTMLTemplate tname content funcsMap))
  end.
Proof.
  unfold compileTextTemplate, compileHTMLTemplate. split.
  - destruct (engine_Parse text_template tname content funcsMap) as [msg|t]; [done|].
    split; [done|apply probeTemplates_keeps].
  - destruct (engine_Parse html_template tname content funcsMap) as [msg|t]; [done|].
    split; [done|apply probeTemplates_keeps].
Qed.

(** *** The resolver *)

Lemma compileTemplate_error (html : bool) (tname content : string) (funcs : FuncMap) :
  isLoaderError (snd (if html then compileHTMLTemplate tname content funcs
                      else compileTextTemplate tname content funcs)) = true.
Proof.
  destruct html; unfold compileHTMLTemplate, compileTextTemplate;
    by destruct (engine_Parse _ _ _ _).
Qed.

Lemma makeTemplateFileToCompileFromFile_returns (tplPath : string) (data : DataT)
    (funcs : FuncMap) (html : bool) (w : World) :
  exists fileTpl err w',
    makeTemplateFileToCompileFromFile tplPath data funcs html w = (Done (fileTpl, err), w')
    /\ isLoaderError err = true /\ written w' = written w.
Proof.
  unfold makeTemplateFileToCompileFromFile, bind, ioutil_ReadFile, ret.
  destruct (fs_ReadFile w tplPath) as [e|content]; cbn.
  { eexists _, _, _. by split_and!. }
  pose proof (compileTemplate_error html (Go.Base tplPath) content funcs) as Herr.
  destruct (if html then _ else _) as [treeNames [e|]]; cbn in *.
  { eexists _, _, _. by split_and!. }
  eexists _, _, _. by split_and!.
Qed.

Lemma prepare_loop_returns (tplsPath : list string) (t : TemplateToCompile) (w : World) :
  exists t' err w',
    prepare_loop t tplsPath w = (Done (t', err), w')
    /\ isLoaderError err = true /\ written w' = written w
    /\ conf t' = conf t.
Proof.
  revert t w. induction tplsPath as [|tplPath rest IH]; intros t w; simpl.
  - unfold ret. by eauto 10.
  - unfold bind.
    destruct (makeTemplateFileToCompileFromFile_returns tplPath (Data (conf t))
                (FuncsExport (conf t)) (HTML (conf t)) w)
      as (fileTpl & err & w1 & -> & Herr & Hw).
    destruct err as [e|].
    + unfold ret. by eauto 10.
    + destruct (IH {| conf := conf t; files := files t ++ [fileTpl] |} w1)
        as (t' & err & w' & -> & ? & ? & ?).
      exists t', err, w'. split_and!; [done..|congruence|done].
Qed.

Lemma isLoaderError_not_discovery (err : option error) :
  isLoaderError err = true -> isDiscoveryError err = false.
Proof. by destruct err as [[]|]. Qed.

(** C8: [prepare] fails with the discovery error exactly when [filepath.Glob]
    reports a malformed pattern; a pattern that matches no file gives no
    error and leaves the list of files as it was, which is empty for a
    configuration entry just made.  [prepare] always returns. *)
Theorem prepare_discovery (t : TemplateToCompile) (w : World) :
  exists t' err w',
    prepare t w = (Done (t', err), w') /\
    (isDiscoveryError err = true <-> fs_Glob w (TemplatesPath (conf t)) = None) /\
    (fs_Glob w (TemplatesPath (conf t)) = None ->
       err = Some (Errorf ("Failed to glob the templates: "
                           +:+ TemplatesPath (conf t) +:+ " "
                           +:+ errorString ErrBadPattern)) /\ t' = t) /\
    (fs_Glob w (TemplatesPath (conf t)) = Some [] ->
       err = None /\ files t' = files t /\ w' = w) /\
    files (makeTemplateToCompileNew (conf t)) = [].
Proof.
  unfold prepare, bind, filepath_Glob.
  destruct (fs_Glob w (TemplatesPath (conf t))) as [matches|] eqn:Eg.
  - destruct (prepare_loop_returns matches t w) as (t' & err & w' & Hp & Herr & _).
    exists t', err, w'. split_and!; [done| |done| |done].
    + rewrite (isLoaderError_not_discovery err Herr). split; discriminate.
    + intros [= ->]. simpl in Hp. unfold ret in Hp. by injection Hp as <- <- <-.
  - unfold ret. eexists _, _, _. split_and!; [done| |done|done|done].
    split; [done|]. intros _. simpl. apply prefix_app.
Qed.

End LoaderFacts.

(** ** Facts about the init emitter *)

Section InitFacts.
Context `{Collaborators}.

Lemma string_app_assoc (a b c : string) : (a +:+ b) +:+ c = a +:+ (b +:+ c).
Proof.
  induction a as [|x a IH]; [done|].
  change (String x ((a +:+ b) +:+ c) = String x (a +:+ (b +:+ c))). by rewrite IH.
Qed.

Lemma string_app_nil_r (a : string) : a +:+ "" = a.
Proof.
  induction a as [|x a IH]; [done|].
  change (String x (a +:+ "") = String x a). by rewrite IH.
Qed.

Lemma joinS_app (l1 l2 : list string) : joinS (l1 ++ l2) = joinS l1 +:+ joinS l2.
Proof.
  induction l1 as [|x l1 IH]; [done|].
  simpl. unfold joinS in *. simpl. by rewrite IH, string_app_assoc.
Qed.

Lemma renderAll_app (l1 l2 : list stmt) :
  renderAll (l1 ++ l2) = renderAll l1 +:+ renderAll l2.
Proof. unfold renderAll. by rewrite fmap_app, joinS_app. Qed.

Lemma renderAll_concat (ls : list (list stmt)) :
  renderAll (concat ls) = joinS (renderAll <$> ls).
Proof.
  induction ls as [|l ls IH]; [done|].
  simpl. rewrite renderAll_app, IH. done.
Qed.

(** A loop that appends one text per element appends their concatenation. *)
Lemma foldl_appends {A : Type} (F : string -> A -> string) (G : A -> string)
    (l : list A) (acc : string) :
  (forall acc x, F acc x = acc +:+ G x) ->
  foldl F acc l = acc +:+ joinS (G <$> l).
Proof.
  intros HF. revert acc. induction l as [|x l IH]; intros acc; simpl.
  - by rewrite string_app_nil_r.
  - rewrite IH, HF, string_app_assoc. done.
Qed.

Lemma attachmentLines_render (c : CompiledTemplatesProgram) (i : nat)
    (f : TemplateFileToCompile) (e : nat) (tname : string) :
  attachmentLines c i f e tname = renderAll (attachment c i f e tname).
Proof.
  unfold attachmentLines, attachment, renderAll, joinS. simpl.
  by rewrite string_app_nil_r.
Qed.

Lemma regText_render (c : CompiledTemplatesProgram) (tpls : list TemplateToCompile) :
  joinS (regText c <$> tpls) = renderAll (registrations c tpls).
Proof.
  unfold registrations. rewrite renderAll_concat, <- list_fmap_compose.
  f_equal. apply list_fmap_ext. intros _ t _. simpl. unfold regText.
  rewrite renderAll_concat, <- list_fmap_compose. f_equal.
  apply list_fmap_ext. intros _ f _. simpl.
  unfold renderAll, regTextFile. by rewrite <- list_fmap_compose.
Qed.

Lemma attTextFile_render (c : CompiledTemplatesProgram) (i : nat)
    (f : TemplateFileToCompile) (l : list (nat * string)) :
  joinS ((fun '(e, tname) => attachmentLines c i f e tname) <$> l)
  = renderAll (concat ((fun '(e, tname) => attachment c i f e tname) <$> l)).
Proof.
  induction l as [|[e tname] l IH]; [done|].
  rewrite !fmap_cons. cbn [concat]. rewrite renderAll_app, <- IH.
  by rewrite <- attachmentLines_render.
Qed.

Lemma attText_render (c : CompiledTemplatesProgram) (tpls : list TemplateToCompile) :
  joinS (attText c <$> tpls) = renderAll (concat (attachmentGroups c tpls)).
Proof.
  unfold attachmentGroups.
  induction tpls as [|t tpls IH]; [done|].
  rewrite !fmap_cons. cbn [concat]. rewrite concat_app, renderAll_app, <- IH.
  change (joinS (attText c t :: (attText c <$> tpls)))
    with (attText c t +:+ joinS (attText c <$> tpls)).
  f_equal. unfold attText.
  induction (imap pair (files t)) as [|[i f] l IHl]; [done|].
  rewrite !fmap_cons. cbn [concat]. rewrite concat_app, renderAll_app, <- IHl.
  change (joinS (attTextFile c (i, f) :: (attTextFile c <$> l)))
    with (attTextFile c (i, f) +:+ joinS (attTextFile c <$> l)).
  f_equal. apply attTextFile_render.
Qed.

(** The text [generateInitFunc] returns is the opening line, the text of the
    statements of [initStmts], and the closing brace. *)
Lemma generateInitFunc_render (c : CompiledTemplatesProgram)
    (tpls : list TemplateToCompile) :
  generateInitFunc c tpls
  = ("func init () {" +:+ nl) +:+ renderAll (initStmts c tpls) +:+ "}".
Proof.
  unfold generateInitFunc, initStmts.
  rewrite renderAll_app, <- regText_render, <- attText_render.
  rewrite (foldl_appends _ (attText c)), (foldl_appends _ (regText c)).
  - by rewrite !string_app_assoc.
  - intros acc t. apply foldl_appends. intros acc' f.
    by apply foldl_appends.
  - intros acc t. apply foldl_appends. intros acc' [i f].
    apply foldl_appends. by intros acc'' [e tname].
Qed.

Lemma elem_of_concat {A : Type} (x : A) (ls : list (list A)) :
  x ∈ concat ls <-> exists l, x ∈ l /\ l ∈ ls.
Proof.
  rewrite list_elem_of_In, in_concat. split.
  - intros (l & Hl & Hx). exists l. by rewrite !list_elem_of_In.
  - intros (l & Hx & Hl). exists l. by rewrite <- !list_elem_of_In.
Qed.

Lemma registrations_are_Add (c : CompiledTemplatesProgram) (tpls : list TemplateToCompile) :
  Forall (fun s => exists t f n,
            t ∈ tpls /\ f ∈ files t /\ n ∈ names f /\
            s = SAdd (varName c) n (getString (tplsFunc f) n))
         (registrations c tpls).
Proof.
  apply Forall_forall. intros s Hs. unfold registrations in Hs.
  apply elem_of_concat in Hs as (l & Hs & Hl).
  apply list_elem_of_fmap in Hl as (t & -> & Ht).
  apply elem_of_concat in Hs as (l & Hs & Hl).
  apply list_elem_of_fmap in Hl as (f & -> & Hf).
  apply list_elem_of_fmap in Hs as (n & -> & Hn).
  by exists t, f, n.
Qed.

Lemma attachmentGroups_are_attachments (c : CompiledTemplatesProgram)
    (tpls : list TemplateToCompile) :
  Forall (fun g => exists t i f e n,
            t ∈ tpls /\ files t !! i = Some f /\ definedTemplates f !! e = Some n /\
            g = attachment c i f e n)
         (attachmentGroups c tpls).
Proof.
  apply Forall_forall. intros g Hg. unfold attachmentGroups in Hg.
  apply elem_of_concat in Hg as (l & Hg & Hl).
  apply list_elem_of_fmap in Hl as (t & -> & Ht).
  apply elem_of_concat in Hg as (l & Hg & Hl).
  apply list_elem_of_fmap in Hl as ([i f] & -> & Hf).
  apply list_elem_of_fmap in Hg as ([e n] & -> & Hn).
  apply elem_of_lookup_imap in Hf as (i' & f' & [= -> ->] & Hf).
  apply elem_of_lookup_imap in Hn as (e' & n' & [= -> ->] & Hn).
  by exists t, i', f', e', n'.
Qed.

Lemma attachment_vars_differ (i e : nat) :
  "tpl" +:+ Go.itoa i +:+ "X" +:+ Go.itoa e <> "tpl" +:+ Go.itoa i +:+ "Y" +:+ Go.itoa e.
Proof.
  intros E. apply (inj (String.append "tpl")) in E.
  apply (inj (String.append (Go.itoa i))) in E. discriminate E.
Qed.

Lemma attachment_shape (c : CompiledTemplatesProgram) (i : nat)
    (f : TemplateFileToCompile) (e : nat) (n : string) :
  isAttachment (varName c) (attachment c i f e n).
Proof.
  eexists _, _, _, _. split; [|reflexivity]. apply attachment_vars_differ.
Qed.

Lemma attachmentGroups_shape (c : CompiledTemplatesProgram) (tpls : list TemplateToCompile) :
  Forall (isAttachment (varName c)) (attachmentGroups c tpls).
Proof.
  eapply Forall_impl; [apply attachmentGroups_are_attachments|].
  intros g (t & i & f & e & n & _ & _ & _ & ->). apply attachment_shape.
Qed.

(** A rebinding that runs found both entries, and left in the slot of the
    main entry what [Compiled] returned. *)
Lemma attachment_exec_inv (Entry : Type) (regNew : string -> Entry)
    (regCompiled : Entry -> Entry -> Entry * bool)
    (reg x y main nested : string) (st st' : initState Entry) :
  x <> y ->
  execStmts regNew regCompiled
    [SMustGet x reg main; SMustGet y reg nested; SCompiled x y; SSet reg main x] st
  = Some st' ->
  exists em en,
    registry st !! main = Some em /\ registry st !! nested = Some en /\
    registry st' = <[main := fst (regCompiled em en)]> (registry st).
Proof.
  intros Hxy Hexec. simpl in Hexec.
  destruct (locals st !! x) as [?|] eqn:Hx; [done|].
  destruct (registry st !! main) as [em|] eqn:Hm; [|done]. simpl in Hexec.
  rewrite lookup_insert_ne in Hexec by done.
  destruct (locals st !! y) as [?|] eqn:Hy; [done|].
  destruct (registry st !! nested) as [en|] eqn:Hn; [|done]. simpl in Hexec.
  rewrite lookup_insert_ne, lookup_insert_eq, lookup_insert_eq in Hexec by done.
  simpl in Hexec. rewrite lookup_insert_eq in Hexec. injection Hexec as <-.
  by exists em, en.
Qed.

(** What running one rebinding does: the slot of the main entry receives the
    entry [Compiled] returned, whether or not it returned an error. *)
Lemma attachment_exec (Entry : Type) (regNew : string -> Entry)
    (regCompiled : Entry -> Entry -> Entry * bool)
    (reg x y main nested : string) (st : initState Entry) (em en : Entry) :
  x <> y ->
  registry st !! main = Some em -> registry st !! nested = Some en ->
  locals st !! x = None -> locals st !! y = None ->
  execStmts regNew regCompiled
    [SMustGet x reg main; SMustGet y reg nested; SCompiled x y; SSet reg main x] st
  = Some {| registry := <[main := fst (regCompiled em en)]> (registry st);
            locals := <[x := fst (regCompiled em en)]>
                        (<[y := en]> (<[x := em]> (locals st))) |}.
Proof.
  intros Hxy Hm Hn Hx Hy. simpl.
  rewrite Hx, Hm. simpl.
  rewrite lookup_insert_ne, Hy, Hn by done. simpl.
  rewrite lookup_insert_ne, lookup_insert_eq, lookup_insert_eq by done. simpl.
  by rewrite lookup_insert_eq.
Qed.

(** C4, as the code has it: the init routine is the opening line, then the
    registrations, then the rebindings, then the closing brace, so every
    registration stands before every rebinding.  A registration is an [Add]
    of the function of a template name of a file under that name, in the
    order of [names]; there is one rebinding per defined template of a file.
    A rebinding fetches the file's main entry and the nested entry, calls
    [Compiled] dropping its error, and stores what [Compiled] returned in the
    slot of the main entry: the slot is overwritten with that entry also
    when [Compiled] failed. *)
Theorem generateInitFunc_layout (c : CompiledTemplatesProgram)
    (tpls : list TemplateToCompile) :
  generateInitFunc c tpls
  = ("func init () {" +:+ nl)
    +:+ renderAll (registrations c tpls ++ concat (attachmentGroups c tpls)) +:+ "}" /\
  Forall (fun s => exists t f n,
            t ∈ tpls /\ f ∈ files t /\ n ∈ names f /\
            s = SAdd (varName c) n (getString (tplsFunc f) n))
         (registrations c tpls) /\
  Forall (fun g => exists t i f e n,
            t ∈ tpls /\ files t !! i = Some f /\ definedTemplates f !! e = Some n /\
            g = attachment c i f e n)
         (attachmentGroups c tpls) /\
  (forall (Entry : Type) (regNew : string -> Entry)
          (regCompiled : Entry -> Entry -> Entry * bool)
          (i : nat) (f : TemplateFileToCompile) (e : nat) (n : string)
          (st st' : initState Entry),
     execStmts regNew regCompiled (attachment c i f e n) st = Some st' ->
     exists em en,
       registry st !! name f = Some em /\ registry st !! n = Some en /\
       registry st' = <[name f := fst (regCompiled em en)]> (registry st)).
Proof.
  split_and!.
  - apply generateInitFunc_render.
  - apply registrations_are_Add.
  - apply attachmentGroups_are_attachments.
  - intros Entry regNew regCompiled i f e n st st' Hexec.
    apply (attachment_exec_inv Entry regNew regCompiled) in Hexec; [done|].
    apply attachment_vars_differ.
Qed.

End InitFacts.

(** ** Facts about the output assembler *)

Section OutputFacts.
Context `{Collaborators}.

Lemma insertAt_Permutation {A : Type} (n : nat) (x : A) (l : list A) :
  insertAt n x l ≡ₚ x :: l.
Proof.
  revert n. induction l as [|y l IH]; intros [|n]; simpl; try done.
  rewrite IH. apply Permutation_swap.
Qed.

(** Whatever the runtime picks, a [range] visits every entry once. *)
Lemma shuffle_Permutation {A : Type} (ch : list nat) (l : list A) :
  shuffle ch l ≡ₚ l.
Proof.
  revert ch. induction l as [|x l IH]; intros [|n ch]; simpl; try done.
  by rewrite insertAt_Permutation, IH.
Qed.

Lemma insertAt_length {A : Type} (x : A) (l1 l2 : list A) :
  insertAt (length l1) x (l1 ++ l2) = l1 ++ x :: l2.
Proof. induction l1 as [|y l1 IH]; simpl; [by destruct l2|by rewrite IH]. Qed.

(** Every order of the entries is the walk of some choice of the runtime. *)
Lemma shuffle_complete {A : Type} (l l' : list A) :
  l' ≡ₚ l -> exists ch, shuffle ch l = l'.
Proof.
  revert l'. induction l as [|x l IH]; intros l' Hp.
  - apply Permutation_nil_r in Hp as ->. by exists [].
  - assert (x ∈ l') as Hx by (rewrite Hp; constructor).
    apply list_elem_of_split in Hx as (l1 & l2 & ->).
    symmetry in Hp. apply Permutation_cons_app_inv in Hp. symmetry in Hp.
    destruct (IH _ Hp) as [ch Hch].
    exists (length l1 :: ch). simpl. rewrite Hch. apply insertAt_length.
Qed.

(** [names] does not depend on the order in which the keys were collected. *)
Lemma names_any_order (f : TemplateFileToCompile) (keys : list string) :
  keys ≡ₚ (fst <$> map_to_list (tplsTree f)) ->
  merge_sort String.le keys = names f.
Proof.
  intros Hp. unfold names.
  apply (Sorted_unique String.le); try apply (Sorted_merge_sort String.le).
  by rewrite !merge_sort_Permutation.
Qed.

Lemma firstOccurrences_elem (seen : list string) (L : list (string * string))
    (t n : string) :
  (t, n) ∈ firstOccurrences seen L -> (t, n) ∈ L /\ t ∉ seen.
Proof.
  revert seen. induction L as [|[t' n'] L IH]; intros seen; simpl.
  - by intros ?%elem_of_nil.
  - case_bool_decide as Hs.
    + intros Hin. destruct (IH _ Hin). split; [by constructor|done].
    + intros [Heq|Hin]%elem_of_cons.
      * injection Heq as -> ->. split; [constructor|done].
      * destruct (IH _ Hin) as [? Hn]. split; [by constructor|].
        intros ?. apply Hn. by constructor.
Qed.

Lemma firstOccurrences_covers (seen : list string) (L : list (string * string))
    (t : string) :
  t ∈ L.*1 -> t ∉ seen -> exists n, (t, n) ∈ firstOccurrences seen L.
Proof.
  revert seen. induction L as [|[t' n'] L IH]; intros seen; simpl.
  - by intros ?%elem_of_nil.
  - intros Hin Hs. destruct (decide (t = t')) as [->|Hne].
    + rewrite bool_decide_eq_false_2 by done. exists n'. constructor.
    + apply elem_of_cons in Hin as [?|Hin]; [done|].
      case_bool_decide.
      * by apply IH.
      * destruct (IH (t' :: seen) Hin) as [n Hn].
        { intros [?|?]%elem_of_cons; done. }
        exists n. by constructor.
Qed.

Lemma firstOccurrences_NoDup (seen : list string) (L : list (string * string)) :
  NoDup (firstOccurrences seen L).*1.
Proof.
  revert seen. induction L as [|[t n] L IH]; intros seen; simpl; [constructor|].
  case_bool_decide; [apply IH|].
  simpl. constructor; [|apply IH].
  intros Hin. apply list_elem_of_fmap in Hin as ([t' n'] & Ht & Hin). simpl in Ht.
  subst t'. apply firstOccurrences_elem in Hin as [_ Hn]. apply Hn. constructor.
Qed.

(** The table holds the literals of the log, once each. *)
Lemma litInv_first_occurrences (L : list (string * string))
    (c : CompiledTemplatesProgram) :
  litInv L c -> map_to_list (builtinTexts c) ≡ₚ firstOccurrences [] L.
Proof.
  intros [I1 I2 _ _ _]. apply NoDup_Permutation.
  - apply NoDup_map_to_list.
  - eapply NoDup_fmap_1, firstOccurrences_NoDup.
  - intros [t n]. rewrite elem_of_map_to_list. split.
    + intros Hl.
      assert (t ∈ L.*1) as Hin.
      { apply (elem_of_list_to_set (C := gset string)). rewrite <- I2.
        apply elem_of_dom. eauto. }
      destruct (firstOccurrences_covers [] L t Hin) as [n' Hn'].
      { by intros ?%elem_of_nil. }
      pose proof Hn' as Hn''. apply firstOccurrences_elem in Hn'' as [HL _].
      rewrite (I1 _ _ HL) in Hl. by injection Hl as ->.
    + intros Hin. apply firstOccurrences_elem in Hin as [HL _]. by apply I1.
Qed.

Lemma generateBuiltins_text (c : CompiledTemplatesProgram) (w : World) :
  fst (generateBuiltins c w) = Done (builtinsText (nextOrder w (builtinTexts c))).
Proof.
  unfold generateBuiltins, bind, rangeMap, ret, builtinsText, nextOrder. simpl.
  f_equal. by rewrite (foldl_appends _ builtinLine).
Qed.

Lemma generateProgram_text (c : CompiledTemplatesProgram) (outpkg : string)
    (tpls : list TemplateToCompile) (w : World) :
  fst (generateProgram c outpkg tpls w)
  = Done (programText c outpkg tpls (builtinsText (nextOrder w (builtinTexts c)))).
Proof.
  unfold generateProgram, bind.
  pose proof (generateBuiltins_text c w) as Hb.
  destruct (generateBuiltins c w) as [[builtins|msg] w1]; simpl in Hb; [|done].
  injection Hb as ->. unfold ret, programText. simpl. f_equal.
  by rewrite (foldl_appends _ (fun f => astNodeToString f +:+ nl +:+ nl)).
Qed.

(** Every order of the literal table is the order of the declarations in
    some run. *)
Lemma generateBuiltins_any_order (c : CompiledTemplatesProgram) (w : World)
    (order : list (string * string)) :
  order ≡ₚ map_to_list (builtinTexts c) ->
  exists ch,
    fst (generateBuiltins c
           {| fs_Glob := fs_Glob w; fs_ReadFile := fs_ReadFile w; fs_Stat := fs_Stat w;
              fs_WriteFile := fs_WriteFile w; mapOrder := ch :: mapOrder w;
              written := written w |})
    = Done (builtinsText order).
Proof.
  intros Hp. destruct (shuffle_complete _ _ Hp) as [ch Hch].
  exists ch. rewrite generateBuiltins_text. unfold nextOrder. simpl. by rewrite Hch.
Qed.

(** C5, as the code has it: the literal constants declared in the output are
    those of the literal table, one declaration per interned literal, each
    under the name it was interned with; they are the declarations of the
    first-seen insertion order rearranged in the order the runtime walks the
    table. *)
Theorem generateBuiltins_declares_literals (varName : string) (ks : list call)
    (outpkg : string) (tpls : list TemplateToCompile) (w : World) :
  let '(log, c) := session varName ks in
  exists order,
    order ≡ₚ firstOccurrences [] (literalsOf log) /\
    fst (generateBuiltins c w) = Done (builtinsText order) /\
    fst (generateProgram c outpkg tpls w)
      = Done (programText c outpkg tpls (builtinsText order)).
Proof.
  pose proof (litInv_run (initialCalls ++ ks) [] (bareProgram varName)
                (litInv_bare varName)) as Hinv.
  unfold session. destruct (run (initialCalls ++ ks) (bareProgram varName)) as [log c].
  cbn [fst snd] in Hinv. rewrite app_nil_l in Hinv.
  exists (nextOrder w (builtinTexts c)). split_and!.
  - unfold nextOrder. rewrite shuffle_Permutation.
    by apply litInv_first_occurrences.
  - apply generateBuiltins_text.
  - apply generateProgram_text.
Qed.

End OutputFacts.

(** ** Facts about [Compile] and [CompileAndWrite] *)

Section CompileFacts.
Context `{Collaborators}.

Lemma keepsFiles_ret {A : Type} (a : A) : keepsFiles (ret a).
Proof. by intros w. Qed.

Lemma keepsFiles_panic {A : Type} (msg : string) : keepsFiles (panic (A := A) msg).
Proof. by intros w. Qed.

Lemma keepsFiles_bind {A B : Type} (m : M A) (k : A -> M B) :
  keepsFiles m -> (forall a, keepsFiles (k a)) -> keepsFiles (bind m k).
Proof.
  intros Hm Hk w. unfold bind. specialize (Hm w).
  destruct (m w) as [[a|msg] w1]; simpl in *; [|done].
  by rewrite Hk.
Qed.

Lemma keepsFiles_Glob (pattern : string) : keepsFiles (filepath_Glob pattern).
Proof. intros w. unfold filepath_Glob. by destruct (fs_Glob w pattern). Qed.

Lemma keepsFiles_ReadFile (path : string) : keepsFiles (ioutil_ReadFile path).
Proof. intros w. unfold ioutil_ReadFile. by destruct (fs_ReadFile w path). Qed.

Lemma keepsFiles_Stat (path : string) : keepsFiles (os_Stat path).
Proof. by intros w. Qed.

Lemma keepsFiles_rangeMap {V : Type} (m : gmap string V) : keepsFiles (rangeMap m).
Proof. by intros w. Qed.

Create HintDb keeps.
#[local] Hint Resolve keepsFiles_ret keepsFiles_panic keepsFiles_Glob
  keepsFiles_ReadFile keepsFiles_Stat : keeps.

(** Splits a computation along its binds and case distinctions. *)
Ltac keeps_step :=
  match goal with
  | |- keepsFiles (bind _ _) => apply keepsFiles_bind; [|intros ?]
  | |- keepsFiles (rangeMap _) => apply keepsFiles_rangeMap
  | |- keepsFiles (match ?x with _ => _ end) => destruct x
  | |- keepsFiles (if ?b then _ else _) => destruct b
  | |- keepsFiles _ => solve [auto with keeps]
  end.

Lemma keepsFiles_LookupPackageNameFromStr (gocode : string) :
  keepsFiles (LookupPackageNameFromStr gocode).
Proof. unfold LookupPackageNameFromStr. repeat keeps_step. Qed.

Lemma keepsFiles_LookupPackageName (someDir : string) :
  keepsFiles (LookupPackageName someDir).
Proof.
  unfold LookupPackageName.
  repeat (keeps_step || apply keepsFiles_LookupPackageNameFromStr).
Qed.

Lemma keepsFiles_updateOutPkg (conf : Configuration) : keepsFiles (updateOutPkg conf).
Proof.
  unfold updateOutPkg. repeat (keeps_step || apply keepsFiles_LookupPackageName).
Qed.

Lemma keepsFiles_makeTemplateFileToCompileFromFile (tplPath : string) (data : DataT)
    (funcs : FuncMap) (html : bool) :
  keepsFiles (makeTemplateFileToCompileFromFile tplPath data funcs html).
Proof. unfold makeTemplateFileToCompileFromFile. repeat keeps_step. Qed.

Lemma keepsFiles_prepare_loop (tplsPath : list string) (t : TemplateToCompile) :
  keepsFiles (prepare_loop t tplsPath).
Proof.
  revert t. induction tplsPath as [|p rest IH]; intros t; simpl.
  - auto with keeps.
  - repeat (keeps_step || apply keepsFiles_makeTemplateFileToCompileFromFile || apply IH).
Qed.

Lemma keepsFiles_prepare (t : TemplateToCompile) : keepsFiles (prepare t).
Proof. unfold prepare. repeat (keeps_step || apply keepsFiles_prepare_loop). Qed.

Lemma keepsFiles_prepare_all (ts : list TemplateToCompile) : keepsFiles (prepare_all ts).
Proof.
  induction ts as [|t rest IH]; simpl.
  - auto with keeps.
  - repeat (keeps_step || apply keepsFiles_prepare || apply IH).
Qed.

Lemma keepsFiles_generateProgram (c : CompiledTemplatesProgram) (outpkg : string)
    (tpls : list TemplateToCompile) :
  keepsFiles (generateProgram c outpkg tpls).
Proof. unfold generateProgram, generateBuiltins. repeat keeps_step. Qed.

Lemma keepsFiles_compileTemplates (c : CompiledTemplatesProgram) (outpkg : string)
    (tpls : list TemplateToCompile) :
  keepsFiles (compileTemplates c outpkg tpls).
Proof.
  unfold compileTemplates. destruct (convertTemplates c tpls) as [[c' tpls'] err].
  repeat (keeps_step || apply keepsFiles_generateProgram).
Qed.

(** [Compile] writes no file. *)
Lemma keepsFiles_Compile (c : CompiledTemplatesProgram) (config : Configuration) :
  keepsFiles (Compile c config).
Proof.
  unfold Compile, getTemplatesToCompile.
  repeat (keeps_step || apply keepsFiles_updateOutPkg || apply keepsFiles_prepare_all
          || apply keepsFiles_compileTemplates).
Qed.

Lemma returns_ret {A : Type} (a : A) (P : A -> Prop) : P a -> returns (ret a) P.
Proof. by intros HP w. Qed.

Lemma returns_bind {A B : Type} (m : M A) (k : A -> M B) (P : B -> Prop) :
  (forall a, returns (k a) P) -> returns (bind m k) P.
Proof.
  intros Hk w. unfold bind. destruct (m w) as [[a|msg] w1]; [apply Hk|done].
Qed.

Lemma updateOutPkg_OutPath (conf : Configuration) :
  returns (updateOutPkg conf) (fun r => OutPath (fst r) = OutPath conf).
Proof.
  unfold updateOutPkg. destruct (bool_decide (OutPkg conf = "")).
  - apply returns_bind. intros [pkgName [e|]]; by apply returns_ret.
  - by apply returns_ret.
Qed.

Lemma Compile_OutPath (c : CompiledTemplatesProgram) (config : Configuration) :
  returns (Compile c config) (fun r => OutPath (snd r) = OutPath config).
Proof.
  intros w. unfold Compile, bind.
  pose proof (updateOutPkg_OutPath config w) as Hu.
  destruct (updateOutPkg config w) as [[[config1 err]|msg] w1]; simpl in *; [|done].
  destruct err as [e|]; [done|].
  destruct (getTemplatesToCompile c config1 w1) as [[[tpls err]|msg] w2]; simpl; [|done].
  destruct err as [e|]; [done|].
  destruct (compileTemplates c (OutPkg config1) tpls w2) as [[[[program err] c']|msg] w3];
    simpl; done.
Qed.

(** What [CompileAndWrite] does with the result of [Compile]. *)
Lemma CompileAndWrite_of_Compile (c : CompiledTemplatesProgram)
    (config : Configuration) (w : World) :
  let '(r, w1) := Compile c config w in
  written w1 = written w /\
  match r with
  | Done (program, Some e, _, _) =>
    CompileAndWrite c config w = (Done (Some e), w1)
  | Done (program, None, _, _) =>
    fst (CompileAndWrite c config w)
      = Done (writeError (fs_WriteFile w1 (OutPath config) program)) /\
    written (snd (CompileAndWrite c config w))
      = written w ++ [(OutPath config, program)]
  | Panicked msg => CompileAndWrite c config w = (Panicked msg, w1)
  end.
Proof.
  pose proof (keepsFiles_Compile c config w) as Hk.
  pose proof (Compile_OutPath c config w) as Ho.
  unfold CompileAndWrite, bind.
  destruct (Compile c config w) as [[[[[program err] c'] config']|msg] w1];
    simpl in *; [|done].
  split; [done|]. destruct err as [e|]; [done|].
  rewrite Ho. unfold ioutil_WriteFile, ret. simpl.
  destruct (fs_WriteFile w1 (OutPath config) program) as [e|]; simpl; by rewrite Hk.
Qed.

(** The error of each stage is the error [Compile] returns: the lookup of the
    package name, the discovery and loading of the templates, the
    conversion. *)
Lemma Compile_stage_errors (c : CompiledTemplatesProgram) (config : Configuration)
    (w : World) :
  match updateOutPkg config w with
  | (Done (config1, Some e), w1) =>
    Compile c config w = (Done ("", Some e, c, config1), w1)
  | (Done (config1, None), w1) =>
    match getTemplatesToCompile c config1 w1 with
    | (Done (tpls, Some e), w2) =>
      Compile c config w = (Done ("", Some e, c, config1), w2)
    | (Done (tpls, None), w2) =>
      match convertTemplates c tpls with
      | (c', _, Some e) => Compile c config w = (Done ("", Some e, c', config1), w2)
      | (c', tpls', None) =>
        fst (Compile c config w)
        = match fst (generateProgram c' (OutPkg config1) tpls' w2) with
          | Done program => Done (program, None, c', config1)
          | Panicked msg => Panicked msg
          end
      end
    | (Panicked msg, w2) => Compile c config w = (Panicked msg, w2)
    end
  | (Panicked msg, w1) => Compile c config w = (Panicked msg, w1)
  end.
Proof.
  unfold Compile, bind.
  destruct (updateOutPkg config w) as [[[config1 [e|]]|msg] w1]; [done| |done].
  destruct (getTemplatesToCompile c config1 w1) as [[[tpls [e|]]|msg] w2]; [done| |done].
  unfold compileTemplates, bind.
  destruct (convertTemplates c tpls) as [[c' tpls'] [e|]]; [done|].
  by destruct (generateProgram c' (OutPkg config1) tpls' w2) as [[program|msg] w3].
Qed.

End CompileFacts.

(** ** A compile request as a sequence of calls on the shared program *)

Section RequestFacts.
Context `{Collaborators}.

Lemma reachedFrom_refl (c : CompiledTemplatesProgram) : reachedFrom c c.
Proof. by exists []. Qed.

Lemma reachedFrom_trans (c1 c2 c3 : CompiledTemplatesProgram) :
  reachedFrom c1 c2 -> reachedFrom c2 c3 -> reachedFrom c1 c3.
Proof.
  intros (k1 & H1 & ->) (k2 & H2 & ->). exists (k1 ++ k2). split.
  - by rewrite forallb_app, H1, H2.
  - by rewrite run_app.
Qed.

Lemma callOf_fnBased (rs : list request) : forallb fnBased (callOf <$> rs) = true.
Proof. induction rs as [|[] rs IH]; simpl; done. Qed.

Lemma names_NoDup (f : TemplateFileToCompile) : NoDup (names f).
Proof.
  unfold names. rewrite merge_sort_Permutation. apply NoDup_fst_map_to_list.
Qed.

Lemma convertName_reached (c : CompiledTemplatesProgram) (t : TemplateToCompile)
    (f : TemplateFileToCompile) (n : string) :
  String.prefix "fn" (getString (tplsFunc f) n) = true ->
  reachedFrom c (fst (fst (convertName c t f n)))
  /\ tplsTree (snd (fst (convertName c t f n))) = tplsTree f
  /\ forall m, m <> n ->
       getString (tplsFunc (snd (fst (convertName c t f n)))) m
       = getString (tplsFunc f) m.
Proof.
  intros Hn. unfold convertName.
  destruct (makeFuncName c (getString (tplsFunc f) n)) as [x c1] eqn:Em.
  cbn [tplsFunc tplsTree tplsTypeCheck name definedTemplates].
  destruct (convertTplTree _ _ _ _ _ _ c1) as [requests err]. cbn [fst snd].
  split_and!.
  - exists (CallMakeFuncName (getString (tplsFunc f) n) :: (callOf <$> requests)).
    split.
    + cbn [forallb fnBased]. by rewrite Hn, callOf_fnBased.
    + cbn [run exec]. rewrite Em.
      by destruct (run (callOf <$> requests) c1).
  - done.
  - intros m Hm. unfold getString. cbn [tplsFunc].
    by rewrite !(lookup_insert_ne _ n m).
Qed.

Lemma convertNames_reached (c : CompiledTemplatesProgram) (t : TemplateToCompile)
    (ns : list string) (f : TemplateFileToCompile) :
  NoDup ns ->
  (forall n, n ∈ ns -> String.prefix "fn" (getString (tplsFunc f) n) = true) ->
  reachedFrom c (fst (fst (convertNames c t f ns))).
Proof.
  revert c f. induction ns as [|n ns IH]; intros c f Hnd Hns; simpl.
  - apply reachedFrom_refl.
  - apply NoDup_cons in Hnd as [Hn Hnd].
    destruct (convertName_reached c t f n) as (Hr & _ & Hf).
    { apply Hns. constructor. }
    destruct (convertName c t f n) as [[c1 f1] [e|]]; cbn [fst snd] in *; [done|].
    eapply reachedFrom_trans; [exact Hr|]. apply IH; [done|].
    intros m Hm. rewrite Hf; [apply Hns; by constructor|].
    intros ->. done.
Qed.

Lemma convertFiles_reached (c : CompiledTemplatesProgram) (t : TemplateToCompile)
    (fs : list TemplateFileToCompile) :
  Forall fnPrefixedFile fs -> reachedFrom c (fst (fst (convertFiles c t fs))).
Proof.
  revert c. induction fs as [|f fs IH]; intros c Hfs; simpl.
  - apply reachedFrom_refl.
  - apply Forall_cons in Hfs as [Hf Hfs].
    pose proof (convertNames_reached c t (names f) f (names_NoDup f) Hf) as Hr.
    destruct (convertNames c t f (names f)) as [[c1 f1] [e|]]; cbn [fst snd] in *; [done|].
    specialize (IH c1 Hfs).
    destruct (convertFiles c1 t fs) as [[c2 fs'] err]. cbn [fst snd] in *.
    by eapply reachedFrom_trans.
Qed.

(** [convertTemplates] works on the shared program through [makeFuncName]
    and the calls of the converter only. *)
Lemma convertTemplates_reached (c : CompiledTemplatesProgram)
    (tpls : list TemplateToCompile) :
  fnPrefixedTemplates tpls -> reachedFrom c (fst (fst (convertTemplates c tpls))).
Proof.
  revert c. induction tpls as [|t tpls IH]; intros c Hts; simpl.
  - apply reachedFrom_refl.
  - apply Forall_cons in Hts as [Ht Hts].
    pose proof (convertFiles_reached c t (files t) Ht) as Hr.
    destruct (convertFiles c t (files t)) as [[c1 fs] [e|]]; cbn [fst snd] in *; [done|].
    specialize (IH c1 Hts).
    destruct (convertTemplates c1 tpls) as [[c2 tpls'] err]. cbn [fst snd] in *.
    by eapply reachedFrom_trans.
Qed.

(** *** The loader builds base names that start with "fn" *)

Lemma cleanTplName_fn (s : string) :
  String.prefix "fn" (cleanTplName ("fn" +:+ s)) = true.
Proof.
  unfold cleanTplName, replaceAll. cbn [foldl].
  change ("fn" +:+ s) with (String "f" (String "n" s)). cbn [Go.replaceByte Ascii.eqb Bool.eqb].
  apply (prefix_app "fn").
Qed.

Lemma registerTree_fn (mainName : string) (data : DataT) (funcs : FuncMap)
    (f : TemplateFileToCompile) (entry : string * option Tree) :
  fnValues f ->
  fnValues (registerTree mainName data funcs f entry)
  /\ tplsTree (registerTree mainName data funcs f entry) = tplsTree f
  /\ dom (tplsFunc (registerTree mainName data funcs f entry))
     = {[fst entry]} ∪ dom (tplsFunc f).
Proof.
  intros Hf. destruct entry as [treeName tree]. unfold registerTree.
  case_bool_decide; cbn [tplsFunc tplsTree fst]; (split_and!; [|done|apply dom_insert_L]).
  - intros n v. cbn [tplsFunc]. destruct (decide (treeName = n)) as [<-|Hne].
    + rewrite lookup_insert_eq. intros [= <-]. apply cleanTplName_fn.
    + rewrite lookup_insert_ne by done. apply Hf.
  - intros n v. cbn [tplsFunc]. destruct (decide (treeName = n)) as [<-|Hne].
    + rewrite lookup_insert_eq. intros [= <-]. apply cleanTplName_fn.
    + rewrite lookup_insert_ne by done. apply Hf.
Qed.

Lemma registerTree_fold_fn (mainName : string) (data : DataT) (funcs : FuncMap)
    (entries : list (string * option Tree)) (f : TemplateFileToCompile) :
  fnValues f ->
  fnValues (foldl (registerTree mainName data funcs) f entries)
  /\ tplsTree (foldl (registerTree mainName data funcs) f entries) = tplsTree f
  /\ dom (tplsFunc (foldl (registerTree mainName data funcs) f entries))
     = list_to_set entries.*1 ∪ dom (tplsFunc f).
Proof.
  revert f. induction entries as [|e entries IH]; intros f Hf; simpl.
  - split_and!; [done..|]. by rewrite union_empty_l_L.
  - destruct (registerTree_fn mainName data funcs f e Hf) as (H1 & H2 & H3).
    destruct (IH _ H1) as (I1 & I2 & I3). split_and!; [done|congruence|].
    rewrite I3, H3. apply set_eq. intros x.
    rewrite !elem_of_union, elem_of_singleton. tauto.
Qed.

Lemma loaded_file_fnPrefixed (mainName : string) (data : DataT) (funcs : FuncMap)
    (treeNames : gmap string (option Tree)) (entries : list (string * option Tree))
    (f : TemplateFileToCompile) :
  entries ≡ₚ map_to_list treeNames -> tplsTree f = treeNames -> tplsFunc f = ∅ ->
  fnPrefixedFile (foldl (registerTree mainName data funcs) f entries).
Proof.
  intros Hp Ht Hf.
  destruct (registerTree_fold_fn mainName data funcs entries f) as (I1 & I2 & I3).
  { intros n v. by rewrite Hf, lookup_empty. }
  intros n Hn. unfold names in Hn. rewrite merge_sort_Permutation, I2, Ht, <- Hp in Hn.
  assert (n ∈ dom (tplsFunc (foldl (registerTree mainName data funcs) f entries))) as Hd.
  { rewrite I3, elem_of_union, elem_of_list_to_set. by left. }
  apply elem_of_dom in Hd as [v Hv]. unfold getString. rewrite Hv. simpl.
  by apply (I1 n v).
Qed.

Lemma returns_bind_with {A B : Type} (m : M A) (k : A -> M B)
    (Q : A -> Prop) (P : B -> Prop) :
  returns m Q -> (forall a, Q a -> returns (k a) P) -> returns (bind m k) P.
Proof.
  intros Hm Hk w. unfold bind. specialize (Hm w).
  destruct (m w) as [[a|msg] w1]; [by apply Hk|done].
Qed.

Lemma returns_any {A : Type} (m : M A) : returns m (fun _ => True).
Proof. intros w. by destruct (m w) as [[a|msg] w1]. Qed.

Lemma makeTemplateFileToCompileFromFile_fnPrefixed (tplPath : string) (data : DataT)
    (funcs : FuncMap) (html : bool) :
  returns (makeTemplateFileToCompileFromFile tplPath data funcs html)
          (fun r => snd r = None -> fnPrefixedFile (fst r)).
Proof.
  unfold makeTemplateFileToCompileFromFile.
  apply returns_bind. intros [content [e|]]; [by apply returns_ret|].
  destruct (if html then _ else _) as [treeNames [e|]]; [by apply returns_ret|].
  intros w. unfold bind, rangeMap, ret. cbn. intros _.
  apply (loaded_file_fnPrefixed _ _ _ treeNames); [|done..].
  apply shuffle_Permutation.
Qed.

Lemma prepare_loop_fnPrefixed (tplsPath : list string) (t : TemplateToCompile) :
  Forall fnPrefixedFile (files t) ->
  returns (prepare_loop t tplsPath)
          (fun r => snd r = None -> Forall fnPrefixedFile (files (fst r))).
Proof.
  revert t. induction tplsPath as [|p rest IH]; intros t Ht; simpl.
  - by apply returns_ret.
  - eapply returns_bind_with; [apply makeTemplateFileToCompileFromFile_fnPrefixed|].
    intros [fileTpl [e|]] Hf; [by apply returns_ret|].
    apply IH. cbn [files]. apply Forall_app. split; [done|].
    apply Forall_singleton. by apply Hf.
Qed.

Lemma prepare_fnPrefixed (t : TemplateToCompile) :
  Forall fnPrefixedFile (files t) ->
  returns (prepare t) (fun r => snd r = None -> Forall fnPrefixedFile (files (fst r))).
Proof.
  intros Ht. unfold prepare. apply returns_bind.
  intros [tplsPath [e|]]; [by apply returns_ret|].
  by apply prepare_loop_fnPrefixed.
Qed.

Lemma prepare_all_fnPrefixed (ts : list TemplateToCompile) :
  fnPrefixedTemplates ts ->
  returns (prepare_all ts) (fun r => snd r = None -> fnPrefixedTemplates (fst r)).
Proof.
  induction ts as [|t ts IH]; intros Hts; simpl.
  - by apply returns_ret.
  - apply Forall_cons in Hts as [Ht Hts].
    eapply returns_bind_with; [by apply prepare_fnPrefixed|].
    intros [t' [e|]] Ht'; [by apply returns_ret|].
    eapply returns_bind_with; [by apply IH|].
    intros [rest' err] Hrest. apply returns_ret. cbn [fst snd]. intros ->.
    apply Forall_cons. split; [by apply Ht'|by apply Hrest].
Qed.

Lemma convertConfig_fnPrefixed (conf : Configuration) :
  fnPrefixedTemplates (convertConfigToTemplatesToCompile conf).
Proof.
  unfold convertConfigToTemplatesToCompile.
  assert (forall l acc, fnPrefixedTemplates acc ->
            fnPrefixedTemplates
              (foldl (fun ret t => ret ++ [makeTemplateToCompileNew t]) acc l)) as Hgen.
  { induction l as [|t l IH]; intros acc Hacc; simpl; [done|].
    apply IH. apply Forall_app. split; [done|].
    apply Forall_singleton. constructor. }
  apply Hgen. constructor.
Qed.

(** X18: one compile request leaves the shared program in a state that a
    session of calls with "fn" base names reaches: what is proved of sessions
    holds of the program of every compile request. *)
Lemma convertTemplates_session (varName : string) (config : Configuration) :
  returns (Compile (NewCompiledTemplatesProgram varName) config)
          (fun r => exists ks, forallb fnBased ks = true /\
                      snd (fst r) = snd (session varName ks)).
Proof.
  assert (forall c, reachedFrom (NewCompiledTemplatesProgram varName) c ->
            exists ks, forallb fnBased ks = true /\ c = snd (session varName ks)) as Hs.
  { intros c (ks & Hks & ->). exists ks. by rewrite session_run. }
  unfold Compile.
  apply returns_bind. intros [config1 [e|]].
  { apply returns_ret. apply Hs, reachedFrom_refl. }
  eapply returns_bind_with.
  { unfold getTemplatesToCompile. apply prepare_all_fnPrefixed, convertConfig_fnPrefixed. }
  intros [tpls [e|]] Htpls.
  { apply returns_ret. apply Hs, reachedFrom_refl. }
  specialize (Htpls eq_refl). cbn [fst] in Htpls.
  unfold compileTemplates.
  pose proof (convertTemplates_reached (NewCompiledTemplatesProgram varName) tpls Htpls)
    as Hr.
  destruct (convertTemplates (NewCompiledTemplatesProgram varName) tpls)
    as [[c1 tpls1] [e|]]; cbn [fst snd] in Hr.
  - intros w. unfold bind, ret. cbn. by apply Hs.
  - intros w. unfold bind.
    destruct (generateProgram c1 (OutPkg config1) tpls1 w) as [[program|msg] w1];
      cbn; [by apply Hs|done].
Qed.

End RequestFacts.
(** ** Facts about the small helpers *)

Section HelperFacts.
Context `{Collaborators}.

(** X1: [names] returns the keys of [tplsTree], each once, in ascending
    order of [sort.Strings]; the list is the same whatever the order in which
    the walk over the map collected the keys. *)
Theorem names_sorted_keys (f : TemplateFileToCompile) :
  Sorted String.le (names f) /\
  NoDup (names f) /\
  (forall n, n ∈ names f <-> is_Some (tplsTree f !! n)) /\
  length (names f) = size (tplsTree f) /\
  (forall keys, keys ≡ₚ (map_to_list (tplsTree f)).*1 ->
     merge_sort String.le keys = names f).
Proof.
  unfold names. split_and!.
  - apply (Sorted_merge_sort String.le).
  - rewrite merge_sort_Permutation. apply NoDup_fst_map_to_list.
  - intros n. rewrite merge_sort_Permutation, list_elem_of_fmap. split.
    + intros ([k v] & -> & Hkv). apply elem_of_map_to_list in Hkv. eauto.
    + intros [v Hv]. exists (n, v). split; [done|]. by apply elem_of_map_to_list.
  - by rewrite merge_sort_Permutation, length_fmap, length_map_to_list.
  - intros keys Hp.
    apply (Sorted_unique String.le); try apply (Sorted_merge_sort String.le).
    by rewrite !merge_sort_Permutation.
Qed.

Lemma cleanTplName_replaceByte (s : string) :
  cleanTplName s = Go.replaceByte "." "_" s.
Proof. reflexivity. Qed.

Lemma cleanTplName_cons (a : ascii) (s : string) :
  cleanTplName (String a s) = String (cleanByte a) (cleanTplName s).
Proof.
  rewrite !cleanTplName_replaceByte. cbn [Go.replaceByte]. unfold cleanByte.
  by destruct (Ascii.eqb a ".").
Qed.

Lemma cleanByte_idemp (a : ascii) : cleanByte (cleanByte a) = cleanByte a.
Proof. unfold cleanByte. by destruct (Ascii.eqb a ".") eqn:E; [|rewrite E]. Qed.

(** X2: [cleanTplName] works byte by byte: the result has the length of the
    name, every "." has become "_" and every other byte is kept in place, so
    the result holds no "."; cleaning a clean name changes nothing. *)
Theorem cleanTplName_bytes (s : string) :
  String.length (cleanTplName s) = String.length s /\
  (forall i, String.get i (cleanTplName s) = cleanByte <$> String.get i s) /\
  (forall i, String.get i (cleanTplName s) <> Some "."%char) /\
  cleanTplName (cleanTplName s) = cleanTplName s.
Proof.
  induction s as [|a s (IH1 & IH2 & IH3 & IH4)]; [by split_and!; try intros [|i]|].
  rewrite !cleanTplName_cons, cleanByte_idemp, IH4.
  split_and!; [simpl; by rewrite IH1| | |done].
  - intros [|i]; [done|]. apply IH2.
  - intros [|i]; [|apply IH3]. simpl. unfold cleanByte.
    destruct (Ascii.eqb a ".") eqn:E; [done|].
    intros [= ->]. done.
Qed.

(** *** The text of a package clause *)

Lemma prefix_app_long (s x t : string) :
  String.length s <= String.length x ->
  String.prefix s (x +:+ t) = String.prefix s x.
Proof.
  revert x. induction s as [|a s IH]; intros x Hl; [by destruct x, t|].
  destruct x as [|b x]; [simpl in Hl; lia|].
  change (String b x +:+ t) with (String b (x +:+ t)). simpl.
  destruct (ascii_dec a b); [|done]. apply IH. simpl in Hl. lia.
Qed.

Lemma index_of_prefix (s x : string) :
  String.prefix s x = true -> String.index 0 s x = Some 0.
Proof.
  destruct x as [|b x]; cbn [String.index].
  - by destruct s.
  - by intros ->.
Qed.

(** The first place of [s] in a text is where it is in the text cut after
    that place. *)
Lemma index_first_app (s pre t : string) :
  String.index 0 s (pre +:+ s) = Some (String.length pre) ->
  String.index 0 s (pre +:+ s +:+ t) = Some (String.length pre).
Proof.
  induction pre as [|a pre IH].
  - intros _. change ("" +:+ s +:+ t) with (s +:+ t).
    apply index_of_prefix, prefix_app.
  - change (String a pre +:+ s) with (String a (pre +:+ s)).
    change (String a pre +:+ s +:+ t) with (String a (pre +:+ s +:+ t)).
    cbn [String.index String.length].
    pose proof (prefix_app_long s (String a (pre +:+ s)) t) as Hp.
    change (String a (pre +:+ s) +:+ t) with (String a ((pre +:+ s) +:+ t)) in Hp.
    rewrite string_app_assoc in Hp. rewrite Hp.
    2:{ cbn [String.length]. rewrite string_app_length. lia. }
    destruct (String.prefix s (String a (pre +:+ s))); [done|].
    destruct (String.index 0 s (pre +:+ s)) as [n|] eqn:E; [|done].
    intros [= ->]. by rewrite IH.
Qed.

Lemma sliceFrom_app (a b : string) : Go.sliceFrom (String.length a) (a +:+ b) = b.
Proof. induction a as [|x a IH]; [by destruct b|apply IH]. Qed.

Lemma substring_app (a b : string) :
  String.substring 0 (String.length a) (a +:+ b) = a.
Proof.
  induction a as [|x a IH]; [by destruct b|].
  change (String x a +:+ b) with (String x (a +:+ b)). simpl. by rewrite IH.
Qed.

Lemma index_byte_cons (c a : ascii) (x : string) :
  String.index 0 (String c "") (String a x)
  = if ascii_dec c a then Some 0 else S <$> String.index 0 (String c "") x.
Proof.
  cbn [String.index String.prefix]. destruct (ascii_dec c a); [by destruct x|].
  by destruct (String.index 0 (String c "") x).
Qed.

(** The first place of a byte that ends a text without it. *)
Lemma index_byte_app (c : ascii) (x t : string) :
  String.index 0 (String c "") x = None ->
  String.index 0 (String c "") (x +:+ String c t) = Some (String.length x).
Proof.
  induction x as [|a x IH].
  - intros _. change ("" +:+ String c t) with (String c t).
    rewrite index_byte_cons. by destruct (ascii_dec c c).
  - change (String a x +:+ String c t) with (String a (x +:+ String c t)).
    rewrite !index_byte_cons. destruct (ascii_dec c a); [done|].
    destruct (String.index 0 (String c "") x); [done|].
    intros _. by rewrite IH.
Qed.

Lemma index_byte_sliceFrom (c : ascii) (n : nat) (s : string) :
  String.index 0 (String c "") s = None ->
  String.index 0 (String c "") (Go.sliceFrom n s) = None.
Proof.
  revert n. induction s as [|a s IH]; intros [|n]; try done.
  rewrite index_byte_cons. destruct (ascii_dec c a); [done|].
  destruct (String.index 0 (String c "") s); [done|]. intros _. by apply IH.
Qed.

Lemma index_nl_clause (pkg : string) :
  String.index 0 nl pkg = None -> String.index 0 nl ("package " +:+ pkg) = None.
Proof.
  intros Hn. unfold nl in *.
  change ("package " +:+ pkg)
    with (String "p" (String "a" (String "c" (String "k" (String "a"
            (String "g" (String "e" (String " " pkg)))))))).
  rewrite !index_byte_cons. cbn. by rewrite Hn.
Qed.

(** X3: on a text whose first "package" starts the package clause,
    [LookupPackageNameFromStr] returns the name between "package " and the end
    of that line. *)
Theorem LookupPackageNameFromStr_clause (pre pkg rest : string) (w : World) :
  String.index 0 "package" (pre +:+ "package") = Some (String.length pre) ->
  String.index 0 nl pkg = None ->
  String.index 0 "package " pkg = None ->
  LookupPackageNameFromStr (pre +:+ "package " +:+ pkg +:+ nl +:+ rest) w
  = (Done pkg, w).
Proof.
  intros Hpre Hnl Hpk. unfold LookupPackageNameFromStr.
  change (pre +:+ "package " +:+ pkg +:+ nl +:+ rest)
    with (pre +:+ "package" +:+ (" " +:+ pkg +:+ nl +:+ rest)).
  rewrite (index_first_app _ _ _ Hpre), sliceFrom_app.
  change ("package" +:+ (" " +:+ pkg +:+ nl +:+ rest))
    with ("package " +:+ pkg +:+ nl +:+ rest).
  rewrite <- (string_app_assoc "package " pkg).
  unfold nl at 2. change (String "010" "" +:+ rest) with (String "010"%char rest).
  unfold nl at 1.
  rewrite (index_byte_app _ _ _ (index_nl_clause _ Hnl)), substring_app.
  unfold splitSecond.
  rewrite (index_of_prefix _ _ (prefix_app "package " pkg)).
  change (0 + String.length "package ") with (String.length "package ").
  by rewrite sliceFrom_app, Hpk.
Qed.

(** X4: a text without a newline makes [LookupPackageNameFromStr] panic,
    whether or not it holds a package clause: a slice bound is the -1 of a
    failed [strings.Index]. *)
Theorem LookupPackageNameFromStr_no_newline (gocode : string) (w : World) :
  String.index 0 nl gocode = None ->
  exists msg, LookupPackageNameFromStr gocode w = (Panicked msg, w).
Proof.
  intros Hnl. unfold LookupPackageNameFromStr.
  destruct (String.index 0 "package" gocode) as [i|]; [|by eexists].
  pose proof (index_byte_sliceFrom _ i _ Hnl) as E. fold nl in E. rewrite E.
  by eexists.
Qed.

End HelperFacts.

(** ** Further facts about the shared program *)

Section ProgramFacts.
Context `{Collaborators}.

Lemma isCollidingIdent_decide (c : CompiledTemplatesProgram) (x : string) :
  isCollidingIdent c x = bool_decide (x ∈ importNames c ++ idents c).
Proof.
  destruct (isCollidingIdent c x) eqn:E; symmetry.
  - apply bool_decide_eq_true. apply isCollidingIdent_true in E.
    by apply elem_of_app.
  - apply bool_decide_eq_false. apply isCollidingIdent_false in E.
    rewrite elem_of_app. tauto.
Qed.

(** X5: the program [NewCompiledTemplatesProgram] returns: the imports of
    "io" and of the parse package, in that order, and the reserved
    identifiers "t", "w", "data", "indata", the registry variable and the two
    aliases.  The aliases are "io" and "parse", unless the registry variable
    has that very name: the alias is then prefixed with "alias" and written
    on the import record. *)
Theorem NewCompiledTemplatesProgram_start (v : string) :
  quote "io" <> quote parsePkgPath ->
  NewCompiledTemplatesProgram v =
  {| varName := v;
     imports :=
       [{| ImportSpec_Name := if bool_decide (v = "io") then Some "aliasio" else None;
           ImportSpec_Path := quote "io" |};
        {| ImportSpec_Name := if bool_decide (v = "parse") then Some "aliasparse" else None;
           ImportSpec_Path := quote parsePkgPath |}];
     funcs := [];
     idents := ["t"; "w"; "data"; "indata"; v;
                if bool_decide (v = "io") then "aliasio" else "io";
                if bool_decide (v = "parse") then "aliasparse" else "parse"];
     builtinTexts := ∅ |}.
Proof.
  intros Hq. unfold NewCompiledTemplatesProgram, bareProgram, reservedIdents.
  unfold addImport at 2. cbn [imports findImport].
  change (Go.Base "io") with "io".
  rewrite isCollidingIdent_unnamed_import, isCollidingIdent_decide.
  cbn [importNames imports omap idents app varName funcs builtinTexts].
  rewrite (bool_decide_ext _ (v = "io")).
  2:{ simpl. rewrite !elem_of_cons, elem_of_nil.
      split; [intros [|[|[|[|[|[]]]]]]; by try discriminate|intros ->; tauto]. }
  unfold addImport.
  change (Go.Base parsePkgPath) with "parse".
  case_bool_decide as Hio; cbn [snd imports findImport ImportSpec_Path ImportSpec_Name];
    unfold strEqb; rewrite (bool_decide_eq_false_2 _ Hq);
    rewrite isCollidingIdent_unnamed_import, isCollidingIdent_decide;
    cbn [importNames imports omap idents app varName funcs builtinTexts
         ImportSpec_Name mbind option_bind];
    rewrite (bool_decide_ext _ (v = "parse"))
      by (simpl; rewrite !elem_of_cons, elem_of_nil;
          split; [intros [|[|[|[|[|[|[]]]]]]]; by try discriminate|intros ->; tauto]);
    by case_bool_decide.
Qed.

Lemma addImport_again (c : CompiledTemplatesProgram) (p : string) :
  addImport (snd (addImport c p)) p = addImport c p.
Proof.
  pose proof (addImport_cases c p) as L. destruct (addImport c p) as [a c1].
  cbn [snd]. destruct L as [[Hf ->]|(Hf & Ha & Hi & _)].
  - unfold addImport. by rewrite Hf.
  - unfold addImport. rewrite Hi, (findImport_snoc_same _ _ _ _ Hf).
    subst a. by destruct (isCollidingIdent c (Go.Base p)).
Qed.

(** X6: [getDataQualifier] imports the package of the data type as
    [addImport] does and qualifies the type name with the alias returned,
    behind a "*" for a pointer; asked again, it returns the same qualifier and
    leaves the program as it is. *)
Theorem getDataQualifier_spec (c : CompiledTemplatesProgram)
    (dataConf : DataConfiguration) :
  let '(q, c1) := getDataQualifier c dataConf in
  c1 = snd (addImport c (PkgPath dataConf)) /\
  q = (if IsPtr dataConf then "*" else "")
      +:+ fst (addImport c (PkgPath dataConf)) +:+ "." +:+ DataTypeName dataConf /\
  getDataQualifier c1 dataConf = (q, c1).
Proof.
  unfold getDataQualifier.
  pose proof (addImport_again c (PkgPath dataConf)) as Ha.
  destruct (addImport c (PkgPath dataConf)) as [a c1]. cbn [fst snd] in *.
  rewrite Ha. by destruct (IsPtr dataConf).
Qed.

(** *** The import records *)

Lemma importedPath_elem (c : CompiledTemplatesProgram) (p : string) :
  importedPath c p = true <-> quote p ∈ importPaths c.
Proof.
  unfold importedPath, importPaths. rewrite existsb_exists, list_elem_of_fmap.
  split.
  - intros (i & Hi & He). apply strEqb_true in He. exists i.
    split; [done|by apply list_elem_of_In].
  - intros (i & He & Hi). exists i. split; [by apply list_elem_of_In|].
    by apply strEqb_true.
Qed.

Lemma addImport_paths (c : CompiledTemplatesProgram) (p : string) :
  importPaths (snd (addImport c p))
  = if importedPath c p then importPaths c else importPaths c ++ [quote p].
Proof.
  pose proof (addImport_cases c p) as L. destruct (addImport c p) as [a c1].
  cbn [snd]. destruct L as [[Hf ->]|(Hf & _ & Hi & _)].
  - destruct (importedPath c p) eqn:E; [done|].
    unfold importedPath in E. apply (findImport_None _ (Go.Base p)) in E. congruence.
  - apply findImport_None in Hf. unfold importedPath. rewrite Hf.
    unfold importPaths. by rewrite Hi, fmap_app.
Qed.

Lemma exec_paths (k : call) (c : CompiledTemplatesProgram) :
  importPaths (snd (exec k c))
  = match k with
    | CallAddImport p =>
      if importedPath c p then importPaths c else importPaths c ++ [quote p]
    | _ => importPaths c
    end.
Proof.
  destruct k as [p|b|n|t|i g]; cbn [exec]; try done.
  - rewrite <- addImport_paths. by destruct (addImport c p).
  - unfold addBuiltintText. by destruct (builtinTexts c !! t).
Qed.

Lemma run_paths (ks : list call) (c : CompiledTemplatesProgram) :
  NoDup (importPaths c) ->
  NoDup (importPaths (snd (run ks c))) /\
  forall q, q ∈ importPaths (snd (run ks c)) <->
            q ∈ importPaths c \/ exists p, CallAddImport p ∈ ks /\ q = quote p.
Proof.
  revert c. induction ks as [|k ks IH]; intros c Hnd; cbn [run].
  - split; [done|]. intros q. split; [by left|].
    intros [?|(p & Hp & _)]; [done|]. by apply elem_of_nil in Hp.
  - pose proof (exec_paths k c) as Hk. destruct (exec k c) as [r c1]. cbn [snd] in Hk.
    assert (NoDup (importPaths c1) /\
            forall q, q ∈ importPaths c1 <->
                      q ∈ importPaths c \/ exists p, k = CallAddImport p /\ q = quote p)
      as [Hnd1 Hin1].
    { rewrite Hk. destruct k as [p|b|n|t|i g];
        try (split; [done|]; intros q; split; [by left|];
             by intros [?|(p & ? & _)]).
      destruct (importedPath c p) eqn:E.
      - split; [done|]. intros q. split; [by left|].
        intros [?|(p' & [= <-] & ->)]; [done|]. by apply importedPath_elem.
      - split.
        + apply NoDup_app. split_and!; [done| |apply NoDup_singleton].
          intros q Hq ->%list_elem_of_singleton.
          apply importedPath_elem in Hq. congruence.
        + intros q. rewrite elem_of_app, list_elem_of_singleton. split.
          * intros [?| ->]; [by left|right; eauto].
          * intros [?|(p' & [= <-] & ->)]; [by left|by right]. }
    destruct (IH c1 Hnd1) as [Hnd2 Hin2].
    destruct (run ks c1) as [log c2]. cbn [snd] in *.
    split; [done|]. intros q. rewrite Hin2, Hin1. split.
    + intros [[?|(p & -> & ->)]|(p & Hp & ->)]; [by left|right..].
      * exists p. split; [constructor|done].
      * exists p. split; [by constructor|done].
    + intros [?|(p & Hp & ->)]; [by left; left|].
      apply elem_of_cons in Hp as [<-|Hp]; [left; right; eauto|right; eauto].
Qed.

Lemma generateImportStmt_lines (c : CompiledTemplatesProgram) :
  generateImportStmt c = "import (" +:+ nl +:+ joinS (importLine <$> imports c) +:+ ")".
Proof.
  unfold generateImportStmt.
  rewrite (foldl_appends _ importLine).
  - by rewrite !string_app_assoc.
  - intros acc i. unfold importLine.
    destruct (ImportSpec_Name i); by rewrite !string_app_assoc.
Qed.

(** X7: over one compile request the import records carry exactly the paths
    handed to [addImport] (by the constructor or later), each path once, in
    the order of their first call; [generateImportStmt] writes one line per
    record in that order, between "import (" and ")", the alias before the
    path when the record has one. *)
Theorem imports_listed_once (v : string) (ks : list call) :
  let c := snd (session v ks) in
  NoDup (importPaths c) /\
  (forall q, q ∈ importPaths c <->
             exists p, CallAddImport p ∈ initialCalls ++ ks /\ q = quote p) /\
  generateImportStmt c
  = "import (" +:+ nl +:+ joinS (importLine <$> imports c) +:+ ")".
Proof.
  cbn zeta. unfold session.
  destruct (run_paths (initialCalls ++ ks) (bareProgram v)) as [Hnd Hin].
  { constructor. }
  split_and!; [done| |apply generateImportStmt_lines].
  intros q. rewrite Hin. split; [|by right].
  intros [Hq|?]; [|done]. by apply elem_of_nil in Hq.
Qed.

(** *** What the calls never undo *)

Lemma exec_grows (k : call) (c : CompiledTemplatesProgram) :
  varName (snd (exec k c)) = varName c /\
  (exists l, imports (snd (exec k c)) = imports c ++ l) /\
  (exists l, idents (snd (exec k c)) = idents c ++ l) /\
  builtinTexts c ⊆ builtinTexts (snd (exec k c)) /\
  length (funcs (snd (exec k c)))
  = length (funcs c) + length (createdOf [k]) /\
  (isMethod k = true ->
   funcs (snd (exec k c)) = funcs c ++ (parseFuncDecl <$> createdOf [k])).
Proof.
  destruct k as [p|b|n|t|i g]; cbn [exec].
  - pose proof (addImport_cases c p) as L. destruct (addImport c p) as [a c1].
    cbn [snd createdOf omap].
    destruct L as [[_ ->]|(_ & _ & -> & -> & -> & -> & ->)];
      (split_and!; [done|eauto using app_nil_r..|done|simpl; lia|by rewrite app_nil_r]).
  - cbn. split_and!; [done|exists []; by rewrite app_nil_r|eauto|done|lia|
                      by rewrite app_nil_r].
  - cbn. split_and!; [done|exists []; by rewrite app_nil_r..|done|
                      rewrite length_app; simpl; lia|done].
  - unfold addBuiltintText. destruct (builtinTexts c !! t) eqn:E; cbn;
      (split_and!; [done|exists []; by rewrite app_nil_r..| |lia|by rewrite app_nil_r]);
      [done|by apply insert_subseteq].
  - cbn. split_and!; [done|exists []; by rewrite app_nil_r..|done| |done].
    rewrite length_alter. lia.
Qed.

Lemma createdOf_cons (k : call) (ks : list call) :
  createdOf (k :: ks) = createdOf [k] ++ createdOf ks.
Proof. unfold createdOf. simpl. by destruct k. Qed.

Lemma run_grows (ks : list call) (c : CompiledTemplatesProgram) :
  varName (snd (run ks c)) = varName c /\
  (exists l, imports (snd (run ks c)) = imports c ++ l) /\
  (exists l, idents (snd (run ks c)) = idents c ++ l) /\
  builtinTexts c ⊆ builtinTexts (snd (run ks c)) /\
  length (funcs (snd (run ks c))) = length (funcs c) + length (createdOf ks) /\
  (forallb isMethod ks = true ->
   funcs (snd (run ks c)) = funcs c ++ (parseFuncDecl <$> createdOf ks)).
Proof.
  revert c. induction ks as [|k ks IH]; intros c; cbn [run].
  - split_and!; [done|exists []; by rewrite app_nil_r..|done|simpl; lia|
                 by rewrite app_nil_r].
  - destruct (exec_grows k c) as (E1 & [l2 E2] & [l3 E3] & E4 & E5 & E6).
    destruct (exec k c) as [r c1]. cbn [snd] in *.
    destruct (IH c1) as (I1 & [m2 I2] & [m3 I3] & I4 & I5 & I6).
    destruct (run ks c1) as [log c2]. cbn [snd] in *.
    rewrite createdOf_cons.
    split_and!.
    + congruence.
    + exists (l2 ++ m2). by rewrite I2, E2, app_assoc.
    + exists (l3 ++ m3). by rewrite I3, E3, app_assoc.
    + by etrans.
    + rewrite I5, E5, length_app. lia.
    + cbn [forallb]. intros [Hk Hks]%andb_true_iff.
      by rewrite (I6 Hks), (E6 Hk), fmap_app, app_assoc.
Qed.

(** X8: no call on the shared program undoes an earlier one: the registry
    variable stays, import records and reserved identifiers are only added at
    the end, every literal keeps its constant, and an identifier that
    collides once collides ever after. *)
Theorem run_only_grows (ks : list call) (c : CompiledTemplatesProgram) :
  let c' := snd (run ks c) in
  varName c' = varName c /\
  (exists l, imports c' = imports c ++ l) /\
  (exists l, idents c' = idents c ++ l) /\
  (forall t n, builtinTexts c !! t = Some n -> builtinTexts c' !! t = Some n) /\
  (forall x, isCollidingIdent c x = true -> isCollidingIdent c' x = true).
Proof.
  cbn zeta. destruct (run_grows ks c) as (E1 & [l2 E2] & [l3 E3] & E4 & _).
  split_and!; [done|eauto..| |].
  - intros t n Ht. by eapply lookup_weaken.
  - intros x. rewrite !isCollidingIdent_true. unfold importNames.
    rewrite E2, E3, omap_app, !elem_of_app. tauto.
Qed.

(** X9: [createFunc] appends one declaration per call and nothing else adds
    or removes one; but for the writes through the pointers it returned, the
    declarations of the program are those of the names handed to it, in the
    order of the calls. *)
Theorem funcs_in_creation_order (ks : list call) (c : CompiledTemplatesProgram) :
  let c' := snd (run ks c) in
  length (funcs c') = length (funcs c) + length (createdOf ks) /\
  (forallb isMethod ks = true ->
   funcs c' = funcs c ++ (parseFuncDecl <$> createdOf ks)).
Proof. cbn zeta. by destruct (run_grows ks c) as (_ & _ & _ & _ & E5 & E6). Qed.

End ProgramFacts.

(** ** Further facts about the loader and the resolver *)

Section LoaderInvariants.
Context `{Collaborators}.

Lemma sameFiles_refl (w : World) : sameFiles w w.
Proof. by repeat split. Qed.

Lemma sameFiles_trans (w1 w2 w3 : World) :
  sameFiles w1 w2 -> sameFiles w2 w3 -> sameFiles w1 w3.
Proof.
  intros (A1 & A2 & A3 & A4 & A5) (B1 & B2 & B3 & B4 & B5).
  unfold sameFiles. split_and!; congruence.
Qed.

Lemma sameFiles_rangeMap {V : Type} (m : gmap string V) (w : World) :
  sameFiles w (snd (rangeMap m w)).
Proof. by repeat split. Qed.

Lemma elem_of_names (f : TemplateFileToCompile) (n : string) :
  n ∈ names f <-> is_Some (tplsTree f !! n).
Proof.
  unfold names. rewrite merge_sort_Permutation, list_elem_of_fmap. split.
  - intros ([k v] & -> & Hkv). apply elem_of_map_to_list in Hkv. eauto.
  - intros [v Hv]. exists (n, v). split; [done|]. by apply elem_of_map_to_list.
Qed.

(** What the loop over the trees of a file leaves, for entries whose names
    differ. *)
Lemma registerTree_fold_spec (mainName : string) (data : DataT) (funcs : FuncMap)
    (entries : list (string * option Tree)) (f : TemplateFileToCompile) :
  NoDup entries.*1 ->
  name (foldl (registerTree mainName data funcs) f entries) = name f /\
  tplsTree (foldl (registerTree mainName data funcs) f entries) = tplsTree f /\
  definedTemplates (foldl (registerTree mainName data funcs) f entries)
  = definedTemplates f ++ filter (fun n => n <> mainName) entries.*1 /\
  (forall n,
     tplsFunc (foldl (registerTree mainName data funcs) f entries) !! n
     = from_option (fun _ => Some (funcBaseName mainName n)) (tplsFunc f !! n)
         ((list_to_map entries : gmap string (option Tree)) !! n)) /\
  (forall n,
     tplsTypeCheck (foldl (registerTree mainName data funcs) f entries) !! n
     = from_option (fun tree => Some (simplifier_TransformTree tree data funcs))
         (tplsTypeCheck f !! n)
         ((list_to_map entries : gmap string (option Tree)) !! n)).
Proof.
  revert f. induction entries as [|[k tree] entries IH]; intros f Hnd.
  - cbn. rewrite app_nil_r. split_and!; try done; intros n; by rewrite lookup_empty.
  - rewrite fmap_cons in Hnd. apply NoDup_cons in Hnd as [Hk Hnd]. cbn [fst] in Hk.
    cbn [foldl].
    destruct (IH (registerTree mainName data funcs f (k, tree)) Hnd)
      as (I1 & I2 & I3 & I4 & I5).
    assert ((list_to_map entries : gmap string (option Tree)) !! k = None) as Hnone
      by by apply not_elem_of_list_to_map_1.
    rewrite I1, I2, I3. rewrite fmap_cons, filter_cons. cbn [fst].
    split_and!.
    + unfold registerTree. by case_bool_decide.
    + unfold registerTree. by case_bool_decide.
    + unfold registerTree. destruct (decide (k <> mainName)) as [Hd|Hd].
      * rewrite bool_decide_eq_true_2 by done. cbn [definedTemplates].
        by rewrite <- app_assoc.
      * by rewrite bool_decide_eq_false_2 by done.
    + intros n. rewrite I4, list_to_map_cons.
      destruct (decide (n = k)) as [->|Hne].
      * rewrite Hnone, lookup_insert_eq. cbn [from_option].
        unfold registerTree, funcBaseName.
        case_bool_decide; cbn [tplsFunc]; by rewrite lookup_insert_eq.
      * rewrite (lookup_insert_ne _ k n) by done. f_equal.
        unfold registerTree.
        case_bool_decide; cbn [tplsFunc]; by rewrite lookup_insert_ne.
    + intros n. rewrite I5, list_to_map_cons.
      destruct (decide (n = k)) as [->|Hne].
      * rewrite Hnone, lookup_insert_eq. cbn [from_option].
        unfold registerTree.
        case_bool_decide; cbn [tplsTypeCheck]; by rewrite lookup_insert_eq.
      * rewrite (lookup_insert_ne _ k n) by done. f_equal.
        unfold registerTree.
        case_bool_decide; cbn [tplsTypeCheck]; by rewrite lookup_insert_ne.
Qed.

Lemma loaded_fold (mainName : string) (data : DataT) (funcs : FuncMap)
    (T : gmap string (option Tree)) (entries : list (string * option Tree)) :
  entries ≡ₚ map_to_list T ->
  (forall n v, T !! n = Some v -> is_Some v) ->
  name (foldl (registerTree mainName data funcs)
          {| name := mainName; tplsTree := T; tplsFunc := ∅; tplsTypeCheck := ∅;
             definedTemplates := [] |} entries) = mainName /\
  loadedFile data funcs
    (foldl (registerTree mainName data funcs)
       {| name := mainName; tplsTree := T; tplsFunc := ∅; tplsTypeCheck := ∅;
          definedTemplates := [] |} entries).
Proof.
  intros Hp HT.
  assert (NoDup entries.*1) as Hnd.
  { rewrite Hp. apply NoDup_fst_map_to_list. }
  assert ((list_to_map entries : gmap string (option Tree)) = T) as Hm.
  { rewrite (list_to_map_proper _ _ Hnd Hp). apply list_to_map_to_list. }
  destruct (registerTree_fold_spec mainName data funcs entries
              {| name := mainName; tplsTree := T; tplsFunc := ∅; tplsTypeCheck := ∅;
                 definedTemplates := [] |} Hnd) as (I1 & I2 & I3 & I4 & I5).
  cbn [name tplsTree tplsFunc tplsTypeCheck definedTemplates] in *.
  split; [done|]. split.
  - by rewrite I2.
  - intros n. rewrite I4, I2, I1, Hm, lookup_empty. by destruct (T !! n).
  - intros n. rewrite I5, I2, Hm, lookup_empty. by destruct (T !! n).
  - rewrite I3, I1. cbn [app]. unfold names. by rewrite I2, merge_sort_Permutation, Hp.
Qed.

Lemma compileTemplate_trees (html : bool) (tname content : string) (funcs : FuncMap) :
  forall n v,
    fst (if html then compileHTMLTemplate tname content funcs
         else compileTextTemplate tname content funcs) !! n = Some v ->
    is_Some v.
Proof.
  destruct html; unfold compileHTMLTemplate, compileTextTemplate;
    destruct (engine_Parse _ _ _ _) as [msg|t]; cbn [fst]; intros n v;
    try (by rewrite lookup_empty); apply probeTemplates_keeps.
Qed.

Lemma makeTemplateFileToCompileFromFile_loaded (tplPath : string) (data : DataT)
    (funcs : FuncMap) (html : bool) (w : World) :
  exists f err w',
    makeTemplateFileToCompileFromFile tplPath data funcs html w = (Done (f, err), w') /\
    sameFiles w w' /\ name f = Go.Base tplPath /\ isLoaderError err = true /\
    (forall e, fs_ReadFile w tplPath = inl e -> err = Some (ErrFS e)) /\
    match err with
    | Some _ => f = emptyFileTpl (Go.Base tplPath) /\ w' = w
    | None => loadedFile data funcs f
    end.
Proof.
  unfold makeTemplateFileToCompileFromFile, bind, ioutil_ReadFile, ret.
  destruct (fs_ReadFile w tplPath) as [e|content]; cbn.
  { eexists _, _, _. split_and!; [done|apply sameFiles_refl|done..| |done].
    by intros ? [= ->]. }
  pose proof (compileTemplate_error html (Go.Base tplPath) content funcs) as Herr.
  pose proof (compileTemplate_trees html (Go.Base tplPath) content funcs) as Htrees.
  destruct (if html then _ else _) as [treeNames [e|]]; cbn in *.
  { eexists _, _, _. by split_and!; [done|apply sameFiles_refl|..]. }
  destruct (loaded_fold (Go.Base tplPath) data funcs treeNames
              (shuffle (default [] (head (mapOrder w))) (map_to_list treeNames)))
    as [Hn Hl]; [apply shuffle_Permutation|done|].
  eexists _, _, _. split_and!; [done| |exact Hn|done..|exact Hl].
  by repeat split.
Qed.

Lemma makeTemplateFileToCompileFromStr_loaded (tname tplContent : string)
    (data : DataT) (funcs : FuncMap) (html : bool) (w : World) :
  exists f err w',
    makeTemplateFileToCompileFromStr tname tplContent data funcs html w
    = (Done (f, err), w') /\
    sameFiles w w' /\ name f = tname /\ isLoaderError err = true /\
    match err with
    | Some _ => f = emptyFileTpl tname /\ w' = w
    | None => loadedFile data funcs f
    end.
Proof.
  unfold makeTemplateFileToCompileFromStr, bind, ret.
  pose proof (compileTemplate_error html tname tplContent funcs) as Herr.
  pose proof (compileTemplate_trees html tname tplContent funcs) as Htrees.
  destruct (if html then _ else _) as [treeNames [e|]]; cbn in *.
  { eexists _, _, _. by split_and!; [done|apply sameFiles_refl|..]. }
  destruct (loaded_fold tname data funcs treeNames
              (shuffle (default [] (head (mapOrder w))) (map_to_list treeNames)))
    as [Hn Hl]; [apply shuffle_Permutation|done|].
  eexists _, _, _. split_and!; [done| |exact Hn|done|exact Hl].
  by repeat split.
Qed.

(** X10: both constructors of a file always return.  With an error (the
    file system's for a file that cannot be read, the parser's otherwise)
    they return the file with its name and nothing else.  Without one the
    file carries its name (the base name of the path, or the name given),
    only trees that are not [nil], for exactly the names that have a tree a
    function base name ("fn" and the main name, then "_" and the name for a
    template other than the main one, cleaned) and the state
    [simplifier.TransformTree] made of the tree, and as defined templates the
    names other than the main one, each once.  They read and never write. *)
Theorem loader_returns_loadedFile (tplPath tname tplContent : string) (data : DataT)
    (funcs : FuncMap) (html : bool) (w : World) :
  (exists f err w',
     makeTemplateFileToCompileFromFile tplPath data funcs html w
     = (Done (f, err), w') /\
     sameFiles w w' /\ name f = Go.Base tplPath /\ isLoaderError err = true /\
     (forall e, fs_ReadFile w tplPath = inl e -> err = Some (ErrFS e)) /\
     match err with
     | Some _ => f = emptyFileTpl (Go.Base tplPath) /\ w' = w
     | None => loadedFile data funcs f
     end) /\
  (exists f err w',
     makeTemplateFileToCompileFromStr tname tplContent data funcs html w
     = (Done (f, err), w') /\
     sameFiles w w' /\ name f = tname /\ isLoaderError err = true /\
     match err with
     | Some _ => f = emptyFileTpl tname /\ w' = w
     | None => loadedFile data funcs f
     end).
Proof.
  split.
  - apply makeTemplateFileToCompileFromFile_loaded.
  - apply makeTemplateFileToCompileFromStr_loaded.
Qed.

Lemma registerTree_fold_tree (mainName : string) (data : DataT) (funcs : FuncMap)
    (entries : list (string * option Tree)) (f : TemplateFileToCompile) :
  tplsTree (foldl (registerTree mainName data funcs) f entries) = tplsTree f.
Proof.
  revert f. induction entries as [|[k tree] entries IH]; intros f; [done|].
  cbn [foldl]. rewrite IH. unfold registerTree. by case_bool_decide.
Qed.

Lemma loadsAs_sameFiles (w w' : World) (data : DataT) (funcs : FuncMap) (html : bool)
    (p : string) (f : TemplateFileToCompile) :
  sameFiles w w' -> loadsAs w' data funcs html p f -> loadsAs w data funcs html p f.
Proof.
  intros (_ & Hr & _) (content & H1 & H2). exists content. by rewrite <- Hr.
Qed.

Lemma failsOn_sameFiles (w w' : World) (funcs : FuncMap) (html : bool)
    (p : string) (e : error) :
  sameFiles w w' -> failsOn w' funcs html p e -> failsOn w funcs html p e.
Proof.
  intros (_ & Hr & _) [(e' & H1 & H2)|(content & H1 & H2)].
  - left. exists e'. by rewrite <- Hr.
  - right. exists content. by rewrite <- Hr.
Qed.

Lemma failsOn_loader (w : World) (funcs : FuncMap) (html : bool) (p : string)
    (e : error) :
  failsOn w funcs html p e -> isLoaderError (Some e) = true.
Proof.
  intros [(e' & _ & ->)|(content & _ & He)]; [done|].
  rewrite <- He. apply compileTemplate_error.
Qed.

(** What the loader makes of one path. *)
Lemma makeTemplateFileToCompileFromFile_outcome (p : string) (data : DataT)
    (funcs : FuncMap) (html : bool) (w : World) :
  exists f err w',
    makeTemplateFileToCompileFromFile p data funcs html w = (Done (f, err), w') /\
    sameFiles w w' /\
    match err with
    | Some e => failsOn w funcs html p e
    | None => loadsAs w data funcs html p f
    end.
Proof.
  unfold makeTemplateFileToCompileFromFile, bind, ioutil_ReadFile, ret.
  destruct (fs_ReadFile w p) as [e|content] eqn:Hr; cbn.
  { eexists _, _, _. split_and!; [done|apply sameFiles_refl|]. left. eauto. }
  pose proof (compileTemplate_trees html (Go.Base p) content funcs) as Htrees.
  change (if html then compileHTMLTemplate (Go.Base p) content funcs
          else compileTextTemplate (Go.Base p) content funcs)
    with (compileTemplate html (Go.Base p) content funcs) in *.
  destruct (compileTemplate html (Go.Base p) content funcs) as [treeNames [e|]] eqn:Hc;
    cbn in *.
  { eexists _, _, _. split_and!; [done|apply sameFiles_refl|]. right.
    exists content. split; [done|]. by rewrite Hc. }
  destruct (loaded_fold (Go.Base p) data funcs treeNames
              (shuffle (default [] (head (mapOrder w))) (map_to_list treeNames)))
    as [Hn Hl]; [apply shuffle_Permutation|done|].
  eexists _, _, _. split_and!; [done|by repeat split|].
  exists content. split_and!; [done| |exact Hn|exact Hl].
  by rewrite registerTree_fold_tree.
Qed.

Lemma prepare_loop_outcome (paths : list string) (t : TemplateToCompile) (w : World) :
  exists t' err w' loaded,
    prepare_loop t paths w = (Done (t', err), w') /\ sameFiles w w' /\
    conf t' = conf t /\ files t' = files t ++ loaded /\
    Forall2 (loadsAs w (Data (conf t)) (FuncsExport (conf t)) (HTML (conf t)))
            (take (length loaded) paths) loaded /\
    match err with
    | Some e =>
      exists p, paths !! length loaded = Some p /\
                failsOn w (FuncsExport (conf t)) (HTML (conf t)) p e
    | None => length loaded = length paths
    end.
Proof.
  revert t w. induction paths as [|p rest IH]; intros t w; cbn [prepare_loop].
  - exists t, None, w, []. rewrite app_nil_r.
    split_and!; [done|apply sameFiles_refl|done|done|constructor|done].
  - unfold bind.
    destruct (makeTemplateFileToCompileFromFile_outcome p (Data (conf t))
                (FuncsExport (conf t)) (HTML (conf t)) w)
      as (f & err & w1 & -> & Hw1 & Hf).
    destruct err as [e|].
    + exists t, (Some e), w1, []. rewrite app_nil_r. unfold ret.
      split_and!; [done..|constructor|]. exists p. by split.
    + destruct (IH {| conf := conf t; files := files t ++ [f] |} w1)
        as (t' & err & w' & loaded & -> & Hw' & Hc & Hfs & Hl & Herr).
      cbn [conf files] in *.
      exists t', err, w', (f :: loaded).
      split_and!; [done|by eapply sameFiles_trans|done| | |].
      * by rewrite Hfs, <- app_assoc.
      * cbn. constructor; [done|].
        eapply Forall2_impl; [exact Hl|]. intros q g. by apply loadsAs_sameFiles.
      * destruct err as [e|].
        -- destruct Herr as (q & Hq & He). exists q. split; [done|].
           by eapply failsOn_sameFiles.
        -- cbn. by rewrite Herr.
Qed.

(** The loop of [prepare]: the files are loaded in the order of the paths,
    up to the first that fails. *)
Lemma prepare_loop_loads (paths : list string) (t : TemplateToCompile) (w : World) :
  exists t' err w' loaded,
    prepare_loop t paths w = (Done (t', err), w') /\ sameFiles w w' /\
    conf t' = conf t /\ files t' = files t ++ loaded /\
    Forall (loadedFile (Data (conf t)) (FuncsExport (conf t))) loaded /\
    name <$> loaded = Go.Base <$> take (length loaded) paths /\
    isLoaderError err = true /\
    match err with
    | Some _ => length loaded < length paths
    | None => length loaded = length paths
    end.
Proof.
  revert t w. induction paths as [|p rest IH]; intros t w; cbn [prepare_loop].
  - exists t, None, w, []. rewrite app_nil_r.
    by split_and!; [done|apply sameFiles_refl|..].
  - unfold bind.
    destruct (makeTemplateFileToCompileFromFile_loaded p (Data (conf t))
                (FuncsExport (conf t)) (HTML (conf t)) w)
      as (f & err & w1 & -> & Hw1 & Hn & He & _ & Hf).
    destruct err as [e|].
    + exists t, (Some e), w1, []. rewrite app_nil_r. unfold ret.
      split_and!; [done..| ]. simpl. lia.
    + destruct (IH {| conf := conf t; files := files t ++ [f] |} w1)
        as (t' & err & w' & loaded & -> & Hw' & Hc & Hfs & Hl & Hns & Herr & Hlen).
      cbn [conf files] in *.
      exists t', err, w', (f :: loaded).
      split_and!; [done|by eapply sameFiles_trans|done| | | |done|].
      * by rewrite Hfs, <- app_assoc.
      * by constructor.
      * cbn. by rewrite Hn, Hns.
      * destruct err; simpl; lia.
Qed.

(** X11: [prepare] always returns, and only reads.  On a malformed pattern
    it appends nothing and returns the discovery error.  Otherwise it appends
    to the files of the entry, in the order of the matches, what the loader
    makes of each matched path: the file of that path as read and parsed.
    It stops at the first path the loader fails on, one that cannot be read
    or that the parser rejects, and returns the loader's error on that path:
    the files of the paths before it stay appended.  Without an error every
    match has its file. *)
Theorem prepare_loads_in_order (t : TemplateToCompile) (w : World) :
  exists t' err w' loaded,
    prepare t w = (Done (t', err), w') /\ sameFiles w w' /\
    conf t' = conf t /\ files t' = files t ++ loaded /\
    Forall (loadedFile (Data (conf t)) (FuncsExport (conf t))) loaded /\
    match fs_Glob w (TemplatesPath (conf t)) with
    | None =>
      loaded = [] /\ isDiscoveryError err = true /\
      err = Some (discoveryError (TemplatesPath (conf t)))
    | Some paths =>
      name <$> loaded = Go.Base <$> take (length loaded) paths /\
      isLoaderError err = true /\
      Forall2 (loadsAs w (Data (conf t)) (FuncsExport (conf t)) (HTML (conf t)))
              (take (length loaded) paths) loaded /\
      match err with
      | Some e =>
        length loaded < length paths /\
        exists p, paths !! length loaded = Some p /\
                  failsOn w (FuncsExport (conf t)) (HTML (conf t)) p e
      | None => length loaded = length paths
      end
    end.
Proof.
  unfold prepare, bind, filepath_Glob.
  destruct (fs_Glob w (TemplatesPath (conf t))) as [paths|].
  - destruct (prepare_loop_outcome paths t w)
      as (t' & err & w' & loaded & -> & Hw & Hc & Hfs & Hl & Herr).
    exists t', err, w', loaded. split_and!; [done..| | | |done|].
    + eapply Forall_forall. intros f Hf.
      apply list_elem_of_lookup in Hf as [j Hj].
      destruct (Forall2_lookup_r _ _ _ _ _ Hl Hj) as (q & _ & content & _ & _ & _ & ?).
      done.
    + clear Herr Hfs. revert Hl. generalize (take (length loaded) paths).
      intros qs Hl. induction Hl as [|q f qs fs (content & _ & _ & Hn & _) _ IH];
        [done|]. by rewrite !fmap_cons, Hn, IH.
    + destruct err as [e|]; [|done]. destruct Herr as (q & _ & He).
      by eapply failsOn_loader.
    + destruct err as [e|]; [|done]. split; [|done].
      destruct Herr as (q & Hq & _). by apply lookup_lt_Some in Hq.
  - eexists t, _, w, []. rewrite app_nil_r. unfold ret.
    split_and!; [done|apply sameFiles_refl|done..| |done].
    apply (prefix_app "Failed to glob the templates: ").
Qed.

Lemma prepare_entry (t : TemplateToCompile) (w : World) :
  exists t' err w',
    prepare t w = (Done (t', err), w') /\ sameFiles w w' /\
    conf t' = conf t /\
    (exists loaded, files t' = files t ++ loaded /\
       Forall (loadedFile (Data (conf t)) (FuncsExport (conf t))) loaded) /\
    (forall e, err = Some e -> isConversionError e = false).
Proof.
  unfold prepare, bind, filepath_Glob.
  destruct (fs_Glob w (TemplatesPath (conf t))) as [paths|].
  - destruct (prepare_loop_loads paths t w)
      as (t' & err & w' & loaded & -> & ? & ? & ? & ? & ? & Herr & ?).
    exists t', err, w'. split_and!; [done..|eauto|].
    intros e ->. by destruct e.
  - eexists t, _, w. unfold ret. split_and!; [done|apply sameFiles_refl|done| |].
    + exists []. by rewrite app_nil_r.
    + by intros e [= <-].
Qed.

Lemma prepare_all_entries (ts : list TemplateToCompile) (w : World) :
  exists ts' err w',
    prepare_all ts w = (Done (ts', err), w') /\ sameFiles w w' /\
    Forall2 (fun t t' =>
               conf t' = conf t /\
               exists loaded, files t' = files t ++ loaded /\
                 Forall (loadedFile (Data (conf t)) (FuncsExport (conf t))) loaded)
            ts ts' /\
    match err with
    | Some e =>
      isConversionError e = false /\
      exists k, k < length ts /\ drop (S k) ts' = drop (S k) ts
    | None => True
    end.
Proof.
  revert w. induction ts as [|t ts IH]; intros w; cbn [prepare_all].
  - exists [], None, w. by split_and!; [done|apply sameFiles_refl|..].
  - unfold bind.
    destruct (prepare_entry t w) as (t' & err & w1 & -> & Hw1 & Hc & Hl & He).
    destruct err as [e|].
    + exists (t' :: ts), (Some e), w1. unfold ret.
      split_and!; [done..| |by apply He|].
      * constructor; [done|]. apply Forall2_same_length_lookup. split; [done|].
        intros i x y Hx Hy. assert (x = y) as -> by congruence.
        split; [done|]. exists []. by rewrite app_nil_r.
      * exists 0. split; [simpl; lia|done].
    + destruct (IH w1) as (ts' & err & w' & -> & Hw' & Hts & Herr).
      exists (t' :: ts'), err, w'. unfold ret.
      split_and!; [done|by eapply sameFiles_trans|by constructor|].
      destruct err as [e|]; [|done]. destruct Herr as (? & k & ? & ?).
      split; [done|]. exists (S k). split; [simpl; lia|done].
Qed.

Lemma convertConfig_map (config : Configuration) :
  convertConfigToTemplatesToCompile config
  = makeTemplateToCompileNew <$> Templates config.
Proof.
  unfold convertConfigToTemplatesToCompile.
  assert (forall l acc,
            foldl (fun ret t => ret ++ [makeTemplateToCompileNew t]) acc l
            = acc ++ (makeTemplateToCompileNew <$> l)) as Hgen.
  { induction l as [|t l IH]; intros acc; cbn; [by rewrite app_nil_r|].
    by rewrite IH, <- app_assoc. }
  apply Hgen.
Qed.

Lemma getTemplatesToCompile_returns (c : CompiledTemplatesProgram)
    (config : Configuration) (w : World) :
  exists tpls err w',
    getTemplatesToCompile c config w = (Done (tpls, err), w') /\ sameFiles w w' /\
    conf <$> tpls = Templates config /\
    (forall e, err = Some e -> isConversionError e = false).
Proof.
  unfold getTemplatesToCompile. rewrite convertConfig_map.
  destruct (prepare_all_entries (makeTemplateToCompileNew <$> Templates config) w)
    as (tpls & err & w' & -> & Hw & Hts & Herr).
  exists tpls, err, w'. split_and!; [done..| |].
  - clear Herr. revert tpls Hts.
    induction (Templates config) as [|tc l IH]; intros tpls Hts.
    + by apply Forall2_nil_inv_l in Hts as ->.
    + rewrite fmap_cons in Hts.
      apply Forall2_cons_inv_l in Hts as (t' & tpls' & [Hc _] & Hts & ->).
      rewrite fmap_cons, Hc. f_equal. by apply IH.
  - intros e ->. by destruct Herr.
Qed.

Lemma preparedEntry_sameFiles (w w' : World) (t : TemplateToCompile) :
  sameFiles w w' -> preparedEntry w' t -> preparedEntry w t.
Proof.
  intros Hw (paths & Hg & Hl). exists paths. split.
  - destruct Hw as (Hg' & _). by rewrite <- Hg'.
  - eapply Forall2_impl; [exact Hl|]. intros q g. by apply loadsAs_sameFiles.
Qed.

Lemma failedEntry_sameFiles (w w' : World) (t : TemplateToCompile) (e : error) :
  sameFiles w w' -> failedEntry w' t e -> failedEntry w t e.
Proof.
  intros Hw [(Hg & Hf & He)|(paths & p & Hg & Hl & Hp & He)].
  - left. destruct Hw as (Hg' & _). by rewrite <- Hg'.
  - right. exists paths, p. split_and!; [|
      eapply Forall2_impl; [exact Hl|]; intros q g; by apply loadsAs_sameFiles|
      done|by eapply failsOn_sameFiles].
    destruct Hw as (Hg' & _). by rewrite <- Hg'.
Qed.

Lemma failedEntry_not_conversion (w : World) (t : TemplateToCompile) (e : error) :
  failedEntry w t e -> isConversionError e = false.
Proof.
  intros [(_ & _ & ->)|(paths & p & _ & _ & _ & He)]; [done|].
  apply failsOn_loader in He. by destruct e.
Qed.

Lemma preparedEntry_loaded (w : World) (t : TemplateToCompile) :
  preparedEntry w t ->
  Forall (loadedFile (Data (conf t)) (FuncsExport (conf t))) (files t).
Proof.
  intros (paths & _ & Hl). apply Forall_forall. intros f Hf.
  apply list_elem_of_lookup in Hf as [j Hj].
  by destruct (Forall2_lookup_r _ _ _ _ _ Hl Hj) as (q & _ & content & _ & _ & _ & ?).
Qed.

Lemma failedEntry_loaded (w : World) (t : TemplateToCompile) (e : error) :
  failedEntry w t e ->
  Forall (loadedFile (Data (conf t)) (FuncsExport (conf t))) (files t).
Proof.
  intros [(_ & -> & _)|(paths & p & _ & Hl & _)]; [constructor|].
  apply Forall_forall. intros f Hf.
  apply list_elem_of_lookup in Hf as [j Hj].
  by destruct (Forall2_lookup_r _ _ _ _ _ Hl Hj) as (q & _ & content & _ & _ & _ & ?).
Qed.

(** [prepare] on an entry that has no file yet. *)
Lemma prepare_fresh (t : TemplateToCompile) (w : World) :
  files t = [] ->
  exists t' err w',
    prepare t w = (Done (t', err), w') /\ sameFiles w w' /\ conf t' = conf t /\
    match err with
    | Some e => failedEntry w t' e
    | None => preparedEntry w t'
    end.
Proof.
  intros Hf. unfold prepare, bind, filepath_Glob.
  destruct (fs_Glob w (TemplatesPath (conf t))) as [paths|] eqn:Hg.
  - destruct (prepare_loop_outcome paths t w)
      as (t' & err & w' & loaded & -> & Hw & Hc & Hfs & Hl & Herr).
    rewrite Hf in Hfs. cbn [app] in Hfs.
    exists t', err, w'. split_and!; [done..|].
    destruct err as [e|].
    + destruct Herr as (p & Hp & He). right. exists paths, p.
      rewrite Hc, Hfs. by split_and!.
    + exists paths. rewrite Hc, Hfs. split; [done|].
      by rewrite Herr, firstn_all in Hl.
  - exists t, (Some (discoveryError (TemplatesPath (conf t)))), w. unfold ret.
    split_and!; [done|apply sameFiles_refl|done|]. by left.
Qed.

(** The loop of [getTemplatesToCompile] over entries that have no file yet:
    the entries before the first that fails are prepared, that one has
    failed with the error returned, and the entries behind it are as they
    were. *)
Lemma prepare_all_outcome (ts : list TemplateToCompile) (w : World) :
  Forall (fun t => files t = []) ts ->
  exists ts' err w',
    prepare_all ts w = (Done (ts', err), w') /\ sameFiles w w' /\
    conf <$> ts' = conf <$> ts /\
    match err with
    | Some e =>
      exists k t,
        ts' !! k = Some t /\ failedEntry w t e /\
        Forall (preparedEntry w) (take k ts') /\
        drop (S k) ts' = drop (S k) ts
    | None => Forall (preparedEntry w) ts'
    end.
Proof.
  revert w. induction ts as [|t ts IH]; intros w Hts; cbn [prepare_all].
  - exists [], None, w. by split_and!; [done|apply sameFiles_refl|..].
  - apply Forall_cons in Hts as [Ht Hts]. unfold bind.
    destruct (prepare_fresh t w Ht) as (t' & err & w1 & -> & Hw1 & Hc & He).
    destruct err as [e|].
    + exists (t' :: ts), (Some e), w1. unfold ret.
      split_and!; [done..|by rewrite !fmap_cons, Hc|].
      exists 0, t'. by split_and!.
    + destruct (IH w1 Hts) as (ts' & err & w' & -> & Hw' & Hcs & Herr).
      exists (t' :: ts'), err, w'. unfold ret.
      split_and!; [done|by eapply sameFiles_trans|by rewrite !fmap_cons, Hc, Hcs|].
      destruct err as [e|].
      * destruct Herr as (k & tk & Hk & Hfail & Hprep & Hdrop).
        exists (S k), tk. split_and!; [done| | |done].
        -- by eapply failedEntry_sameFiles.
        -- cbn [take]. constructor; [done|].
           eapply Forall_impl; [exact Hprep|]. intros x.
           by apply preparedEntry_sameFiles.
      * constructor; [done|].
        eapply Forall_impl; [exact Herr|]. intros x. by apply preparedEntry_sameFiles.
Qed.


(** X12: [getTemplatesToCompile] always returns, and only reads.  The list
    it returns has one entry per template configuration, in the order of the
    configuration and with that configuration, also when it returns an error;
    every file in it is as the loader returned it.  Without an error every
    entry is prepared: its files are those of the paths its pattern matches.
    With an error, the entries before one of them are prepared, that one is
    the entry [prepare] failed on (its pattern is malformed, or the loader
    fails on the first of its matches that has no file) and the error is the
    error of that failure, never one of the conversion; the entries behind
    it have not been prepared: they have no file. *)
Theorem getTemplatesToCompile_entries (c : CompiledTemplatesProgram)
    (config : Configuration) (w : World) :
  exists tpls err w',
    getTemplatesToCompile c config w = (Done (tpls, err), w') /\ sameFiles w w' /\
    conf <$> tpls = Templates config /\
    Forall (fun t => Forall (loadedFile (Data (conf t)) (FuncsExport (conf t)))
                            (files t)) tpls /\
    match err with
    | Some e =>
      isConversionError e = false /\
      exists k t,
        k < length tpls /\ tpls !! k = Some t /\ failedEntry w t e /\
        Forall (preparedEntry w) (take k tpls) /\
        Forall (fun t => files t = []) (drop (S k) tpls)
    | None => Forall (preparedEntry w) tpls
    end.
Proof.
  unfold getTemplatesToCompile. rewrite convertConfig_map.
  destruct (prepare_all_outcome (makeTemplateToCompileNew <$> Templates config) w)
    as (tpls & err & w' & -> & Hw & Hc & Herr).
  { apply Forall_fmap. by apply Forall_true. }
  exists tpls, err, w'. split_and!; [done..| | |].
  - rewrite Hc, <- list_fmap_compose. apply list_fmap_id.
  - destruct err as [e|].
    + destruct Herr as (k & t & Hk & Hfail & Hprep & Hdrop).
      rewrite <- (take_drop_middle tpls k t Hk). apply Forall_app. split.
      * eapply Forall_impl; [exact Hprep|]. intros x. apply preparedEntry_loaded.
      * constructor; [by eapply failedEntry_loaded|].
        rewrite Hdrop, <- fmap_drop. apply Forall_fmap. apply Forall_true.
        intros x. constructor.
    + eapply Forall_impl; [exact Herr|]. intros x. apply preparedEntry_loaded.
  - destruct err as [e|]; [|done].
    destruct Herr as (k & t & Hk & Hfail & Hprep & Hdrop).
    split; [by eapply failedEntry_not_conversion|].
    exists k, t. split_and!; [by apply lookup_lt_Some in Hk|done..|].
    rewrite Hdrop, <- fmap_drop. apply Forall_fmap. by apply Forall_true.
Qed.

(** *** The package name *)

Lemma LookupPackageName_reads (someDir : string) (w : World) :
  snd (LookupPackageName someDir w) = w.
Proof.
  unfold LookupPackageName, bind, os_Stat, filepath_Glob, ioutil_ReadFile, ret.
  destruct (os_IsNotExist _); [done|].
  destruct (fs_Glob w _) as [[|f files]|]; cbn; [done| |done].
  destruct (fs_ReadFile w f) as [e|b]; cbn; [done|].
  unfold LookupPackageNameFromStr, panic, ret.
  destruct (String.index 0 "package" b); [|done].
  destruct (String.index 0 nl _); [|done].
  by destruct (splitSecond _ _).
Qed.


(** X14: with no package name configured and an output directory that holds
    no Go file, [updateOutPkg] takes the base name of the directory as the
    package name.  An error of [os.Stat] other than "does not exist" is
    ignored. *)
Theorem updateOutPkg_empty_dir (config : Configuration) (w : World) :
  OutPkg config = "" ->
  os_IsNotExist (ErrFS <$> fs_Stat w (filepath_Dir (OutPath config))) = false ->
  fs_Glob w (filepath_Dir (OutPath config) +:+ "/*.go") = Some [] ->
  updateOutPkg config w
  = (Done ({| OutPath := OutPath config;
              OutPkg := Go.Base (filepath_Dir (OutPath config));
              Templates := Templates config |}, None), w).
Proof.
  intros Hp Hs Hg. unfold updateOutPkg. rewrite bool_decide_eq_true_2 by done.
  unfold bind, LookupPackageName, bind, os_Stat, filepath_Glob.
  by rewrite Hs, Hg.
Qed.

End LoaderInvariants.

(** ** Further facts about the conversion and about [Compile] *)

Section ConversionFacts.
Context `{Collaborators}.

Lemma sameTemplates_refl (f : TemplateFileToCompile) : sameTemplates f f.
Proof. by repeat split. Qed.

Lemma funcsReserved_mono (c c' : CompiledTemplatesProgram) (f : TemplateFileToCompile)
    (l : list string) :
  idents c' = idents c ++ l -> funcsReserved c f -> funcsReserved c' f.
Proof.
  intros Hi Hf n Hn. destruct (Hf n Hn) as (x & Hx & Hl).
  exists x. split; [|done]. rewrite Hi. apply elem_of_app. by left.
Qed.

(** One turn of the innermost loop of [convertTemplates]. *)
Lemma convertName_frame (c : CompiledTemplatesProgram) (t : TemplateToCompile)
    (f : TemplateFileToCompile) (n : string) :
  let '(c', f', err) := convertName c t f n in
  name f' = name f /\ tplsTree f' = tplsTree f /\
  tplsTypeCheck f' = tplsTypeCheck f /\ definedTemplates f' = definedTemplates f /\
  (forall e, err = Some e -> isConversionError e = true) /\
  exists x l,
    idents c' = idents c ++ x :: l /\
    tplsFunc f' = <[n := snakeToCamel x]> (tplsFunc f).
Proof.
  unfold convertName.
  pose proof (makeFuncName_frame c (getString (tplsFunc f) n)) as [Hi _].
  destruct (makeFuncName c (getString (tplsFunc f) n)) as [x c1].
  cbn [fst snd] in Hi.
  cbn [tplsFunc tplsTree tplsTypeCheck name definedTemplates].
  destruct (convertTplTree _ _ _ _ _ _ c1) as [requests err].
  destruct (run_grows (callOf <$> requests) c1) as (_ & _ & [l Hl] & _).
  split_and!; [done..| |].
  - intros e. by destruct err; intros [= <-].
  - exists x, l. split.
    + by rewrite Hl, Hi, <- app_assoc.
    + unfold getString. by rewrite lookup_insert_eq, insert_insert_eq.
Qed.

Lemma convertNames_frame (c : CompiledTemplatesProgram) (t : TemplateToCompile)
    (ns : list string) (f : TemplateFileToCompile) :
  NoDup ns ->
  let '(c', f', err) := convertNames c t f ns in
  name f' = name f /\ tplsTree f' = tplsTree f /\
  tplsTypeCheck f' = tplsTypeCheck f /\ definedTemplates f' = definedTemplates f /\
  (forall e, err = Some e -> isConversionError e = true) /\
  (exists l, idents c' = idents c ++ l) /\
  (forall m, m ∉ ns -> tplsFunc f' !! m = tplsFunc f !! m) /\
  (err = None ->
   forall m, m ∈ ns ->
     exists x, x ∈ idents c' /\ tplsFunc f' !! m = Some (snakeToCamel x)).
Proof.
  revert c f. induction ns as [|n ns IH]; intros c f Hnd; cbn [convertNames].
  - split_and!; try done.
    + exists []. by rewrite app_nil_r.
    + intros _ m Hm. by apply elem_of_nil in Hm.
  - apply NoDup_cons in Hnd as [Hn Hnd].
    pose proof (convertName_frame c t f n) as L.
    destruct (convertName c t f n) as [[c1 f1] err1].
    destruct L as (L1 & L2 & L3 & L4 & L5 & x & l & Li & Lf).
    destruct err1 as [e|].
    + split_and!; try done.
      * eauto.
      * intros m Hm. rewrite Lf, lookup_insert_ne; [done|].
        intros ->. apply Hm. constructor.
    + specialize (IH c1 f1 Hnd).
      destruct (convertNames c1 t f1 ns) as [[c2 f2] err2].
      destruct IH as (I1 & I2 & I3 & I4 & I5 & [l' Ii] & I6 & I7).
      split_and!; [congruence..|done| | |].
      * exists ((x :: l) ++ l'). by rewrite Ii, Li, <- app_assoc.
      * intros m Hm. rewrite I6, Lf, lookup_insert_ne; [done| |].
        -- intros ->. apply Hm. constructor.
        -- intros ?. apply Hm. by constructor.
      * intros He m [->|Hm]%elem_of_cons; [|by apply I7].
        exists x. split.
        -- rewrite Ii, Li, <- app_assoc. apply elem_of_app. right. constructor.
        -- by rewrite (I6 _ Hn), Lf, lookup_insert_eq.
Qed.

Lemma convertFiles_frame (c : CompiledTemplatesProgram) (t : TemplateToCompile)
    (fs : list TemplateFileToCompile) :
  let '(c', fs', err) := convertFiles c t fs in
  Forall2 sameTemplates fs fs' /\
  (forall e, err = Some e -> isConversionError e = true) /\
  (exists l, idents c' = idents c ++ l) /\
  (err = None -> Forall (funcsReserved c') fs').
Proof.
  revert c. induction fs as [|f fs IH]; intros c; cbn [convertFiles].
  - split_and!; try done. exists []. by rewrite app_nil_r.
  - pose proof (convertNames_frame c t (names f) f (names_NoDup f)) as L.
    destruct (convertNames c t f (names f)) as [[c1 f1] err1].
    destruct L as (L1 & L2 & L3 & L4 & L5 & [l Li] & L6 & L7).
    assert (sameTemplates f f1) as Hsame.
    { split_and!; try done. intros n Hn. apply L6.
      rewrite elem_of_names, Hn. by intros [? ?]. }
    destruct err1 as [e|].
    + split_and!; try done; [|eauto].
      constructor; [done|]. apply Forall2_same_length_lookup. split; [done|].
      intros i x y Hx Hy. assert (x = y) as -> by congruence.
      apply sameTemplates_refl.
    + specialize (IH c1). destruct (convertFiles c1 t fs) as [[c2 fs'] err2].
      destruct IH as (I1 & I2 & [l' Ii] & I3).
      split_and!; [by constructor|done| |].
      * exists (l ++ l'). by rewrite Ii, Li, <- app_assoc.
      * intros He. constructor; [|by apply I3].
        apply (funcsReserved_mono c1 c2 f1 l' Ii).
        intros n Hn. apply (L7 eq_refl).
        unfold names in *. by rewrite <- L2.
Qed.

(** X15: [convertTemplates] changes nothing of the templates but function
    names: the configuration of every entry, and the name, the trees, the
    type-checked states and the defined templates of every file stay, as do
    the function names of names without a tree.  It only adds to the
    reserved identifiers.  Its error is the converter's.  Without an error,
    every template of every file is registered under the normalized form of
    an identifier that is reserved in the program. *)
Theorem convertTemplates_frame (c : CompiledTemplatesProgram)
    (tpls : list TemplateToCompile) :
  let '(c', tpls', err) := convertTemplates c tpls in
  Forall2 (fun t t' => conf t' = conf t /\ Forall2 sameTemplates (files t) (files t'))
          tpls tpls' /\
  (exists l, idents c' = idents c ++ l) /\
  match err with
  | Some e => isConversionError e = true
  | None => Forall (fun t' => Forall (funcsReserved c') (files t')) tpls'
  end.
Proof.
  revert c. induction tpls as [|t tpls IH]; intros c; cbn [convertTemplates].
  - split_and!; try done. exists []. by rewrite app_nil_r.
  - pose proof (convertFiles_frame c t (files t)) as L.
    destruct (convertFiles c t (files t)) as [[c1 fs] err1].
    destruct L as (L1 & L2 & [l Li] & L3).
    destruct err1 as [e|].
    + split_and!; [|eauto|by apply L2].
      constructor; [done|]. apply Forall2_same_length_lookup. split; [done|].
      intros i x y Hx Hy. assert (x = y) as -> by congruence.
      split; [done|]. apply Forall2_same_length_lookup. split; [done|].
      intros j f f' Hf Hf'. assert (f = f') as -> by congruence.
      apply sameTemplates_refl.
    + specialize (IH c1). destruct (convertTemplates c1 tpls) as [[c2 tpls'] err2].
      destruct IH as (I1 & [l' Ii] & I2).
      split_and!; [by constructor| |].
      * exists (l ++ l'). by rewrite Ii, Li, <- app_assoc.
      * destruct err2 as [e|]; [done|]. constructor; [|done]. cbn [files].
        eapply Forall_impl; [by apply L3|].
        intros f. by apply (funcsReserved_mono c1 c2 f l').
Qed.

Lemma convertTemplates_confs (c : CompiledTemplatesProgram)
    (tpls : list TemplateToCompile) :
  conf <$> snd (fst (convertTemplates c tpls)) = conf <$> tpls /\
  forall e, snd (convertTemplates c tpls) = Some e -> isConversionError e = true.
Proof.
  revert c. induction tpls as [|t tpls IH]; intros c; cbn [convertTemplates]; [done|].
  pose proof (convertFiles_frame c t (files t)) as L.
  destruct (convertFiles c t (files t)) as [[c1 fs] err1].
  destruct L as (_ & L2 & _).
  destruct err1 as [e|]; cbn [fst snd]; [split; [done|]; intros ? [= <-]; eauto|].
  specialize (IH c1). destruct (convertTemplates c1 tpls) as [[c2 tpls'] err2].
  cbn [fst snd] in *. destruct IH as [I1 I2]. split; [|done].
  by rewrite !fmap_cons, I1.
Qed.

Lemma generateProgram_world (c : CompiledTemplatesProgram) (outpkg : string)
    (tpls : list TemplateToCompile) (w : World) :
  sameFiles w (snd (generateProgram c outpkg tpls w)).
Proof. by repeat split. Qed.

(** X16: what [Compile] returns.  It reads and never writes, and it never
    changes the output path or the template configurations; a package name
    that is set is kept.  With an error the program text is empty, and
    unless the error is the converter's the shared program is as it was.
    Without an error the text is the package clause, the golint comment, the
    import statement, one declaration per literal of the table (in the order
    of the walk over it), the init routine and the function declarations, for
    templates that are those of the configuration, entry by entry.  It can
    only panic when the package name has to be looked up. *)
Theorem Compile_outcome (c : CompiledTemplatesProgram) (config : Configuration)
    (w : World) :
  let '(r, w') := Compile c config w in
  sameFiles w w' /\
  match r with
  | Done (program, err, c', config') =>
    OutPath config' = OutPath config /\ Templates config' = Templates config /\
    (OutPkg config <> "" -> config' = config) /\
    match err with
    | Some e => program = "" /\ (isConversionError e = false -> c' = c)
    | None =>
      exists tpls order,
        conf <$> tpls = Templates config /\
        order ≡ₚ map_to_list (builtinTexts c') /\
        program = programText c' (OutPkg config') tpls (builtinsText order)
    end
  | Panicked _ => OutPkg config = ""
  end.
Proof.
  unfold Compile, bind.
  assert (match updateOutPkg config w with
          | (Done (config1, err), w1) =>
            w1 = w /\ OutPath config1 = OutPath config /\
            Templates config1 = Templates config /\
            (OutPkg config <> "" -> config1 = config)
          | (Panicked _, w1) => w1 = w /\ OutPkg config = ""
          end) as Hu.
  { unfold updateOutPkg. case_bool_decide as Hp; [|by unfold ret].
    unfold bind. pose proof (LookupPackageName_reads (OutPath config) w) as Hw.
    destruct (LookupPackageName (OutPath config) w) as [[[pkgName [e|]]|msg] w1];
      cbn [snd] in Hw; by subst w1. }
  destruct (updateOutPkg config w) as [[[config1 err]|msg] w1];
    [destruct Hu as (-> & Ho & Ht & Hk)|destruct Hu as [-> Hp]].
  2:{ split; [apply sameFiles_refl|done]. }
  destruct err as [e|].
  { unfold ret. by split_and!; [apply sameFiles_refl|..]. }
  destruct (getTemplatesToCompile_returns c config1 w)
    as (tpls & err & w2 & -> & Hw2 & Hc & Herr).
  destruct err as [e|].
  { unfold ret. by split_and!. }
  unfold compileTemplates.
  destruct (convertTemplates_confs c tpls) as [Hconfs Hconv].
  destruct (convertTemplates c tpls) as [[c' tpls'] [e|]]; cbn [fst snd] in *.
  { unfold bind, ret. split_and!; [done..|].
    intros He. by rewrite (Hconv e eq_refl) in He. }
  unfold bind.
  pose proof (generateProgram_text c' (OutPkg config1) tpls' w2) as Hg.
  pose proof (generateProgram_world c' (OutPkg config1) tpls' w2) as Hw3.
  destruct (generateProgram c' (OutPkg config1) tpls' w2) as [[program|msg] w3];
    cbn [fst snd] in *; [|done].
  injection Hg as ->. unfold ret.
  split_and!; [by eapply sameFiles_trans|done..|].
  eexists tpls', _. split_and!; [congruence| |done].
  apply shuffle_Permutation.
Qed.

End ConversionFacts.

(** ** The variables of the init routine *)

Section InitVariables.
Context `{Collaborators}.

Lemma execStmt_locals (Entry : Type) (regNew : string -> Entry)
    (regCompiled : Entry -> Entry -> Entry * bool)
    (s : stmt) (st st' : initState Entry) (x : string) :
  execStmt regNew regCompiled s st = Some st' ->
  is_Some (locals st !! x) -> is_Some (locals st' !! x).
Proof.
  destruct s as [r tn fn|y r tn|y z|r tn y]; cbn [execStmt].
  - by intros [= <-].
  - destruct (locals st !! y), (registry st !! tn); try done.
    intros [= <-] Hx. cbn [locals]. apply lookup_insert_is_Some.
    destruct (decide (y = x)); eauto.
  - destruct (locals st !! y), (locals st !! z); try done.
    intros [= <-] Hx. cbn [locals]. apply lookup_insert_is_Some.
    destruct (decide (y = x)); eauto.
  - destruct (locals st !! y); [|done]. by intros [= <-].
Qed.

Lemma execStmts_locals (Entry : Type) (regNew : string -> Entry)
    (regCompiled : Entry -> Entry -> Entry * bool)
    (l : list stmt) (st st' : initState Entry) (x : string) :
  execStmts regNew regCompiled l st = Some st' ->
  is_Some (locals st !! x) -> is_Some (locals st' !! x).
Proof.
  revert st. induction l as [|s l IH]; intros st; cbn [execStmts].
  - by intros [= <-].
  - destruct (execStmt regNew regCompiled s st) as [st1|] eqn:E; [|done].
    intros Hl Hx. apply (IH st1 Hl). by eapply execStmt_locals.
Qed.

Lemma execStmts_app (Entry : Type) (regNew : string -> Entry)
    (regCompiled : Entry -> Entry -> Entry * bool)
    (l1 l2 : list stmt) (st : initState Entry) :
  execStmts regNew regCompiled (l1 ++ l2) st
  = match execStmts regNew regCompiled l1 st with
    | Some st' => execStmts regNew regCompiled l2 st'
    | None => None
    end.
Proof.
  revert st. induction l1 as [|s l1 IH]; intros st; cbn [execStmts app]; [done|].
  by destruct (execStmt regNew regCompiled s st).
Qed.

(** A routine that declares a variable twice does not run. *)
Lemma redeclared_fails (Entry : Type) (regNew : string -> Entry)
    (regCompiled : Entry -> Entry -> Entry * bool)
    (l1 l2 l3 : list stmt) (x r1 a r2 b : string) (st : initState Entry) :
  execStmts regNew regCompiled
    (l1 ++ SMustGet x r1 a :: l2 ++ SMustGet x r2 b :: l3) st = None.
Proof.
  rewrite execStmts_app.
  destruct (execStmts regNew regCompiled l1 st) as [st1|]; [|done].
  cbn [execStmts].
  destruct (execStmt regNew regCompiled (SMustGet x r1 a) st1) as [st2|] eqn:E1;
    [|done].
  assert (is_Some (locals st2 !! x)) as Hx.
  { cbn [execStmt] in E1.
    destruct (locals st1 !! x), (registry st1 !! a); try done.
    injection E1 as <-. cbn [locals]. by rewrite lookup_insert_eq. }
  rewrite execStmts_app.
  destruct (execStmts regNew regCompiled l2 st2) as [st3|] eqn:E2; [|done].
  destruct (execStmts_locals _ _ _ _ _ _ x E2 Hx) as [v Hv].
  cbn [execStmts execStmt]. by rewrite Hv.
Qed.

Lemma attachmentGroups_app (c : CompiledTemplatesProgram)
    (l1 l2 : list TemplateToCompile) :
  concat (attachmentGroups c (l1 ++ l2))
  = concat (attachmentGroups c l1) ++ concat (attachmentGroups c l2).
Proof. unfold attachmentGroups. by rewrite fmap_app, !concat_app. Qed.

(** The statements of one configuration entry hold the rebinding of each
    of its defined templates. *)
Lemma attachment_in_groups (c : CompiledTemplatesProgram) (t : TemplateToCompile)
    (i e : nat) (f : TemplateFileToCompile) (n : string) :
  files t !! i = Some f -> definedTemplates f !! e = Some n ->
  exists a b, concat (attachmentGroups c [t]) = a ++ attachment c i f e n ++ b.
Proof.
  intros Hf Hn. unfold attachmentGroups. cbn [fmap list_fmap concat].
  rewrite app_nil_r.
  assert ((i, f) ∈ imap pair (files t)) as Hif.
  { apply elem_of_lookup_imap. by exists i, f. }
  assert ((e, n) ∈ imap pair (definedTemplates f)) as Hen.
  { apply elem_of_lookup_imap. by exists e, n. }
  apply list_elem_of_split in Hif as (F1 & F2 & ->).
  rewrite fmap_app, fmap_cons. cbn beta iota.
  apply list_elem_of_split in Hen as (D1 & D2 & ->).
  rewrite fmap_app, fmap_cons.
  rewrite concat_app. cbn [concat]. rewrite !concat_app. cbn [concat].
  match goal with
  | |- exists a b, ?A ++ (?B ++ _ ++ ?C) ++ ?D = _ => exists (A ++ B), (C ++ D)
  end.
  by rewrite <- !app_assoc.
Qed.

(** X17: the variables a rebinding declares are named after the position of
    the file in its configuration entry and of the defined template in its
    file, not after the entry: two entries that each have a defined template
    at the same positions make the init routine declare the same variable
    twice with [:=], the second time after the first, and such a routine
    does not run. *)
Theorem init_variables_repeat (c : CompiledTemplatesProgram)
    (ts1 ts2 ts3 : list TemplateToCompile) (t1 t2 : TemplateToCompile) (i e : nat)
    (f1 f2 : TemplateFileToCompile) (n1 n2 : string) :
  files t1 !! i = Some f1 -> definedTemplates f1 !! e = Some n1 ->
  files t2 !! i = Some f2 -> definedTemplates f2 !! e = Some n2 ->
  (exists l1 l2 l3,
     initStmts c (ts1 ++ t1 :: ts2 ++ t2 :: ts3)
     = l1 ++ SMustGet ("tpl" +:+ Go.itoa i +:+ "X" +:+ Go.itoa e) (varName c) (name f1)
          :: l2 ++ SMustGet ("tpl" +:+ Go.itoa i +:+ "X" +:+ Go.itoa e) (varName c)
                     (name f2) :: l3) /\
  (forall (Entry : Type) (regNew : string -> Entry)
          (regCompiled : Entry -> Entry -> Entry * bool) (st : initState Entry),
     execStmts regNew regCompiled (initStmts c (ts1 ++ t1 :: ts2 ++ t2 :: ts3)) st
     = None).
Proof.
  intros Hf1 Hn1 Hf2 Hn2.
  assert (exists l1 l2 l3,
            initStmts c (ts1 ++ t1 :: ts2 ++ t2 :: ts3)
            = l1 ++ SMustGet ("tpl" +:+ Go.itoa i +:+ "X" +:+ Go.itoa e) (varName c)
                      (name f1)
                 :: l2 ++ SMustGet ("tpl" +:+ Go.itoa i +:+ "X" +:+ Go.itoa e)
                            (varName c) (name f2) :: l3) as (l1 & l2 & l3 & Hs).
  { unfold initStmts.
    change (t1 :: ts2 ++ t2 :: ts3) with ([t1] ++ ts2 ++ [t2] ++ ts3).
    rewrite !attachmentGroups_app.
    destruct (attachment_in_groups c t1 i e f1 n1 Hf1 Hn1) as (a1 & b1 & ->).
    destruct (attachment_in_groups c t2 i e f2 n2 Hf2 Hn2) as (a2 & b2 & ->).
    exists (registrations c (ts1 ++ [t1] ++ ts2 ++ [t2] ++ ts3)
            ++ concat (attachmentGroups c ts1) ++ a1),
           (tail (attachment c i f1 e n1) ++ b1
            ++ concat (attachmentGroups c ts2) ++ a2),
           (tail (attachment c i f2 e n2) ++ b2 ++ concat (attachmentGroups c ts3)).
    unfold attachment. cbn [tail]. rewrite <- !app_assoc. reflexivity. }
  split; [by exists l1, l2, l3|].
  intros Entry regNew regCompiled st. rewrite Hs. apply redeclared_fails.
Qed.

End InitVariables.

(** ** [CompileAndWrite]: the stages and the write *)

Section WriteFacts.
Context `{Collaborators}.





End WriteFacts.


(** ** Concrete runs *)

(** A library and collaborators to run the model on.  Strings without
    quotes or backslashes are quoted by putting them between double quotes,
    as [strconv.Quote] does.  [snaker.SnakeToCamel] is given for ASCII words
    that are not initialisms: the underscores go and the first letter of
    every word is made upper case.  [strings.ToLower] is given for ASCII. *)
Definition exampleQuote (s : string) : string :=
  String Go.dquote (s +:+ String Go.dquote "").

Definition asciiToUpper (a : ascii) : ascii :=
  let n := nat_of_ascii a in
  if (97 <=? n)%nat && (n <=? 122)%nat then ascii_of_nat (n - 32) else a.

Definition asciiToLower (a : ascii) : ascii :=
  let n := nat_of_ascii a in
  if (65 <=? n)%nat && (n <=? 90)%nat then ascii_of_nat (n + 32) else a.

Fixpoint exampleSnakeToCamel_from (wordStart : bool) (s : string) : string :=
  match s with
  | EmptyString => EmptyString
  | String a s' =>
    if Ascii.eqb a "_" then exampleSnakeToCamel_from true s'
    else String (if wordStart then asciiToUpper a else a)
                (exampleSnakeToCamel_from false s')
  end.

Fixpoint exampleToLower (s : string) : string :=
  match s with
  | EmptyString => EmptyString
  | String a s' => String (asciiToLower a) (exampleToLower s')
  end.

#[export] Instance exampleLibrary : GoLibrary := {|
  quote := exampleQuote;
  filepath_Dir := fun _ => ".";
  strings_ToLower := exampleToLower;
  snaker_SnakeToCamel := exampleSnakeToCamel_from true;
  FuncDecl := string;
  parseFuncDecl := fun n => n;
  astNodeToString := fun f =>
    "func " +:+ f +:+ "(t parse.Templater, w io.Writer, indata interface {}) error {}";
|}.

Definition exampleEngine : Engine unit string := {|
  TemplateSet := list (string * option string);
  TemplateRef := string * option string;
  engine_Parse := fun tname content _ => inr [(tname, Some content)];
  engine_Templates := fun st => st;
  engine_Name := fst;
  engine_Execute := fun st _ => st;
  engine_Tree := fun _ tpl => snd tpl;
|}.

(** The converter of the example interns two literals per template and
    declares its function. *)
#[export] Instance exampleCollaborators : Collaborators := {|
  Tree := string;
  State := unit;
  DataT := unit;
  FuncMap := unit;
  PublicIdentsT := unit;
  DataConfT := unit;
  text_template := exampleEngine;
  html_template := exampleEngine;
  simplifier_TransformTree := fun _ _ _ => tt;
  convertTplTree := fun fname _ _ _ _ _ _ =>
    ([ReqAddBuiltintText "Hello, "; ReqAddBuiltintText "!"; ReqCreateFunc fname], None);
|}.

Lemma exampleQuote_inj (a b : string) : exampleQuote a = exampleQuote b -> a = b.
Proof.
  unfold exampleQuote. intros E. injection E as E.
  by apply string_app_inv_tail in E.
Qed.

(** A file system with one template file, and a run that draws the orders
    [orders] for its walks over maps. *)
Definition exampleWorld (orders : list (list nat)) : World := {|
  fs_Glob := fun pattern =>
    if bool_decide (pattern = "templates/*.tpl") then Some ["templates/a.tpl"]
    else Some [];
  fs_ReadFile := fun _ => inr "Hello, {{.Name}}!";
  fs_Stat := fun _ => None;
  fs_WriteFile := fun _ _ => None;
  mapOrder := orders;
  written := [];
|}.

Definition exampleConfiguration : Configuration := {|
  OutPath := "gen.go";
  OutPkg := "main";
  Templates := [{| TemplatesPath := "templates/*.tpl"; Data := tt; FuncsExport := tt;
                   PublicIdents := tt; HTML := false; DataConfiguration_ := tt |}];
|}.

(** A file "file.tpl" that defines the nested template "embed". *)
Definition exampleFile : TemplateFileToCompile := {|
  name := "file.tpl";
  tplsTree := <["embed" := Some "nested"]> (<["file.tpl" := Some "main"]> ∅);
  tplsFunc := <["embed" := "fnfile_tpl_embed"]> (<["file.tpl" := "fnfile_tpl"]> ∅);
  tplsTypeCheck := ∅;
  definedTemplates := ["embed"];
|}.

Definition exampleTemplates : list TemplateToCompile :=
  [{| conf := {| TemplatesPath := ""; Data := tt; FuncsExport := tt; PublicIdents := tt;
                 HTML := false; DataConfiguration_ := tt |};
      files := [exampleFile] |}].

(** C1 on a concrete request: two templates with the same base name and an
    import in between. *)
Lemma funcNames_unique_example :
  let '(log, c) :=
    session "compiledTemplates"
      [CallMakeFuncName "fna_tpl"; CallAddImport "a/data"; CallMakeFuncName "fna_tpl"] in
  NoDup (funcNamesOf log) /\
  (forall x, x ∈ funcNamesOf log ->
     (x ∉ reservedIdents "compiledTemplates") /\ (x ∉ aliasesOf log) /\
     isCollidingIdent c x = true).
Proof.
  apply (@funcNames_unique exampleLibrary exampleQuote_inj "compiledTemplates"
           [CallMakeFuncName "fna_tpl"; CallAddImport "a/data"; CallMakeFuncName "fna_tpl"]).
  reflexivity.
Defined.

(** C1 fails as stated: two packages whose last segment is "data" both get
    the alias "aliasdata", which is then reserved twice. *)
Lemma reserved_names_repeat :
  let '(log, c) :=
    session "compiledTemplates" [CallAddImport "a/data"; CallAddImport "b/data"] in
  aliasesOf log = ["io"; "parse"; "aliasdata"; "aliasdata"] /\
  importNames c = ["aliasdata"; "aliasdata"] /\
  ImportSpec_Path <$> imports c
    = exampleQuote <$> ["io"; parsePkgPath; "a/data"; "b/data"] /\
  idents c = ["t"; "w"; "data"; "indata"; "compiledTemplates"; "io"; "parse";
              "aliasdata"; "aliasdata"].
Proof. vm_compute. done. Qed.

(** C6 fails as stated: the path "b/data" is new, its last segment collides,
    and the alias returned for it is one an import already has. *)
Lemma addImport_alias_taken :
  let c := snd (session "compiledTemplates" [CallAddImport "a/data"]) in
  importedPath c "b/data" = false /\
  isCollidingIdent c (Go.Base "b/data") = true /\
  fst (addImport c "b/data") = "alias" +:+ Go.Base "b/data" /\
  isCollidingIdent c (fst (addImport c "b/data")) = true /\
  "aliasdata" ∈ importNames c.
Proof. vm_compute. split_and!; try done. constructor. Qed.

(** C5 fails as stated: the literal interned second is declared first when
    the runtime walks the table in that order. *)
Lemma builtins_out_of_insertion_order :
  let '(log, c) :=
    session "compiledTemplates" [CallAddBuiltintText "a"; CallAddBuiltintText "b"] in
  firstOccurrences [] (literalsOf log) = [("a", "builtin0"); ("b", "builtin1")] /\
  fst (generateBuiltins c (exampleWorld [[1]]))
    = Done (builtinsText [("b", "builtin1"); ("a", "builtin0")]).
Proof. vm_compute. done. Qed.

(** A registry whose entries are function names, [None] being a [nil]
    entry, and whose [Compiled] fails: it returns [nil] and an error. *)
Definition failingCompiled (x y : option string) : option string * bool := (None, true).

(** C4 fails as stated: after the init routine of "file.tpl" with its nested
    "embed" has run on a registry whose [Compiled] fails, the slot of
    "file.tpl" no longer holds the entry that was registered for it. *)
Lemma failed_attachment_overwrites :
  let c := NewCompiledTemplatesProgram "compiledTemplates" in
  initStmts c exampleTemplates
    = [SAdd "compiledTemplates" "embed" "fnfile_tpl_embed";
       SAdd "compiledTemplates" "file.tpl" "fnfile_tpl";
       SMustGet "tpl0X0" "compiledTemplates" "file.tpl";
       SMustGet "tpl0Y0" "compiledTemplates" "embed";
       SCompiled "tpl0X0" "tpl0Y0";
       SSet "compiledTemplates" "file.tpl" "tpl0X0"] /\
  (execStmts Some failingCompiled
     (registrations c exampleTemplates) {| registry := ∅; locals := ∅ |}
   ≫= fun st => registry st !! "file.tpl") = Some (Some "fnfile_tpl") /\
  (execStmts Some failingCompiled
     (initStmts c exampleTemplates) {| registry := ∅; locals := ∅ |}
   ≫= fun st => registry st !! "file.tpl") = Some None.
Proof. vm_compute. done. Qed.

(** C2: the same configuration compiled twice over the same files gives two
    different artifacts when the runtime walks the literal table in two
    different orders. *)
Lemma artifact_depends_on_map_order :
  let c := NewCompiledTemplatesProgram "compiledTemplates" in
  let run1 := CompileAndWrite c exampleConfiguration (exampleWorld []) in
  let run2 := CompileAndWrite c exampleConfiguration (exampleWorld [[]; [1]]) in
  fst run1 = Done None /\ fst run2 = Done None /\
  fst <$> written (snd run1) = ["gen.go"] /\
  fst <$> written (snd run2) = ["gen.go"] /\
  bool_decide (written (snd run1) = written (snd run2)) = false.
Proof. vm_compute. done. Qed.

(** The names of the artifact are the reserved names after [snakeToCamel],
    and [convertTemplates] reserves before it normalizes: the main template
    of a file "a.b" and that of a file "aB" reserve different names and are
    both written as "fnaB". *)
Lemma normalized_names_collide :
  let c := NewCompiledTemplatesProgram "compiledTemplates" in
  let '(x, c1) := makeFuncName c (cleanTplName ("fn" +:+ "a.b")) in
  let '(y, c2) := makeFuncName c1 (cleanTplName ("fn" +:+ "aB")) in
  x = "fna_b" /\ y = "fnaB" /\ snakeToCamel x = "fnaB" /\ snakeToCamel y = "fnaB".
Proof. vm_compute. done. Qed.

Example Base_examples :
  Go.Base "github.com/x/parse" = "parse" /\ Go.Base "" = "." /\
  Go.Base "a/b//" = "b" /\ Go.Base "///" = "/" /\ Go.Base "io" = "io".
Proof. vm_compute. done. Qed.

Example makeFuncName_examples :
  let c := NewCompiledTemplatesProgram "compiledTemplates" in
  fst (makeFuncName c "fna_tpl") = "fna_tpl" /\
  fst (makeFuncName c "t") = "fn0t" /\
  fst (makeFuncName (snd (makeFuncName c "t")) "t") = "fn1t".
Proof. vm_compute. done. Qed.

Example generateImportStmt_example :
  generateImportStmt
    (snd (addImport (NewCompiledTemplatesProgram "compiledTemplates") "a/data"))
  = joinS ["import ("; nl;
           tab; exampleQuote "io"; nl;
           tab; exampleQuote parsePkgPath; nl;
           tab; "aliasdata "; exampleQuote "a/data"; nl;
           ")"].
Proof. vm_compute. done. Qed.

Example generateInitFunc_example :
  generateInitFunc (NewCompiledTemplatesProgram "compiledTemplates") exampleTemplates
  = joinS ["func init () {"; nl;
           "  compiledTemplates.Add("; exampleQuote "embed"; ", fnfile_tpl_embed)"; nl;
           "  compiledTemplates.Add("; exampleQuote "file.tpl"; ", fnfile_tpl)"; nl;
           "  tpl0X0 := compiledTemplates.MustGet("; exampleQuote "file.tpl"; ")"; nl;
           "  tpl0Y0 := compiledTemplates.MustGet("; exampleQuote "embed"; ")"; nl;
           "  tpl0X0, _ = tpl0X0.Compiled(tpl0Y0)"; nl;
           "  compiledTemplates.Set("; exampleQuote "file.tpl"; ", tpl0X0)"; nl;
           "}"].
Proof. vm_compute. done. Qed.

(** The whole artifact of the example configuration, for one order of the
    walk over the literal table. *)
Example CompileAndWrite_example :
  written (snd (CompileAndWrite (NewCompiledTemplatesProgram "compiledTemplates")
                  exampleConfiguration (exampleWorld [[]; [1]])))
  = [("gen.go",
      joinS ["package main"; nl; nl;
             "//golint:ignore"; nl; nl;
             "import ("; nl;
             tab; exampleQuote "io"; nl;
             tab; exampleQuote parsePkgPath; nl;
             ")"; nl; nl;
             "var builtin0 = []byte("; exampleQuote "Hello, "; ")"; nl;
             "var builtin1 = []byte("; exampleQuote "!"; ")"; nl;
             nl; nl;
             "func init () {"; nl;
             "  compiledTemplates.Add("; exampleQuote "a.tpl"; ", fnaTpl)"; nl;
             "}"; nl; nl;
             "func fnaTpl(t parse.Templater, w io.Writer, indata interface {}) error {}";
             nl; nl])].
Proof. vm_compute. done. Qed.

(** A source that holds nothing but the definition of the template "x". *)
Definition onlyDefines : string := "{{define `x`}}hi{{end}}".

(** A template engine whose trees are the lists of the nodes of their root,
    given for [onlyDefines] and for sources without actions.  As
    [text/template] does, it parses [onlyDefines] into the template "x"
    with the text node "hi" and the main template, whose tree is set and
    has a root without nodes; a source without actions is one text node. *)
Definition definesEngine : Engine unit (list string) := {|
  TemplateSet := list (string * option (list string));
  TemplateRef := string * option (list string);
  engine_Parse := fun tname content _ =>
    if bool_decide (content = onlyDefines)
    then inr [(tname, Some []); ("x", Some ["hi"])]
    else inr [(tname, Some [content])];
  engine_Templates := fun st => st;
  engine_Name := fst;
  engine_Execute := fun st _ => st;
  engine_Tree := fun _ tpl => snd tpl;
|}.

Definition definesCollaborators : @Collaborators exampleLibrary := {|
  Tree := list string;
  State := unit;
  DataT := unit;
  FuncMap := unit;
  PublicIdentsT := unit;
  DataConfT := unit;
  text_template := definesEngine;
  html_template := definesEngine;
  simplifier_TransformTree := fun _ _ _ => tt;
  convertTplTree := fun fname _ _ _ _ _ _ => ([ReqCreateFunc fname], None);
|}.

(** C9 fails as stated: the main template of a source that only defines
    other templates has a tree that is set and empty, and it is kept. *)
Lemma empty_tree_is_kept :
  snd (@compileTextTemplate exampleLibrary definesCollaborators "a.tpl" onlyDefines tt)
  = None /\
  fst (@compileTextTemplate exampleLibrary definesCollaborators "a.tpl" onlyDefines tt)
    !! "a.tpl" = Some (Some []) /\
  fst (@compileTextTemplate exampleLibrary definesCollaborators "a.tpl" onlyDefines tt)
    !! "x" = Some (Some ["hi"]).
Proof. vm_compute. done. Qed.

(** A world whose template pattern is malformed. *)
Definition badPatternWorld : World := {|
  fs_Glob := fun _ => None;
  fs_ReadFile := fun _ => inr "";
  fs_Stat := fun _ => None;
  fs_WriteFile := fun _ _ => None;
  mapOrder := [];
  written := [];
|}.

(** In that world [CompileAndWrite] returns the discovery error and writes
    nothing. *)
Example CompileAndWrite_bad_pattern_example :
  CompileAndWrite (NewCompiledTemplatesProgram "compiledTemplates")
    exampleConfiguration badPatternWorld
  = (Done (Some (discoveryError "templates/*.tpl")), badPatternWorld).
Proof. vm_compute. done. Qed.
(** ** Concrete runs of the further properties *)

(** X3 on a file that starts with a comment line. *)
Lemma LookupPackageNameFromStr_clause_example :
  LookupPackageNameFromStr
    (("// generated file" +:+ nl) +:+ "package " +:+ "main" +:+ nl
     +:+ "import " +:+ exampleQuote "io" +:+ nl)
    (exampleWorld [])
  = (Done "main", exampleWorld []).
Proof.
  apply (LookupPackageNameFromStr_clause ("// generated file" +:+ nl) "main"
           ("import " +:+ exampleQuote "io" +:+ nl) (exampleWorld []));
    reflexivity.
Defined.

(** X4 on a file that is its package clause, without a newline at its end. *)
Lemma LookupPackageNameFromStr_no_newline_example :
  exists msg,
    LookupPackageNameFromStr "package main" (exampleWorld [])
    = (Panicked msg, exampleWorld []).
Proof.
  apply (LookupPackageNameFromStr_no_newline "package main" (exampleWorld [])).
  reflexivity.
Defined.

(** X5 for a registry variable named like the package "io". *)
Lemma NewCompiledTemplatesProgram_start_example :
  NewCompiledTemplatesProgram "io" =
  {| varName := "io";
     imports :=
       [{| ImportSpec_Name := Some "aliasio"; ImportSpec_Path := exampleQuote "io" |};
        {| ImportSpec_Name := None; ImportSpec_Path := exampleQuote parsePkgPath |}];
     funcs := [];
     idents := ["t"; "w"; "data"; "indata"; "io"; "aliasio"; "parse"];
     builtinTexts := ∅ |}.
Proof.
  apply (@NewCompiledTemplatesProgram_start exampleLibrary "io").
  intros E. discriminate E.
Defined.

(** A configuration without a package name, for an output directory that
    holds no Go file. *)
Definition exampleUnnamed : Configuration := {|
  OutPath := "gen.go";
  OutPkg := "";
  Templates := [];
|}.

(** X14 on that configuration. *)
Lemma updateOutPkg_empty_dir_example :
  updateOutPkg exampleUnnamed (exampleWorld [])
  = (Done ({| OutPath := "gen.go"; OutPkg := "."; Templates := [] |}, None),
     exampleWorld []).
Proof.
  apply (updateOutPkg_empty_dir exampleUnnamed (exampleWorld [])); reflexivity.
Defined.

(** A second configuration entry with a file "other.tpl" that defines the
    nested template "part". *)
Definition exampleOtherFile : TemplateFileToCompile := {|
  name := "other.tpl";
  tplsTree := <["part" := Some "nested"]> (<["other.tpl" := Some "main"]> ∅);
  tplsFunc := <["part" := "fnother_tpl_part"]> (<["other.tpl" := "fnother_tpl"]> ∅);
  tplsTypeCheck := ∅;
  definedTemplates := ["part"];
|}.

Definition exampleEntryConf : @TemplateConfiguration exampleLibrary exampleCollaborators :=
  {| TemplatesPath := ""; Data := tt; FuncsExport := tt; PublicIdents := tt;
     HTML := false; DataConfiguration_ := tt |}.

Definition exampleOtherEntry : TemplateToCompile :=
  {| conf := exampleEntryConf; files := [exampleOtherFile] |}.

(** X17 on two configuration entries with one file and one defined template
    each: both rebindings declare "tpl0X0". *)
Lemma init_variables_repeat_example :
  (exists l1 l2 l3,
     initStmts (NewCompiledTemplatesProgram "reg") (exampleTemplates ++ [exampleOtherEntry])
     = l1 ++ SMustGet "tpl0X0" "reg" "file.tpl"
          :: l2 ++ SMustGet "tpl0X0" "reg" "other.tpl" :: l3) /\
  (forall (Entry : Type) (regNew : string -> Entry)
          (regCompiled : Entry -> Entry -> Entry * bool) (st : initState Entry),
     execStmts regNew regCompiled
       (initStmts (NewCompiledTemplatesProgram "reg")
          (exampleTemplates ++ [exampleOtherEntry])) st
     = None).
Proof.
  apply (init_variables_repeat (NewCompiledTemplatesProgram "reg") [] [] []
           {| conf := exampleEntryConf; files := [exampleFile] |}
           exampleOtherEntry 0 0 exampleFile exampleOtherFile "embed" "part");
    reflexivity.
Defined.

